(** * mayara-gui viewer: range formatting, colour legend and colour
      strings, no-transmit zones, readiness gate, spoke stream session,
      heading display and platform detection

    A shallow embedding of [viewer.js].  JavaScript numbers are IEEE-754
    binary64 values, so they are modelled by Rocq's primitive [float]; the
    few runtime operations the viewer relies on ([Math.round], [Math.floor],
    [%], number-to-string conversion, [toFixed]) are written out after
    ECMAScript over the exact value of a float. *)

From Stdlib Require Import ZArith QArith Qround List String Ascii Bool Lia.
From Stdlib Require Import Floats DecimalString.
From stdpp Require Import base list.
Import ListNotations.

Set Warnings "-inexact-float".

Local Open Scope string_scope.

(* ================================================================== *)
(** ** JavaScript numbers *)
(* ================================================================== *)

Module JS.

Definition number := float.

(** Integer to number, rounding to nearest-even outside the exact range. *)
Definition of_Z (z : Z) : number :=
  SF2Prim (binary_normalize prec emax z 0 false).

(** Exact rational value of a finite non-zero float [(-1)^s * m * 2^e]. *)
Definition Q_of_fin (s : bool) (m : positive) (e : Z) : Q :=
  let n := if s then Zneg m else Zpos m in
  match e with
  | Z0 => n # 1
  | Zpos p => (n * 2 ^ Zpos p) # 1
  | Zneg p => n # (2 ^ p)
  end.

(** [Math.floor]. *)
Definition Math_floor (x : number) : number :=
  match Prim2SF x with
  | S754_finite s m e =>
      let r := Qfloor (Q_of_fin s m e) in
      if (r =? 0)%Z then zero else of_Z r
  | _ => x
  end.

(** [Math.round]: the closest integer, ties towards +infinity; a result of
    zero keeps the sign of the argument. *)
Definition Math_round (x : number) : number :=
  match Prim2SF x with
  | S754_finite s m e =>
      let r := Qfloor (Q_of_fin s m e + (1 # 2))%Q in
      if (r =? 0)%Z then (if s then neg_zero else zero) else of_Z r
  | _ => x
  end.

Definition Math_abs (x : number) : number := abs x.

(** The [%] operator on numbers: truncated remainder with the sign of the
    dividend, computed exactly. *)
Definition rem (a b : number) : number :=
  match Prim2SF a, Prim2SF b with
  | S754_nan, _ | _, S754_nan => nan
  | S754_infinity _, _ => nan
  | _, S754_zero _ => nan
  | S754_zero _, _ => a
  | S754_finite _ _ _, S754_infinity _ => a
  | S754_finite sa ma ea, S754_finite _ mb eb =>
      let e := Z.min ea eb in
      let A := (Zpos ma * 2 ^ (ea - e))%Z in
      let B := (Zpos mb * 2 ^ (eb - e))%Z in
      let R := (A mod B)%Z in
      SF2Prim (binary_normalize prec emax (if sa then (- R)%Z else R) e sa)
  end.

(** [===] on numbers. *)
Definition strict_eq (a b : number) : bool := (a =? b)%float.

(** *** Decimal strings *)

Definition string_of_Z (z : Z) : string := NilZero.string_of_int (Z.to_int z).

Fixpoint zeros (n : nat) : string :=
  match n with O => EmptyString | S n' => String "0" (zeros n') end.

Definition Qpow10 (n : Z) : Q := Qpower (10 # 1) n.

(** The [n] with [10^(n-1) <= x < 10^n], searched upwards from an
    under-estimate obtained from the binary exponent. *)
Fixpoint dec_exp (x : Q) (n : Z) (fuel : nat) : Z :=
  match fuel with
  | O => n
  | S fuel' => if Qle_bool (Qpow10 n) x then dec_exp x (n + 1) fuel' else n
  end.

(** Nearest integer, ties to even. *)
Definition Qround_even (y : Q) : Z :=
  let f := Qfloor y in
  match ((y - inject_Z f) * 2 ?= 1)%Q with
  | Lt => f
  | Gt => (f + 1)%Z
  | Eq => if Z.even f then f else (f + 1)%Z
  end.

(** Does the rational [d] round to the positive float [m * 2^e]? *)
Definition rounds_to (m : positive) (e : Z) (d : Q) : bool :=
  let x := Q_of_fin false m e in
  let up := Q_of_fin false 1 (e - 1) in
  let down :=
    if ((Zpos m =? 2 ^ 52) && (-1074 <? e))%Z
    then Q_of_fin false 1 (e - 2) else up in
  if Z.even (Zpos m)
  then Qle_bool (x - down)%Q d && Qle_bool d (x + up)%Q
  else negb (Qle_bool d (x - down)%Q) && negb (Qle_bool (x + up)%Q d).

(** Shortest digit string [s] (with [k] digits) and decimal exponent [n]
    such that [s * 10^(n-k)] converts back to the float: of the two
    [k]-digit decimals around the float the nearer one is tried first,
    then the other one (next to a power of two the float is rounded to
    from further away above than below). *)
Fixpoint shortest (m : positive) (e : Z) (n : Z) (k : Z) (fuel : nat)
  : Z * Z :=
  let x := Q_of_fin false m e in
  let y := (x / Qpow10 (n - k))%Q in
  let s := Qround_even y in
  let other := if (s =? Qfloor y)%Z then (Qfloor y + 1)%Z else Qfloor y in
  let found (s : Z) :=
    (if (s =? 10 ^ k)%Z then (10 ^ (k - 1), n + 1) else (s, n))%Z in
  match fuel with
  | O => (s, n)
  | S fuel' =>
      if rounds_to m e (inject_Z s * Qpow10 (n - k))%Q then found s
      else if rounds_to m e (inject_Z other * Qpow10 (n - k))%Q
      then found other
      else shortest m e n (k + 1) fuel'
  end.

Definition take (n : Z) (s : string) : string := substring 0 (Z.to_nat n) s.
Definition drop (n : Z) (s : string) : string :=
  substring (Z.to_nat n) (String.length s - Z.to_nat n) s.

(** Strip the trailing zeros the digit search may leave on a tie. *)
Fixpoint strip_zeros (s : Z) (fuel : nat) : Z :=
  match fuel with
  | O => s
  | S fuel' => if ((s mod 10 =? 0) && negb (s =? 0))%Z
               then strip_zeros (s / 10) fuel' else s
  end.

Definition format_positive (m : positive) (e : Z) : string :=
  let x := Q_of_fin false m e in
  let b := (e + Z.log2 (Zpos m))%Z in
  let n0 := dec_exp x (b * 30103 / 100000 - 1) 8 in
  let '(s0, n) := shortest m e n0 1 17 in
  let s := strip_zeros s0 17 in
  let digits := string_of_Z s in
  let k := Z.of_nat (String.length digits) in
  if ((k <=? n) && (n <=? 21))%Z then
    digits ++ zeros (Z.to_nat (n - k))
  else if ((0 <? n) && (n <=? 21))%Z then
    take n digits ++ "." ++ drop n digits
  else if ((-6 <? n) && (n <=? 0))%Z then
    "0." ++ zeros (Z.to_nat (- n)) ++ digits
  else
    let ex := (n - 1)%Z in
    let exs := (if (ex <? 0)%Z then "-" else "+") ++ string_of_Z (Z.abs ex) in
    if (k =? 1)%Z then digits ++ "e" ++ exs
    else take 1 digits ++ "." ++ drop 1 digits ++ "e" ++ exs.

(** [Number::toString] in radix 10. *)
Definition to_string (x : number) : string :=
  match Prim2SF x with
  | S754_nan => "NaN"
  | S754_zero _ => "0"
  | S754_infinity s => if s then "-Infinity" else "Infinity"
  | S754_finite s m e =>
      (if s then "-" else EmptyString) ++ format_positive m e
  end.

(** [Number.prototype.toFixed(f)]. *)
Definition toFixed (x : number) (f : nat) : string :=
  match Prim2SF x with
  | S754_finite s m e =>
      let y := Q_of_fin false m e in
      if Qle_bool (Qpow10 21) y then to_string x
      else
        let n := Qfloor (y * Qpow10 (Z.of_nat f) + (1 # 2))%Q in
        let d := string_of_Z n in
        let d := zeros (S f - String.length d) ++ d in
        let cut := Z.of_nat (String.length d - f) in
        (if s then "-" else EmptyString) ++
        (if Nat.eqb f 0 then d else take cut d ++ "." ++ drop cut d)
  | S754_zero _ =>
      if Nat.eqb f 0 then "0" else "0." ++ zeros f
  | _ => to_string x
  end.

(** String concatenation with a number operand: [x + " m"]. *)
Definition concat_num (x : number) (s : string) : string := to_string x ++ s.

End JS.

Import JS.
Local Open Scope float_scope.

(** [>] and [>=] are [<] and [<=] with the operands exchanged. *)
Notation "x >? y" := (y <? x)%float
  (at level 70, no associativity, only parsing) : float_scope.
Notation "x >=? y" := (y <=? x)%float
  (at level 70, no associativity, only parsing) : float_scope.

(* ================================================================== *)
(** ** Unit formatter ([formatRangeValue], [formatRangeNautical]) *)
(* ================================================================== *)

Definition NAUTICAL_MILE : number := 1852.0.

(** Original heuristic functions, used for non-Navico brands. *)
Definition divides_near (a b : number) : bool :=
  let remainder := rem a b in
  (remainder <=? 1.0) || (remainder >=? b - 1).

Definition is_metric (v : number) : bool :=
  if v <=? 100 then divides_near v 25
  else if v <=? 750 then divides_near v 50
  else divides_near v 500.

Definition denominators : list number := [128; 64; 32; 16; 8; 4; 2].

(** One iteration of the [for (const denom of denominators)] loop of
    [formatRangeNautical]: the candidate numerator and the acceptance test. *)
Definition numerator_for (v denom : number) : number :=
  let fraction := NAUTICAL_MILE / denom in
  Math_round (v / fraction).

Definition accepts (v denom : number) : bool :=
  let fraction := NAUTICAL_MILE / denom in
  let numerator := numerator_for v denom in
  let error := Math_abs (v - numerator * fraction) in
  (error <? fraction * 0.10) && (numerator >? 0).

(** The loop itself: the first accepted denominator returns from the
    function, [None] means the loop ran to its end. *)
Fixpoint search_denominators (v : number) (ds : list number) : option string :=
  match ds with
  | [] => None
  | denom :: rest =>
      if accepts v denom
      then Some (to_string (numerator_for v denom) ++ "/" ++
                 to_string denom ++ " nm")
      else search_denominators v rest
  end.

Definition formatRangeNautical (v : number) : string :=
  if v >=? NAUTICAL_MILE then
    let nm := v / NAUTICAL_MILE in
    if nm >=? 10 then
      concat_num (Math_round nm) " nm"
    else
      let rounded := Math_round (nm * 2) / 2 in
      if strict_eq rounded (Math_floor rounded)
      then concat_num rounded " nm"
      else toFixed rounded 1 ++ " nm"
  else
    match search_denominators v denominators with
    | Some s => s
    | None => toFixed (v / NAUTICAL_MILE) 2 ++ " nm"
    end.

(** The nautical [else] branch of [formatRangeValue] (all brands but
    Navico), on the already rounded value. *)
Definition formatRangeValue_nautical (v : number) : string :=
  if v >=? NAUTICAL_MILE - 1 then
    if divides_near v NAUTICAL_MILE
    then concat_num (Math_floor ((v + 1) / NAUTICAL_MILE)) " nm"
    else concat_num (v / NAUTICAL_MILE) " nm"
  else if divides_near v (NAUTICAL_MILE / 2) then
    concat_num (Math_floor ((v + 1) / (NAUTICAL_MILE / 2))) "/2 nm"
  else if divides_near v (NAUTICAL_MILE / 4) then
    concat_num (Math_floor ((v + 1) / (NAUTICAL_MILE / 4))) "/4 nm"
  else if divides_near v (NAUTICAL_MILE / 8) then
    concat_num (Math_floor ((v + 1) / (NAUTICAL_MILE / 8))) "/8 nm"
  else if divides_near v (NAUTICAL_MILE / 16) then
    concat_num (Math_floor ((v + 1) / (NAUTICAL_MILE / 16))) "/16 nm"
  else if divides_near v (NAUTICAL_MILE / 32) then
    concat_num (Math_floor ((v + 1) / (NAUTICAL_MILE / 32))) "/32 nm"
  else if divides_near v (NAUTICAL_MILE / 64) then
    concat_num (Math_floor ((v + 1) / (NAUTICAL_MILE / 64))) "/64 nm"
  else if divides_near v (NAUTICAL_MILE / 128) then
    concat_num (Math_floor ((v + 1) / (NAUTICAL_MILE / 128))) "/128 nm"
  else
    concat_num (v / NAUTICAL_MILE) " nm".

Definition formatRangeValue (brand : string) (v0 : number) : string :=
  let v := Math_round v0 in
  if String.eqb brand "Navico" then
    if v <? 1000 then concat_num v " m"
    else formatRangeNautical v
  else if is_metric v then
    if v >=? 1000 then concat_num (v / 1000) " km"
    else concat_num v " m"
  else formatRangeValue_nautical v.

(* ================================================================== *)
(** ** The unit formatter as the specification words it *)
(* ================================================================== *)

(** [d] is the first element of [ds] that passes [test]. *)
Definition first_match {A} (test : A -> bool) (ds : list A) (d : A) : Prop :=
  exists pre post,
    ds = (pre ++ d :: post)%list /\ test d = true /\
    Forall (fun x => test x = false) pre.

(** "[v] is near a multiple of [b] iff [v mod b <= 1] or [v mod b >= b-1]". *)
Definition near_multiple (v b : number) : Prop :=
  (rem v b <=? 1) = true \/ (rem v b >=? b - 1) = true.

(** "[v] is metric iff [v <= 100] and near a multiple of 25, or
    [100 < v <= 750] and near a multiple of 50, or [v > 750] and near a
    multiple of 500". *)
Definition metric (v : number) : Prop :=
  ((v <=? 100) = true /\ near_multiple v 25) \/
  ((v >? 100) = true /\ (v <=? 750) = true /\ near_multiple v 50) \/
  ((v >? 750) = true /\ near_multiple v 500).

(** Rendering of a count of [1/d] nautical miles; a whole-mile count is a
    bare integer. *)
Definition fraction_count (v d : number) : number :=
  Math_floor ((v + 1) / (NAUTICAL_MILE / d)).

Definition fraction_label (v d : number) : string :=
  concat_num (fraction_count v d)
             (if strict_eq d 1 then " nm" else "/" ++ to_string d ++ " nm").

Definition raw_decimal_nm (v : number) : string :=
  concat_num (v / NAUTICAL_MILE) " nm".

(** Denominators of the fractions tried below one nautical mile, and the
    same list headed by the whole mile. *)
Definition sub_mile_denominators : list number := [2; 4; 8; 16; 32; 64; 128].
Definition descending_fractions : list number := 1 :: sub_mile_denominators.

Definition near_fraction (v d : number) : bool :=
  divides_near v (NAUTICAL_MILE / d).

(** The nautical rendering as the sentence "the first matching fraction of
    the 1852 m nautical mile tested in descending order (whole nm, halves,
    quarters, eighths, down to 1/128), falling back to a raw decimal nm
    value" reads. *)
Definition nautical_by_descending_fractions (v : number) : string :=
  match find (near_fraction v) descending_fractions with
  | Some d => fraction_label v d
  | None => raw_decimal_nm v
  end.

Definition formatRangeValue_as_specified (v0 : number) : string :=
  let v := Math_round v0 in
  if is_metric v then
    if v >=? 1000 then concat_num (v / 1000) " km" else concat_num v " m"
  else nautical_by_descending_fractions v.

(* ================================================================== *)
(** ** Colour legend ([buildMayaraLegend]) *)
(* ================================================================== *)

(** One [[r, g, b, a]] entry of the palette. *)
Definition rgba := list number.

(** Body of the [for] loop: the entry pushed for index [i]. *)
Definition legend_entry (pixelValues i : number) : rgba :=
  let '(r, g, b) :=
    if strict_eq i 0 then
      (0, 0, 0)
    else if i <? pixelValues then
      let t := (i - 1) / (pixelValues - 2) in
      if t <? 0.25 then
        let local := t / 0.25 in
        (0, Math_floor (85 + 170 * local), 255)
      else if t <? 0.5 then
        let local := (t - 0.25) / 0.25 in
        (0, 255, Math_floor (255 * (1 - local)))
      else if t <? 0.75 then
        let local := (t - 0.5) / 0.25 in
        (Math_floor (255 * local), 255, 0)
      else
        let local := (t - 0.75) / 0.25 in
        (255, Math_floor (255 * (1 - local)), 0)
    else
      (255, 0, 0) in
  [r; g; b; if strict_eq i 0 then 0 else 255].

(** The value the loop works with: the default of an omitted argument,
    then [if (pixelValues < 2) pixelValues = 64]. *)
Definition effective_pixelValues (arg : option number) : number :=
  let pixelValues := match arg with Some p => p | None => 64 end in
  if pixelValues <? 2 then 64 else pixelValues.

(** [buildMayaraLegend(pixelValues = 64)]; [None] is an omitted argument.
    The loop pushes one entry for each [i] from 0 to 255. *)
Definition buildMayaraLegend (arg : option number) : list rgba :=
  let pixelValues := effective_pixelValues arg in
  map (fun i : nat => legend_entry pixelValues (of_Z (Z.of_nat i)))
      (seq 0 256).

Definition transparent_black : rgba := [0; 0; 0; 0].
Definition saturated_red : rgba := [255; 0; 0; 255].

(** The overflow entries as the specification words them: every entry at
    an index at or above the input is saturated red. *)
Definition red_from_the_input : Prop :=
  forall (input : number) (i : nat),
    (i < 256)%nat -> (input <=? of_Z (Z.of_nat i)) = true ->
    nth_error (buildMayaraLegend (Some input)) i = Some saturated_red.

(** An entry whose green and blue channels are both NaN. *)
Definition green_and_blue_nan (entry : rgba) : Prop :=
  match entry with
  | [_; g; b; _] => is_nan g = true /\ is_nan b = true
  | _ => False
  end.

(* ================================================================== *)
(** ** JavaScript values and [typeof] *)
(* ================================================================== *)

#[local] Set Warnings "-register-all".
Inductive jsval :=
| JUndefined
| JNull
| JBoolean (b : bool)
| JNumber (n : number)
| JBigInt (z : Z)
| JString (s : string)
| JSymbol (description : string)
| JFunction (name : string)
| JObject (class_name : string)
| JArray (elements : list jsval).

(** The [typeof] operator. *)
Definition typeof (v : jsval) : string :=
  match v with
  | JUndefined => "undefined"
  | JNull => "object"
  | JBoolean _ => "boolean"
  | JNumber _ => "number"
  | JBigInt _ => "bigint"
  | JString _ => "string"
  | JSymbol _ => "symbol"
  | JFunction _ => "function"
  | JObject _ => "object"
  | JArray _ => "object"
  end.

(** Truthiness of a number. *)
Definition truthy_number (n : number) : bool :=
  negb (n =? 0) && negb (is_nan n).

(* ================================================================== *)
(** ** No-transmit zones ([extractNoTxZone], [extractStartOrEnd]) *)
(* ================================================================== *)

(** An element of the array [noTransmitAngles]: never assigned (reads as
    [undefined]), [null], or an object with the slots [0] (start) and [1]
    (end). *)
Inductive zone_entry :=
| Hole
| Null
| Angles (start_angle end_angle : option number).

Definition is_digit (c : ascii) : bool :=
  let n := nat_of_ascii c in (48 <=? n)%nat && (n <=? 57)%nat.

(** The digits a string starts with. *)
Fixpoint leading_digits (s : string) : string :=
  match s with
  | String c rest =>
      if is_digit c then String c (leading_digits rest) else EmptyString
  | EmptyString => EmptyString
  end.

(** The match of [/(\d+)/]: the first maximal run of decimal digits, if
    the name has a digit at all. *)
Fixpoint first_digit_run (s : string) : option string :=
  match s with
  | EmptyString => None
  | String c rest =>
      if is_digit c then Some (leading_digits s) else first_digit_run rest
  end.

(** [parseInt] on a string of decimal digits, as the exact integer (a
    JavaScript number holds it exactly up to 2^53). *)
Definition parseInt_digits (s : string) : N :=
  fold_left (fun acc c => (acc * 10 + (N_of_ascii c - 48))%N)
            (list_ascii_of_string s) 0%N.

Definition extractNoTxZone (name : string) : N :=
  match first_digit_run name with
  | Some digits => parseInt_digits digits
  | None => 0%N
  end.

(** [name.includes(needle)]. *)
Definition includes (name needle : string) : bool :=
  match index 0 needle name with Some _ => true | None => false end.

(** Slot 0 is the start angle, slot 1 the end angle. *)
Definition extractStartOrEnd (name : string) : nat :=
  if includes name "start" then 0%nat else 1%nat.

(** [array[idx] = x]: in range the element is replaced, out of range the
    array grows, the elements in between being holes. *)
Definition array_set (a : list zone_entry) (idx : nat) (x : zone_entry)
  : list zone_entry :=
  if decide (idx < length a)%nat then <[idx := x]> a
  else (a ++ replicate (idx - length a) Hole ++ [x])%list.

(** [array[idx]]; an index past the end and a hole both read as
    [undefined]. *)
Definition array_get (a : list zone_entry) (idx : nat) : zone_entry :=
  match a !! idx with Some e => e | None => Hole end.

(** Completion of a statement: it ends normally or throws. *)
Inductive completion :=
| Normal
| Throws (error : string).

(** [noTransmitAngles[idx][slot] = value]: the element is read first; a
    property of [undefined] or [null] cannot be set. *)
Definition set_zone_slot (a : list zone_entry) (idx slot : nat)
  (value : number) : list zone_entry * completion :=
  match array_get a idx with
  | Hole => (a, Throws "TypeError: Cannot set properties of undefined")
  | Null => (a, Throws "TypeError: Cannot set properties of null")
  | Angles s e =>
      (array_set a idx
         (if Nat.eqb slot 0 then Angles (Some value) e
          else Angles s (Some value)),
       Normal)
  end.

(* ================================================================== *)
(** ** Background overlay ([drawBackground]) *)
(* ================================================================== *)

(** Calls on the 2D context of the background canvas. *)
Inductive CanvasOp :=
| setTransform (a b c d e f : number)
| clearRect (x y w h : number)
| set_fillStyle (style : string)
| beginPath
| arc (x y radius startAngle endAngle : number)
| fill
| set_font (font : string)
| fillText (text : string) (x y : number).

Record RenderSurface := {
  width : number;
  height : number;
  center_x : number;
  center_y : number;
  beam_length : number;
  spokesPerRevolution : number
}.

Definition Math_PI : number := 0x1.921fb54442d18p+1.

Definition slot_number (o : option number) : number :=
  match o with Some n => n | None => nan end.

(** The callback of [noTransmitAngles.forEach]. *)
Definition draw_zone (obj : RenderSurface) (e : zone_entry) : list CanvasOp :=
  match e with
  | Angles (Some s) en =>
      if truthy_number s then
        [ beginPath;
          arc (center_x obj) (center_y obj) (beam_length obj * 2)
              (2 * Math_PI * s / spokesPerRevolution obj)
              (2 * Math_PI * slot_number en / spokesPerRevolution obj);
          fill ]
      else []
  | _ => []
  end.

Definition zone_value (e : zone_entry) : jsval :=
  match e with
  | Hole => JUndefined
  | Null => JNull
  | Angles s e =>
      JArray [match s with Some n => JNumber n | None => JUndefined end;
              match e with Some n => JNumber n | None => JUndefined end]
  end.

Definition drawBackground (noTransmitAngles : list zone_entry)
  (obj : RenderSurface) (txt : string) : list CanvasOp :=
  [ setTransform 1 0 0 1 0 0;
    clearRect 0 0 (width obj) (height obj);
    set_fillStyle "lightgrey" ] ++
  (if String.eqb (typeof (JArray (map zone_value noTransmitAngles))) "array"
   then flat_map (draw_zone obj) noTransmitAngles
   else []) ++
  [ set_fillStyle "lightblue";
    set_font "bold 16px/1 Verdana, Geneva, sans-serif";
    fillText txt 5 20 ].

(* ================================================================== *)
(** ** Readiness gate, spoke stream session and control updates *)
(* ================================================================== *)

Record Spoke := {
  angle : number;
  range : number;
  data : list Byte.byte
}.

Record RadarMessageValue := { spokes : list Spoke }.

(** Result of an expression that may throw. *)
Inductive outcome (A : Type) :=
| Returned (a : A)
| Thrown (error : string).
Arguments Returned {A} a.
Arguments Thrown {A} error.

(** The loaded protobuf type; [decode] throws on a malformed buffer. *)
Record Schema := { decode : list Byte.byte -> outcome RadarMessageValue }.

(** The radar object handed to [radarLoaded]; any field may be missing. *)
Record Radar := {
  id : string;
  maxSpokeLen : jsval;
  radar_spokesPerRevolution : jsval;
  pixelValues : option number;
  brand : jsval;
  streamUrl : option string;
  controls : option jsval
}.

(** Methods of the render surface the viewer calls. *)
Inductive RendererCall :=
| setLegend (legend : list rgba)
| setSpokes (spokesPerRevolution maxSpokeLen : jsval)
| setPixelValues (n : option number)
| setBrand (brand : jsval)
| setStandbyMode (isStandby : bool) (onTime txTime hasOnTime hasTxTime : jsval)
| setRange (meters : number)
| drawSpoke (spoke : Spoke)
| render.

Inductive ConsoleLevel := log | warn | error.

(** What the viewer does to its collaborators, in program order. *)
Inductive Event :=
| Renderer (call : RendererCall)
| setCurrentRange (meters : number)
| loadRadar (id : option string)
| restart (id : string)
| newWebSocket (url : string)
| console (level : ConsoleLevel) (message : string).

Record ControlValue := {
  cv_id : option string;
  cv_value : jsval;
  cv_enabled : bool
}.

(** Closure state of one call of [radarLoaded]: the variables its socket
    handlers capture. *)
Record Session := {
  radar : Radar;
  prev_angle : number;
  messageCount : number;
  lastLogTime : number
}.

(** What the viewer reads of the close event of a socket. *)
Record CloseEvent := {
  code : number;
  reason : string;
  wasClean : bool
}.

Section Viewer.

(** The render surface ([render_webgpu]) is an external collaborator: its
    state is abstract, observed through [ready] and [range] and changed by
    the calls made on it. *)
Variable Surface : Type.
Variable ready : Surface -> bool.
Variable surface_range : Surface -> option number.
Variable call : RendererCall -> Surface -> Surface.

(** The control plane ([control.js]) and the page. *)
Variable getPowerState : string.
Variable getOperatingHours : jsval * jsval.
Variable hasHoursCapability : jsval * jsval.
Variable location_protocol : string.
Variable location_host : string.
Variable parseFloat : jsval -> number.

(** Module-level variables of the viewer, with the trace of the calls made
    so far (oldest first). *)
Record State := {
  renderer : option Surface;
  RadarMessage : option Schema;
  noTransmitAngles : list zone_entry;
  pendingRadarData : option Radar;
  trace : list Event
}.

Definition emit (e : Event) (st : State) : State :=
  {| renderer := renderer st; RadarMessage := RadarMessage st;
     noTransmitAngles := noTransmitAngles st;
     pendingRadarData := pendingRadarData st;
     trace := (trace st ++ [e])%list |}.

Definition set_pending (p : option Radar) (st : State) : State :=
  {| renderer := renderer st; RadarMessage := RadarMessage st;
     noTransmitAngles := noTransmitAngles st;
     pendingRadarData := p;
     trace := trace st |}.

Definition set_zones (z : list zone_entry) (st : State) : State :=
  {| renderer := renderer st; RadarMessage := RadarMessage st;
     noTransmitAngles := z;
     pendingRadarData := pendingRadarData st;
     trace := trace st |}.

(** A method call on the render surface [s]: it acts on the surface and is
    recorded. *)
Definition on_surface (c : RendererCall) (s : Surface) (st : State) : State :=
  emit (Renderer c)
    {| renderer := Some (call c s); RadarMessage := RadarMessage st;
       noTransmitAngles := noTransmitAngles st;
       pendingRadarData := pendingRadarData st;
       trace := trace st |}.

Definition is_standby (power : string) : bool :=
  String.eqb power "standby" || String.eqb power "off".

(** The stream URL: the one provided, or the SignalK stream of the radar. *)
Definition resolve_streamUrl (r : Radar) : string :=
  let constructed :=
    (if String.eqb location_protocol "https:" then "wss:" else "ws:") ++
    "//" ++ location_host ++ "/signalk/v2/api/vessels/self/radars/" ++
    id r ++ "/stream" in
  match streamUrl r with
  | None => constructed
  | Some u =>
      if String.eqb u EmptyString || String.eqb u "undefined" || String.eqb u "null"
      then constructed else u
  end.

(** Method calls made one after the other on the render surface. *)
Fixpoint surface_calls (cs : list RendererCall) (s : Surface) (st : State)
  : State :=
  match cs with
  | [] => st
  | c :: rest => surface_calls rest (call c s) (on_surface c s st)
  end.

(** [radarLoaded(r)], called at the time [now], for a defined [r] (on
    [undefined] the first line, which reads [r.maxSpokeLen], throws).  The
    result carries the session whose socket was opened, if any. *)
Definition radarLoaded (now : number) (r : Radar) (st : State)
  : State * option Session :=
  match controls r with
  | None => (st, None)
  | Some _ =>
      match renderer st with
      | None => (set_pending (Some r) st, None)
      | Some s =>
          if negb (ready s) then (set_pending (Some r) st, None)
          else
            let st :=
              surface_calls
                ([ setLegend (buildMayaraLegend (pixelValues r));
                   setSpokes (radar_spokesPerRevolution r) (maxSpokeLen r);
                   setPixelValues (pixelValues r);
                   setBrand (brand r) ] ++
                 (* Check initial power state and set standby mode if needed *)
                 (if is_standby getPowerState then
                    [ setStandbyMode true
                        (fst getOperatingHours) (snd getOperatingHours)
                        (fst hasHoursCapability) (snd hasHoursCapability) ]
                  else [])) s st in
            let url := resolve_streamUrl r in
            let st := emit (console log ("Connecting to radar stream: " ++ url)) st in
            let st := emit (newWebSocket url) st in
            (st, Some {| radar := r; prev_angle := -1;
                         messageCount := 0; lastLogTime := now |})
      end
  end.

(** The tail of [window.onload], run once both the render surface and the
    protobuf definition are ready: drain the pending radar data. *)
Definition drain_pending (now : number) (id : option string) (st : State)
  : State * option Session :=
  match pendingRadarData st with
  | Some r =>
      let st := emit (console log "Processing deferred radar data") st in
      let '(st, session) := radarLoaded now r st in
      (set_pending None st, session)
  | None => (emit (loadRadar id) st, None)
  end.

(** [webSocket.onclose], on the close event [e]. *)
Definition onclose (e : CloseEvent) (sn : Session) (st : State) : State :=
  emit (restart (id (radar sn)))
       (emit (console log
                ("websocket close: code=" ++ to_string (code e) ++
                 ", reason=" ++ reason e ++
                 ", wasClean=" ++ (if wasClean e then "true" else "false")))
             st).

(** Dispatch of one spoke: body of the [for] loop of [onmessage]. *)
Definition dispatch_spoke (st : State) (s : Surface) (spoke : Spoke) : State :=
  let st := on_surface (drawSpoke spoke) s st in
  let s := call (drawSpoke spoke) s in
  let update :=
    (range spoke >? 0) &&
    match surface_range s with
    | Some current => negb (strict_eq (range spoke) current)
    | None => true
    end in
  let st :=
    if update then
      on_surface (setRange (range spoke)) s
        (emit (console log ("Range update from spoke: " ++
                            to_string (range spoke) ++ " m")) st)
    else st in
  if range spoke >? 0 then emit (setCurrentRange (range spoke)) st else st.

Definition set_prev_angle (a : number) (sn : Session) : Session :=
  {| radar := radar sn; prev_angle := a;
     messageCount := messageCount sn; lastLogTime := lastLogTime sn |}.

(** The loop over [message.spokes]; [renderer] is read afresh for every
    spoke, and a call on an undefined [renderer] throws. *)
Fixpoint dispatch_spokes (l : list Spoke) (sn : Session) (st : State)
  : Session * State * completion :=
  match l with
  | [] => (sn, st, Normal)
  | spoke :: rest =>
      match renderer st with
      | None => (sn, st, Throws "TypeError: renderer is undefined")
      | Some s =>
          dispatch_spokes rest (set_prev_angle (angle spoke) sn)
                          (dispatch_spoke st s spoke)
      end
  end.

(** The message counter kept for the statistics line logged every 5 s. *)
Definition count_message (now : number) (sn : Session) (st : State)
  : Session * State :=
  let count := messageCount sn + 1 in
  if now - lastLogTime sn >? 5000 then
    ({| radar := radar sn; prev_angle := prev_angle sn;
        messageCount := 0; lastLogTime := now |},
     emit (console log ("WebSocket: received " ++ to_string count ++
                        " messages in last 5s")) st)
  else
    ({| radar := radar sn; prev_angle := prev_angle sn;
        messageCount := count; lastLogTime := lastLogTime sn |}, st).

(** The [try] block of [webSocket.onmessage] on a binary frame: the state
    reached and whether the block returned or threw. *)
Definition onmessage_try (now : number) (frame : list Byte.byte)
  (sn : Session) (st : State) : Session * State * completion :=
  let '(sn, st) := count_message now sn st in
  if Nat.eqb (length frame) 0 then
    (sn, emit (console warn "WS message received with 0 bytes") st, Normal)
  else
    match RadarMessage st with
    | None =>
        (sn, emit (console warn "RadarMessage not loaded yet, dropping message") st,
         Normal)
    | Some schema =>
        match decode schema frame with
        | Thrown err => (sn, st, Throws err)
        | Returned message =>
            match spokes message with
            | [] => (sn, st, Normal)
            | _ :: _ =>
                match dispatch_spokes (spokes message) sn st with
                | (sn, st, Throws err) => (sn, st, Throws err)
                | (sn, st, Normal) =>
                    match renderer st with
                    | None => (sn, st, Throws "TypeError: renderer is undefined")
                    | Some s => (sn, on_surface render s st, Normal)
                    end
                end
            end
        end
    end.

(** [webSocket.onmessage]: the [catch] clause logs what the [try] block
    threw; the handler itself always returns. *)
Definition onmessage (now : number) (frame : list Byte.byte)
  (sn : Session) (st : State) : Session * State :=
  match onmessage_try now frame sn st with
  | (sn, st, Normal) => (sn, st)
  | (sn, st, Throws err) =>
      (sn, emit (console error ("Error processing WebSocket message: " ++ err)) st)
  end.

(** Frames delivered one after the other to the same socket. *)
Fixpoint onmessages (frames : list (number * list Byte.byte))
  (sn : Session) (st : State) : Session * State :=
  match frames with
  | [] => (sn, st)
  | (now, frame) :: rest =>
      let '(sn, st) := onmessage now frame sn st in
      onmessages rest sn st
  end.

(** [controlUpdate(control, controlValue)]; [name] is [control.name]. *)
Definition controlUpdate (name : option string) (cv : ControlValue)
  (st : State) : State * completion :=
  let st :=
    match name, renderer st with
    | Some n, Some s =>
        if String.eqb n "Range"
        then on_surface (setRange (parseFloat (cv_value cv))) s st
        else st
    | _, _ => st
    end in
  let '(st, c) :=
    match name with
    | Some n =>
        if String.prefix "No Transmit" n then
          let value := parseFloat (cv_value cv) in
          let idx := N.to_nat (extractNoTxZone n) in
          let start_or_end := extractStartOrEnd n in
          if cv_enabled cv then
            let '(zones, c) :=
              set_zone_slot (noTransmitAngles st) idx start_or_end value in
            (set_zones zones st, c)
          else
            (set_zones (array_set (noTransmitAngles st) idx Null) st, Normal)
        else (st, Normal)
    | None => (st, Normal)
    end in
  match c with
  | Throws _ => (st, c)
  | Normal =>
      match cv_id cv, renderer st with
      | Some i, Some s =>
          if String.eqb i "power" then
            let standby :=
              match cv_value cv with
              | JString v => is_standby v
              | _ => false
              end in
            (on_surface (setStandbyMode standby
                           (fst getOperatingHours) (snd getOperatingHours)
                           (fst hasHoursCapability) (snd hasHoursCapability))
                        s st, Normal)
          else (st, Normal)
      | _, _ => (st, Normal)
      end
  end.

(** *** The dispatch of a frame as the specification words it *)

(** "[spoke.range > 0] and [spoke.range] differs from the renderer's
    currently configured range". *)
Definition range_differs (s : Surface) (spoke : Spoke) : bool :=
  match surface_range s with
  | Some current => negb (range spoke =? current)
  | None => true
  end.

Definition needs_setRange (s : Surface) (spoke : Spoke) : bool :=
  (range spoke >? 0) && range_differs s spoke.

(** The calls made for the spokes of one frame, the render surface being
    [s] when the first spoke is drawn. *)
Fixpoint frame_calls (s : Surface) (l : list Spoke) : list Event :=
  match l with
  | [] => []
  | spoke :: rest =>
      let drawn := call (drawSpoke spoke) s in
      if needs_setRange drawn spoke then
        Renderer (drawSpoke spoke)
        :: console log ("Range update from spoke: " ++
                        to_string (range spoke) ++ " m")
        :: Renderer (setRange (range spoke))
        :: setCurrentRange (range spoke)
        :: frame_calls (call (setRange (range spoke)) drawn) rest
      else if range spoke >? 0 then
        Renderer (drawSpoke spoke)
        :: setCurrentRange (range spoke)
        :: frame_calls drawn rest
      else
        Renderer (drawSpoke spoke) :: frame_calls drawn rest
  end.

(** The ranges [setRange] is to be called with, in order. *)
Fixpoint range_updates (s : Surface) (l : list Spoke) : list number :=
  match l with
  | [] => []
  | spoke :: rest =>
      let drawn := call (drawSpoke spoke) s in
      if needs_setRange drawn spoke
      then range spoke :: range_updates (call (setRange (range spoke)) drawn) rest
      else range_updates drawn rest
  end.

(** The render surface once the spokes [l] of a frame were dispatched. *)
Fixpoint surface_after (s : Surface) (l : list Spoke) : Surface :=
  match l with
  | [] => s
  | spoke :: rest =>
      let drawn := call (drawSpoke spoke) s in
      surface_after (if needs_setRange drawn spoke
                     then call (setRange (range spoke)) drawn
                     else drawn) rest
  end.

(** The calls that configure the render surface for the radar [r] and open
    its stream. *)
Definition session_setup (r : Radar) : list Event :=
  [ Renderer (setLegend (buildMayaraLegend (pixelValues r)));
    Renderer (setSpokes (radar_spokesPerRevolution r) (maxSpokeLen r));
    Renderer (setPixelValues (pixelValues r));
    Renderer (setBrand (brand r)) ] ++
  (if is_standby getPowerState then
     [ Renderer (setStandbyMode true
                   (fst getOperatingHours) (snd getOperatingHours)
                   (fst hasHoursCapability) (snd hasHoursCapability)) ]
   else []) ++
  [ console log ("Connecting to radar stream: " ++ resolve_streamUrl r);
    newWebSocket (resolve_streamUrl r) ].

(** Projections of a trace. *)
Definition drawn_spokes (t : list Event) : list Spoke :=
  flat_map (fun e => match e with
                     | Renderer (drawSpoke spoke) => [spoke]
                     | _ => []
                     end) t.

Definition ranges_set (t : list Event) : list number :=
  flat_map (fun e => match e with
                     | Renderer (setRange m) => [m]
                     | _ => []
                     end) t.

Definition ranges_notified (t : list Event) : list number :=
  flat_map (fun e => match e with
                     | setCurrentRange m => [m]
                     | _ => []
                     end) t.

Definition render_count (t : list Event) : nat :=
  length (List.filter (fun e => match e with
                           | Renderer render => true
                           | _ => false
                           end) t).

(** Events that tear the session down or acquire a new one. *)
Definition ends_session (e : Event) : bool :=
  match e with
  | restart _ | loadRadar _ | newWebSocket _ => true
  | _ => false
  end.

(** The statistics line [count_message] may log. *)
Definition stats_line (now : number) (sn : Session) : list Event :=
  if now - lastLogTime sn >? 5000 then
    [console log ("WebSocket: received " ++ to_string (messageCount sn + 1) ++
                  " messages in last 5s")]
  else [].

(** The render surface has finished its initialisation ([initPromise]
    resolved): [renderer] now refers to the surface [s]. *)
Definition surface_initialised (s : Surface) (st : State) : State :=
  {| renderer := Some s; RadarMessage := RadarMessage st;
     noTransmitAngles := noTransmitAngles st;
     pendingRadarData := pendingRadarData st;
     trace := trace st |}.

(** Two states that differ in the trace only. *)
Definition same_variables (a b : State) : Prop :=
  renderer a = renderer b /\ RadarMessage a = RadarMessage b /\
  noTransmitAngles a = noTransmitAngles b /\
  pendingRadarData a = pendingRadarData b.

(** The protobuf definition has been loaded: [RadarMessage] is set. *)
Definition schema_loaded (schema : Schema) (st : State) : State :=
  {| renderer := renderer st; RadarMessage := Some schema;
     noTransmitAngles := noTransmitAngles st;
     pendingRadarData := pendingRadarData st;
     trace := trace st |}.

(** Is the render surface unavailable to [radarLoaded]? *)
Definition not_ready (st : State) : bool :=
  match renderer st with
  | None => true
  | Some s => negb (ready s)
  end.

(** The zone array holds no object: every element is a hole or [null]. *)
Definition no_zone_object (zones : list zone_entry) : Prop :=
  Forall (fun e => e = Hole \/ e = Null) zones.

(** *** Reachable states *)

(** The module-level variables as the module body leaves them:
    [renderer] and [RadarMessage] undefined, [noTransmitAngles = Array()],
    [pendingRadarData = null]. *)
Definition initial : State :=
  {| renderer := None; RadarMessage := None;
     noTransmitAngles := []; pendingRadarData := None; trace := [] |}.

(** One step of the page: a callback of the viewer runs, or one of the two
    asynchronous initialisations completes. *)
Inductive handler_step : State -> State -> Prop :=
| step_radarLoaded now r st :
    handler_step st (fst (radarLoaded now r st))
| step_drain_pending now id st :
    handler_step st (fst (drain_pending now id st))
| step_onmessage now frame sn st :
    handler_step st (snd (onmessage now frame sn st))
| step_onclose e sn st :
    handler_step st (onclose e sn st)
| step_controlUpdate name cv st :
    handler_step st (fst (controlUpdate name cv st))
| step_surface_initialised s st :
    handler_step st (surface_initialised s st)
| step_schema_loaded schema st :
    handler_step st (schema_loaded schema st).

Inductive reachable : State -> Prop :=
| reachable_initial : reachable initial
| reachable_step st st' :
    reachable st -> handler_step st st' -> reachable st'.

End Viewer.

Arguments State Surface : clear implicits.
Arguments renderer {Surface} _.
Arguments RadarMessage {Surface} _.
Arguments noTransmitAngles {Surface} _.
Arguments pendingRadarData {Surface} _.
Arguments trace {Surface} _.
Arguments emit {Surface} e st.
Arguments set_pending {Surface} p st.
Arguments set_zones {Surface} z st.
Arguments on_surface {Surface} call c s st.
Arguments surface_calls {Surface} call cs s st.
Arguments radarLoaded {Surface} ready call getPowerState getOperatingHours
  hasHoursCapability location_protocol location_host now r st.
Arguments drain_pending {Surface} ready call getPowerState getOperatingHours
  hasHoursCapability location_protocol location_host now id st.
Arguments onclose {Surface} e sn st.
Arguments dispatch_spoke {Surface} surface_range call st s spoke.
Arguments dispatch_spokes {Surface} surface_range call l sn st.
Arguments count_message {Surface} now sn st.
Arguments onmessage_try {Surface} surface_range call now frame sn st.
Arguments onmessage {Surface} surface_range call now frame sn st.
Arguments onmessages {Surface} surface_range call frames sn st.
Arguments controlUpdate {Surface} call getOperatingHours hasHoursCapability
  parseFloat name cv st.
Arguments range_differs {Surface} surface_range s spoke.
Arguments needs_setRange {Surface} surface_range s spoke.
Arguments frame_calls {Surface} surface_range call s l.
Arguments range_updates {Surface} surface_range call s l.
Arguments surface_initialised {Surface} s st.
Arguments surface_after {Surface} surface_range call s l.
Arguments not_ready {Surface} ready st.
Arguments schema_loaded {Surface} schema st.
Arguments same_variables {Surface} a b.
Arguments initial {Surface}.
Arguments handler_step {Surface} ready surface_range call getPowerState
  getOperatingHours hasHoursCapability location_protocol location_host
  parseFloat _ _.
Arguments reachable {Surface} ready surface_range call getPowerState
  getOperatingHours hasHoursCapability location_protocol location_host
  parseFloat _.

(* ================================================================== *)
(** ** A concrete render surface and sample data *)
(* ================================================================== *)

(** A render surface that only keeps its readiness flag and the range it
    was last configured with; the viewer is run against it on examples. *)
Record RangeSurface := {
  rs_ready : bool;
  rs_range : option number
}.

Definition rs_call (c : RendererCall) (s : RangeSurface) : RangeSurface :=
  match c with
  | setRange m => {| rs_ready := rs_ready s; rs_range := Some m |}
  | _ => s
  end.

Definition rs_initialised : RangeSurface :=
  {| rs_ready := true; rs_range := None |}.

Definition sample_radar (name : string) (c : option jsval) : Radar :=
  {| id := name; maxSpokeLen := JNumber 1024;
     radar_spokesPerRevolution := JNumber 2048;
     pixelValues := Some 16; brand := JString "Navico";
     streamUrl := None; controls := c |}.

Definition sample_spoke (a r : number) : Spoke :=
  {| angle := a; range := r; data := [] |}.

(** A schema that decodes the frame [[x01]] to three spokes and rejects
    every other buffer. *)
Definition sample_schema : Schema :=
  {| decode := fun frame =>
       match frame with
       | [Byte.x01] =>
           Returned {| spokes := [ sample_spoke 0 1852;
                                   sample_spoke 1 1852;
                                   sample_spoke 2 0 ] |}
       | _ => Thrown "Error: invalid wire type"
       end |}.

Definition sample_session : Session :=
  {| radar := sample_radar "r1" (Some (JObject "Object"));
     prev_angle := -1; messageCount := 0; lastLogTime := 0 |}.

Definition sample_state (schema : option Schema) : State RangeSurface :=
  {| renderer := Some rs_initialised; RadarMessage := schema;
     noTransmitAngles := []; pendingRadarData := None; trace := [] |}.

(** The state before [window.onload] has created the renderer. *)
Definition initial_state : State RangeSurface := initial.

(** The viewer run against [RangeSurface], the radar transmitting, the
    page served over http from [localhost]. *)
Definition sample_radarLoaded :=
  radarLoaded rs_ready rs_call "transmit" (JNumber 0, JNumber 0)
              (JBoolean false, JBoolean false) "http:" "localhost".

Definition sample_drain_pending :=
  drain_pending rs_ready rs_call "transmit" (JNumber 0, JNumber 0)
                (JBoolean false, JBoolean false) "http:" "localhost".

Definition sample_onmessage := onmessage rs_range rs_call.

(** C2 as stated, for the buffer alone: of two radar descriptors that
    arrive before the render surface is ready, the second is the one
    buffered. *)
Definition second_descriptor_buffered : Prop :=
  forall (st : State RangeSurface) (now1 now2 : number) (r1 r2 : Radar),
    not_ready rs_ready st = true ->
    pendingRadarData
      (fst (sample_radarLoaded now2 r2 (fst (sample_radarLoaded now1 r1 st))))
    = Some r2.

(* ================================================================== *)
(** ** The stream socket over time *)
(* ================================================================== *)

(** The spokes a frame contributes under a schema: none for an empty
    frame or one that does not decode. *)
Definition frame_spokes (schema : Schema) (frame : list Byte.byte)
  : list Spoke :=
  match frame with
  | [] => []
  | _ :: _ =>
      match decode schema frame with
      | Returned decoded => spokes decoded
      | Thrown _ => []
      end
  end.

(** What the stream socket delivers to its handlers. *)
Inductive SocketEvent :=
| socket_message (now : number) (frame : list Byte.byte)
| socket_close (e : CloseEvent).

Definition is_close (e : SocketEvent) : bool :=
  match e with socket_close _ => true | socket_message _ _ => false end.

(** The radar ids [restart] was called with, in order. *)
Definition restarts (t : list Event) : list string :=
  flat_map (fun e => match e with restart i => [i] | _ => [] end) t.

(** The stream URLs sockets were opened to, in order. *)
Definition sockets_opened (t : list Event) : list string :=
  flat_map (fun e => match e with newWebSocket u => [u] | _ => [] end) t.

(** The calls made on the render surface, in order. *)
Definition renderer_calls (t : list Event) : list RendererCall :=
  flat_map (fun e => match e with Renderer c => [c] | _ => [] end) t.

(** The positive ranges among the spokes of a frame, in order. *)
Definition positive_ranges (l : list Spoke) : list number :=
  List.filter (fun m => m >? 0) (map range l).

(** Every range of the list differs from the one before it, and the
    first one from [current], if there is one. *)
Fixpoint each_differs (current : option number) (l : list number) : Prop :=
  match l with
  | [] => True
  | m :: rest =>
      match current with
      | Some c => (m =? c) = false
      | None => True
      end /\ each_differs (Some m) rest
  end.

(** A spoke that leaves the range [current] alone: it carries that range
    or no positive range. *)
Definition keeps_range (current : number) (spoke : Spoke) : Prop :=
  range spoke = current \/ (range spoke >? 0) = false.

(** The range of the last spoke that carries a positive one, or
    [current] when there is none. *)
Definition final_range (current : option number) (l : list Spoke)
  : option number :=
  fold_left (fun cur spoke =>
               if range spoke >? 0 then Some (range spoke) else cur)
            l current.

(** One of the two calls [controlUpdate] makes on the render surface. *)
Definition range_or_standby (e : Event) : Prop :=
  match e with
  | Renderer (setRange _) | Renderer (setStandbyMode _ _ _ _ _) => True
  | _ => False
  end.

(** What a handler may add to the trace on the way from [st] to [st']:
    once defined, [renderer] and [RadarMessage] stay defined; while
    [renderer] is undefined no call is made on it and no socket is
    opened; while [RadarMessage] is undefined no spoke is drawn. *)
Definition grows_safely {Surface : Type} (st st' : State Surface) : Prop :=
  exists added,
    trace st' = (trace st ++ added)%list /\
    (renderer st' = None ->
     renderer st = None /\ renderer_calls added = [] /\
     sockets_opened added = []) /\
    (RadarMessage st' = None ->
     RadarMessage st = None /\ drawn_spokes added = []).

Section SocketRun.

Context {Surface : Type}.
Variable surface_range : Surface -> option number.
Variable call : RendererCall -> Surface -> Surface.

(** The handlers of one socket run on the events it delivers. *)
Fixpoint socket_run (events : list SocketEvent) (sn : Session)
  (st : State Surface) : Session * State Surface :=
  match events with
  | [] => (sn, st)
  | socket_message now frame :: rest =>
      let '(sn, st) := onmessage surface_range call now frame sn st in
      socket_run rest sn st
  | socket_close e :: rest => socket_run rest sn (onclose e sn st)
  end.

(** The render surface once a frame with the spokes [l] was handled: the
    spokes are dispatched and, if there are any, [render] is called. *)
Definition frame_surface (s : Surface) (l : list Spoke) : Surface :=
  match l with
  | [] => s
  | _ :: _ => call render (surface_after surface_range call s l)
  end.

End SocketRun.

(** [parseFloat] on the values of the examples: a number is printed and
    read back as itself; [undefined], [null] and the booleans print as
    words and read as NaN. *)
Definition sample_parseFloat (v : jsval) : number :=
  match v with
  | JNumber n => n
  | _ => nan
  end.

Definition sample_controlUpdate :=
  controlUpdate rs_call (JNumber 0, JNumber 0) (JBoolean false, JBoolean false)
                sample_parseFloat.

Definition sample_reachable :=
  reachable rs_ready rs_range rs_call "transmit" (JNumber 0, JNumber 0)
            (JBoolean false, JBoolean false) "http:" "localhost"
            sample_parseFloat.

(* ================================================================== *)
(** ** The page from load to stream *)
(* ================================================================== *)

Section PageRun.

Context {Surface : Type}.
Variable ready : Surface -> bool.
Variable call : RendererCall -> Surface -> Surface.
Variable getPowerState : string.
Variables getOperatingHours hasHoursCapability : jsval * jsval.
Variables location_protocol location_host : string.

(** The descriptors [control.js] hands to [radarLoaded], one after the
    other, each with the time of its call. *)
Definition deliver (descriptors : list (number * Radar))
  (st : State Surface) : State Surface :=
  fold_left
    (fun st d =>
       fst (radarLoaded ready call getPowerState getOperatingHours
              hasHoursCapability location_protocol location_host
              (fst d) (snd d) st))
    descriptors st.

(** A run of the page: the descriptors [early] arrive; the render
    surface, now [s], completes its initialisation; the continuation of
    [window.onload] drains the buffer, once, as the [load] event fires
    once and the code after the [await] is straight-line; the
    descriptors [late] arrive. *)
Definition page_run (early : list (number * Radar)) (s : Surface)
  (now : number) (id : option string) (late : list (number * Radar))
  (st : State Surface) : State Surface :=
  deliver late
    (fst (drain_pending ready call getPowerState getOperatingHours
            hasHoursCapability location_protocol location_host now id
            (surface_initialised s (deliver early st)))).

End PageRun.

(** The drains a trace records: a drain logs that it processes the
    deferred descriptor, or asks [loadRadar] for the radar of the page. *)
Definition is_drain (e : Event) : bool :=
  match e with
  | console log message => String.eqb message "Processing deferred radar data"
  | loadRadar _ => true
  | _ => false
  end.

Definition drains (t : list Event) : nat := length (List.filter is_drain t).

Definition sample_page_run :=
  page_run rs_ready rs_call "transmit" (JNumber 0, JNumber 0)
           (JBoolean false, JBoolean false) "http:" "localhost".

(* ================================================================== *)
(** ** The legend over every pixel-value count of a byte *)
(* ================================================================== *)

(** *** Twins that compute fast *)

(** [Math_floor] on the non-negative numbers with a fractional part,
    with a shift in place of the division and the primitive conversion
    in place of the rounding one. *)
Definition fast_floor (x : number) : number :=
  match Prim2SF x with
  | S754_finite false m (Zneg p) =>
      let r := Z.shiftr (Zpos m) (Zpos p) in
      if (r =? 0)%Z then zero
      else if (r <? 2 ^ 62)%Z then of_uint63 (Uint63.of_Z r)
      else Math_floor x
  | _ => Math_floor x
  end.

(** [legend_entry] over [fast_floor]. *)
Definition fast_legend_entry (pixelValues i : number) : rgba :=
  let '(r, g, b) :=
    if strict_eq i 0 then
      (0, 0, 0)
    else if i <? pixelValues then
      let t := (i - 1) / (pixelValues - 2) in
      if t <? 0.25 then
        let local := t / 0.25 in
        (0, fast_floor (85 + 170 * local), 255)
      else if t <? 0.5 then
        let local := (t - 0.25) / 0.25 in
        (0, 255, fast_floor (255 * (1 - local)))
      else if t <? 0.75 then
        let local := (t - 0.5) / 0.25 in
        (fast_floor (255 * local), 255, 0)
      else
        let local := (t - 0.75) / 0.25 in
        (255, fast_floor (255 * (1 - local)), 0)
    else
      (255, 0, 0) in
  [r; g; b; if strict_eq i 0 then 0 else 255].

(** The numbers 0 .. 256, converted once. *)
Definition index_numbers : list number :=
  Eval vm_compute in map (fun i : nat => of_Z (Z.of_nat i)) (seq 0 257).

Definition fast_legend (pixelValues : nat) : list rgba :=
  map (fast_legend_entry (nth pixelValues index_numbers nan))
      (firstn 256 index_numbers).

(** *** What is checked of a legend *)

(** Is the number one of the integers 0 .. 255?  The candidate is read
    off the mantissa and converted back. *)
Definition is_byte (x : number) : bool :=
  let '(m, e) := frshiftexp x in
  let n := PrimInt63.lsr (normfr_mantissa m)
                         (PrimInt63.sub (Uint63.of_Z (FloatOps.shift + 53)) e) in
  PrimInt63.leb n (Uint63.of_Z 255) && Leibniz.eqb (of_uint63 n) x.

(** A colour a canvas accepts: three bytes, and the alpha of the index. *)
Definition colour_ok (i : nat) (entry : rgba) : bool :=
  match entry with
  | [r; g; b; a] =>
      is_byte r && is_byte g && is_byte b &&
      Leibniz.eqb a (match i with O => 0 | S _ => 255 end)
  | _ => false
  end.

Definition channel (k : nat) (entry : rgba) : number := nth k entry nan.

(** Along neighbouring entries red does not decrease and blue does not
    increase. *)
Fixpoint warms_up (entries : list rgba) : bool :=
  match entries with
  | a :: (b :: _) as rest =>
      (channel 0 a <=? channel 0 b) && (channel 2 b <=? channel 2 a) &&
      warms_up rest
  | _ => true
  end.

Definition entry_eqb (a b : rgba) : bool :=
  (length a =? length b)%nat &&
  forallb (fun p => Leibniz.eqb (fst p) (snd p)) (combine a b).

(** The legend of [pixelValues] values: the count is not replaced by 64;
    every entry is a colour; the gradient starts at [[0, 85, 255, 255]],
    ends in saturated red at index [pixelValues - 1], and warms up in
    between. *)
Definition legend_surveyed (pixelValues : nat) : bool :=
  let legend := fast_legend pixelValues in
  negb (nth pixelValues index_numbers nan <? 2) &&
  forallb (fun p => colour_ok (fst p) (snd p)) (combine (seq 0 256) legend) &&
  entry_eqb (nth 1 legend []) [0; 85; 255; 255] &&
  entry_eqb (nth (pixelValues - 1) legend []) saturated_red &&
  warms_up (firstn (pixelValues - 1) (skipn 1 legend)).

(* ================================================================== *)
(** ** Colour strings ([hexToRGBA]) *)
(* ================================================================== *)

(** Strings are sequences of code units below 256. *)

(** White space and line terminators, as [parseInt] strips them. *)
Definition is_white_space (c : ascii) : bool :=
  let n := N_of_ascii c in
  ((9 <=? n) && (n <=? 13) || (n =? 32) || (n =? 160))%N.

Fixpoint skip_white_space (s : string) : string :=
  match s with
  | String c rest => if is_white_space c then skip_white_space rest else s
  | EmptyString => EmptyString
  end.

(** The value of a digit or letter as a digit of a radix up to 36. *)
Definition digit_value (c : ascii) : option N :=
  let n := N_of_ascii c in
  if ((48 <=? n) && (n <=? 57))%N then Some (n - 48)%N
  else if ((97 <=? n) && (n <=? 122))%N then Some (n - 87)%N
  else if ((65 <=? n) && (n <=? 90))%N then Some (n - 55)%N
  else None.

(** The value of the longest prefix of digits of the radix, given the
    value [acc] of the digits read so far, if any. *)
Fixpoint radix_digits (radix : N) (s : string) (acc : option N) : option N :=
  match s with
  | String c rest =>
      match digit_value c with
      | Some d =>
          if (d <? radix)%N
          then radix_digits radix rest
                 (Some (match acc with Some a => a | None => 0 end * radix + d)%N)
          else acc
      | None => acc
      end
  | EmptyString => acc
  end.

(** [parseInt(input, 16)]. *)
Definition parseInt_16 (input : string) : number :=
  let s := skip_white_space input in
  let '(negative, s) :=
    match s with
    | String "-" rest => (true, rest)
    | String "+" rest => (false, rest)
    | _ => (false, s)
    end in
  let s :=
    match s with
    | String "0" (String "x" rest) | String "0" (String "X" rest) => rest
    | _ => s
    end in
  match radix_digits 16 s None with
  | None => nan
  | Some n =>
      let v := if (n =? 0)%N then zero else of_Z (Z.of_N n) in
      if negative then - v else v
  end.

(** The [for] loop: [hex.slice(i, i + 2)] for [i = 1, 3, 5, ...] below
    [hex.length]; [todo] bounds the number of iterations. *)
Fixpoint slices (hex : string) (i : nat) (todo : nat) : list string :=
  match todo with
  | O => []
  | S todo' =>
      if (i <? String.length hex)%nat
      then substring i 2 hex :: slices hex (i + 2) todo'
      else []
  end.

(** The two [while] loops pad to three components with 0 and to four
    with 255. *)
Definition pad_colour (a : list number) : list number :=
  let a := (a ++ repeat 0 (3 - length a))%list in
  (a ++ repeat 255 (4 - length a))%list.

Definition hexToRGBA (hex : string) : list number :=
  pad_colour (map parseInt_16 (slices hex 1 (String.length hex))).

(** *** Writing a colour *)

Definition hex_digit (upper : bool) (d : N) : ascii :=
  ascii_of_N (if (d <? 10)%N then 48 + d
              else if upper then 55 + d else 87 + d).

(** The two hexadecimal digits of a byte. *)
Definition hex_pair (upper : bool) (n : N) : string :=
  String (hex_digit upper (n / 16)) (String (hex_digit upper (n mod 16)) EmptyString).

Definition bytes : list N := map N.of_nat (seq 0 256).

(* ================================================================== *)
(** ** Heading: SignalK subscription and display mode *)
(* ================================================================== *)

(** A value as [JSON.parse] returns it.  The members of an object are
    listed in the order of the text; of two members with the same key the
    later one is the property. *)
Inductive json :=
| json_null
| json_boolean (b : bool)
| json_number (n : number)
| json_string (s : string)
| json_array (elements : list json)
| json_object (members : list (string * json)).

(** What reading a property gives: nothing, a value of the message, or a
    method inherited from a prototype. *)
Inductive property :=
| Undefined
| Value (v : json)
| Method.

(** The four property names the heading handler reads. *)
Inductive member := updates | values | path | value.

Definition member_name (m : member) : string :=
  match m with
  | updates => "updates"
  | values => "values"
  | path => "path"
  | value => "value"
  end.

Fixpoint own_property (members : list (string * json)) (name : string)
  : property :=
  match members with
  | [] => Undefined
  | (key, v) :: rest =>
      match own_property rest name with
      | Undefined => if String.eqb key name then Value v else Undefined
      | found => found
      end
  end.

(** [x.m] for [m] one of the four names: reading a property of [null]
    throws; of the four, only [values] is inherited, by arrays, from
    [Array.prototype]; numbers, booleans and strings have none of them. *)
Definition get (x : json) (m : member) : outcome property :=
  match x with
  | json_null => Thrown "TypeError: Cannot read properties of null"
  | json_object members => Returned (own_property members (member_name m))
  | json_array _ =>
      Returned (match m with values => Method | _ => Undefined end)
  | _ => Returned Undefined
  end.

(** [if (p)]. *)
Definition truthy (p : property) : bool :=
  match p with
  | Undefined => false
  | Method => true
  | Value json_null => false
  | Value (json_boolean b) => b
  | Value (json_number n) => negb (n =? 0) && negb (is_nan n)
  | Value (json_string s) => negb (String.eqb s EmptyString)
  | Value (json_array _) | Value (json_object _) => true
  end.

(** What [for (const x of p)] iterates over: the elements of an array,
    the characters of a string; everything else is not iterable. *)
Definition iterate (p : property) : outcome (list json) :=
  match p with
  | Value (json_array elements) => Returned elements
  | Value (json_string s) =>
      Returned (map (fun c => json_string (String c EmptyString))
                    (list_ascii_of_string s))
  | _ => Thrown "TypeError: object is not iterable"
  end.

(** A [for ... of] loop whose body may throw. *)
Fixpoint for_of {S : Type} (body : S -> json -> S * completion)
  (items : list json) (st : S) : S * completion :=
  match items with
  | [] => (st, Normal)
  | x :: rest =>
      match body st x with
      | (st, Normal) => for_of body rest st
      | (st, Throws err) => (st, Throws err)
      end
  end.

(** What the heading code does to the outside. *)
Inductive HeadingEvent :=
| setHeadingRotation (radians : number)
| redrawCanvas
| newHeadingSocket (url : string)
| send_subscription (context subscribed_path : string) (period : number)
| setTimeout_subscribeToHeading (delay : number)
| heading_log (message : string).

(** The module-level variables [headingMode] and [trueHeading], whether
    [renderer] is defined, the text of the toggle button if it was
    created, and the trace of the events so far. *)
Record Heading := {
  headingMode : string;
  trueHeading : property;
  heading_renderer : bool;
  toggle_innerHTML : option string;
  heading_trace : list HeadingEvent
}.

Definition heading_emit (e : HeadingEvent) (st : Heading) : Heading :=
  {| headingMode := headingMode st; trueHeading := trueHeading st;
     heading_renderer := heading_renderer st;
     toggle_innerHTML := toggle_innerHTML st;
     heading_trace := (heading_trace st ++ [e])%list |}.

Definition set_trueHeading (h : property) (st : Heading) : Heading :=
  {| headingMode := headingMode st; trueHeading := h;
     heading_renderer := heading_renderer st;
     toggle_innerHTML := toggle_innerHTML st;
     heading_trace := heading_trace st |}.

Definition set_headingMode (mode label : string) (st : Heading) : Heading :=
  {| headingMode := mode; trueHeading := trueHeading st;
     heading_renderer := heading_renderer st;
     toggle_innerHTML := Some label;
     heading_trace := heading_trace st |}.

(** The variables as the module body leaves them, with the renderer
    there. *)
Definition heading_initial : Heading :=
  {| headingMode := "headingUp"; trueHeading := Value (json_number 0);
     heading_renderer := true; toggle_innerHTML := None;
     heading_trace := [] |}.

Section Heading.

(** Conversions of the runtime: of a string and of an array or object to
    a number, and [JSON.parse] on the data of a message event. *)
Variable StringToNumber : string -> number.
Variable ObjectToNumber : json -> number.
Variable MessageData : Type.
Variable JSON_parse : MessageData -> outcome json.
Variable isStandaloneMode : bool.
Variables location_protocol location_host : string.

(** [ToNumber], as the unary minus applies it. *)
Definition ToNumber (p : property) : number :=
  match p with
  | Undefined | Method => nan
  | Value json_null => 0
  | Value (json_boolean b) => if b then 1 else 0
  | Value (json_number n) => n
  | Value (json_string s) => StringToNumber s
  | Value v => ObjectToNumber v
  end.

(** The rotation [updateHeadingDisplay] passes to the renderer. *)
Definition heading_rotation (mode : string) (heading : property) : number :=
  if String.eqb mode "northUp" then - ToNumber heading else 0.

Definition updateHeadingDisplay (st : Heading) : Heading :=
  if heading_renderer st then
    heading_emit
      (setHeadingRotation (heading_rotation (headingMode st) (trueHeading st)))
      st
  else st.

Definition getHeadingMode (st : Heading) : string := headingMode st.
Definition getTrueHeading (st : Heading) : property := trueHeading st.

(** [createHeadingModeToggle], [container] telling whether the page has a
    [.myr_ppi] element. *)
Definition createHeadingModeToggle (container : bool) (st : Heading)
  : Heading :=
  if container then
    {| headingMode := headingMode st; trueHeading := trueHeading st;
       heading_renderer := heading_renderer st;
       toggle_innerHTML := Some "H Up";
       heading_trace := heading_trace st |}
  else st.

(** The click listener of the toggle button. *)
Definition toggle_click (st : Heading) : Heading * completion :=
  let st :=
    if String.eqb (headingMode st) "headingUp"
    then set_headingMode "northUp" "N Up" st
    else set_headingMode "headingUp" "H Up" st in
  let st := updateHeadingDisplay st in
  if heading_renderer st then (heading_emit redrawCanvas st, Normal)
  else (st, Throws "TypeError: renderer is undefined").

(** Body of the inner loop of [headingSocket.onmessage]. *)
Definition heading_value (st : Heading) (v : json) : Heading * completion :=
  match get v path with
  | Thrown err => (st, Throws err)
  | Returned (Value (json_string p)) =>
      if String.eqb p "navigation.headingTrue" then
        match get v value with
        | Thrown err => (st, Throws err)
        | Returned h => (updateHeadingDisplay (set_trueHeading h st), Normal)
        end
      else (st, Normal)
  | Returned _ => (st, Normal)
  end.

(** Body of the outer loop. *)
Definition heading_update (st : Heading) (update : json)
  : Heading * completion :=
  match get update values with
  | Thrown err => (st, Throws err)
  | Returned vs =>
      if truthy vs then
        match iterate vs with
        | Thrown err => (st, Throws err)
        | Returned items => for_of heading_value items st
        end
      else (st, Normal)
  end.

(** The [try] block of [headingSocket.onmessage]. *)
Definition heading_onmessage_try (data : MessageData) (st : Heading)
  : Heading * completion :=
  match JSON_parse data with
  | Thrown err => (st, Throws err)
  | Returned d =>
      match get d updates with
      | Thrown err => (st, Throws err)
      | Returned us =>
          if truthy us then
            match iterate us with
            | Thrown err => (st, Throws err)
            | Returned items => for_of heading_update items st
            end
          else (st, Normal)
      end
  end.

(** [headingSocket.onmessage]: the [catch] clause ignores what was
    thrown. *)
Definition heading_onmessage (data : MessageData) (st : Heading) : Heading :=
  fst (heading_onmessage_try data st).

(** [subscribeToHeading]. *)
Definition subscribeToHeading (st : Heading) : Heading :=
  if isStandaloneMode then
    heading_emit
      (heading_log "Standalone mode: heading subscription disabled (no SignalK)")
      st
  else
    heading_emit
      (newHeadingSocket
         ((if String.eqb location_protocol "https:" then "wss:" else "ws:") ++
          "//" ++ location_host ++ "/signalk/v1/stream?subscribe=none"))
      st.

(** [headingSocket.onopen]. *)
Definition heading_onopen (st : Heading) : Heading :=
  heading_emit (send_subscription "vessels.self" "navigation.headingTrue" 200)
    (heading_emit (heading_log "Heading WebSocket connected") st).

(** [headingSocket.onclose]. *)
Definition heading_onclose (st : Heading) : Heading :=
  heading_emit (setTimeout_subscribeToHeading 5000)
    (heading_emit (heading_log "Heading WebSocket closed, reconnecting in 5s...")
       st).

(** *** The heading seen from outside *)

(** The rotation last passed to the renderer, if any. *)
Definition displayed_rotation (t : list HeadingEvent) : option number :=
  fold_left (fun shown e =>
               match e with setHeadingRotation r => Some r | _ => shown end)
            t None.

Definition rotations (t : list HeadingEvent) : list number :=
  flat_map (fun e => match e with setHeadingRotation r => [r] | _ => [] end) t.

(** The values a well-formed delta reports for [navigation.headingTrue],
    in order. *)
Definition reported_heading (v : json) : list property :=
  match v with
  | json_object members =>
      match own_property members "path" with
      | Value (json_string p) =>
          if String.eqb p "navigation.headingTrue"
          then [own_property members "value"] else []
      | _ => []
      end
  | _ => []
  end.

Definition reported_headings_of_update (update : json) : list property :=
  match update with
  | json_object members =>
      match own_property members "values" with
      | Value (json_array vs) => flat_map reported_heading vs
      | _ => []
      end
  | _ => []
  end.

Definition reported_headings (d : json) : list property :=
  match d with
  | json_object members =>
      match own_property members "updates" with
      | Value (json_array us) => flat_map reported_headings_of_update us
      | _ => []
      end
  | _ => []
  end.

(** A delta as SignalK sends it: an object whose [updates], if present,
    is an array of objects whose [values], if present, is an array of
    objects. *)
Definition is_object (v : json) : bool :=
  match v with json_object _ => true | _ => false end.

Definition well_formed_update (update : json) : bool :=
  match update with
  | json_object members =>
      match own_property members "values" with
      | Undefined => true
      | Value (json_array vs) => forallb is_object vs
      | _ => false
      end
  | _ => false
  end.

Definition well_formed_delta (d : json) : bool :=
  match d with
  | json_object members =>
      match own_property members "updates" with
      | Undefined => true
      | Value (json_array us) => forallb well_formed_update us
      | _ => false
      end
  | _ => false
  end.

(** The assignments [trueHeading = h] of a message, each followed by
    [updateHeadingDisplay()]. *)
Definition apply_headings (hs : list property) (st : Heading) : Heading :=
  fold_left (fun st h => updateHeadingDisplay (set_trueHeading h st)) hs st.

(** What the page lets happen to the heading once the toggle button is
    there: a message arrives, or the button is clicked. *)
Inductive heading_step : Heading -> Heading -> Prop :=
| step_heading_message data st :
    heading_step st (heading_onmessage data st)
| step_toggle_click st :
    heading_step st (fst (toggle_click st)).

Inductive heading_reachable : Heading -> Prop :=
| heading_reachable_created :
    heading_reachable (createHeadingModeToggle true heading_initial)
| heading_reachable_step st st' :
    heading_reachable st -> heading_step st st' -> heading_reachable st'.

(** What a message may do to the heading state: mode, button and renderer
    stay; headings [hs] are assigned one after the other, each passed on
    to the renderer if there is one. *)
Definition heading_grows (st st' : Heading) : Prop :=
  headingMode st' = headingMode st /\
  toggle_innerHTML st' = toggle_innerHTML st /\
  heading_renderer st' = heading_renderer st /\
  (exists hs,
     trueHeading st' = List.last hs (trueHeading st) /\
     heading_trace st' =
       (heading_trace st ++
        if heading_renderer st
        then map (fun h => setHeadingRotation
                             (heading_rotation (headingMode st) h)) hs
        else [])%list).

(** The heading shown is the heading known: the button reads as the mode
    is, and the rotation last given to the renderer is the one of the
    current mode and heading, unless none was given yet, the mode then
    still being heading-up. *)
Definition heading_in_sync (st : Heading) : Prop :=
  heading_renderer st = true /\
  (headingMode st = "headingUp" /\ toggle_innerHTML st = Some "H Up" \/
   headingMode st = "northUp" /\ toggle_innerHTML st = Some "N Up") /\
  (displayed_rotation (heading_trace st) =
     Some (heading_rotation (headingMode st) (trueHeading st)) \/
   displayed_rotation (heading_trace st) = None /\
   headingMode st = "headingUp").

End Heading.

Arguments heading_onmessage_try StringToNumber ObjectToNumber {MessageData}
  JSON_parse data st.
Arguments heading_onmessage StringToNumber ObjectToNumber {MessageData}
  JSON_parse data st.
Arguments heading_step StringToNumber ObjectToNumber {MessageData}
  JSON_parse _ _.
Arguments heading_reachable StringToNumber ObjectToNumber {MessageData}
  JSON_parse _.

(** *** Sample messages *)

(** The examples report numbers only: no other conversion to a number is
    exercised, and it stands as NaN here. *)
Definition not_converted {A : Type} (x : A) : number := nan.

(** Messages handed over already parsed. *)
Definition parsed (d : json) : outcome json := Returned d.

Definition sample_value (p : string) (h : number) : json :=
  json_object [("path", json_string p); ("value", json_number h)].

(** A delta with two updates: a position and a heading, then a heading. *)
Definition sample_delta : json :=
  json_object
    [ ("context", json_string "vessels.self");
      ("updates",
       json_array
         [ json_object
             [ ("values",
                json_array [ sample_value "navigation.position" 0;
                             sample_value "navigation.headingTrue" 1.5 ]) ];
           json_object
             [ ("values",
                json_array [ sample_value "navigation.headingTrue" 2 ]) ] ]) ].

(** The hello message of the server: no updates. *)
Definition sample_hello : json :=
  json_object [("name", json_string "signalk-server");
               ("version", json_string "2.0.0")].

Definition sample_heading_onmessage :=
  heading_onmessage (@not_converted string) (@not_converted json) parsed.

Definition sample_toggle_click :=
  toggle_click (@not_converted string) (@not_converted json).

Definition sample_heading_reachable :=
  heading_reachable (@not_converted string) (@not_converted json) parsed.

(* ================================================================== *)
(** ** Platform detection ([detectOS], [detectBrowser]) *)
(* ================================================================== *)

(** [toLowerCase] on code units below 256: the letters A-Z and the
    accented capitals U+00C0 - U+00DE (the multiplication sign apart). *)
Definition to_lower (c : ascii) : ascii :=
  let n := N_of_ascii c in
  if ((65 <=? n) && (n <=? 90) ||
      (192 <=? n) && (n <=? 222) && negb (n =? 215))%N
  then ascii_of_N (n + 32) else c.

Fixpoint toLowerCase (s : string) : string :=
  match s with
  | EmptyString => EmptyString
  | String c rest => String (to_lower c) (toLowerCase rest)
  end.

(** [detectOS()], given [navigator.userAgent], [navigator.platform]
    (which may be missing) and [navigator.maxTouchPoints] (a missing one
    compares as NaN does). *)
Definition detectOS (userAgent : string) (navigator_platform : option string)
  (maxTouchPoints : number) : string :=
  let ua := toLowerCase userAgent in
  let platform :=
    match navigator_platform with
    | Some p => toLowerCase p
    | None => EmptyString
    end in
  (* Check mobile/tablet FIRST (iPadOS reports as macOS in Safari) *)
  if includes ua "iphone" || includes ua "ipad" then "ios"
  else if (maxTouchPoints >? 1) &&
          (includes ua "mac" || includes platform "mac") then "ios"
  else if includes ua "android" then "android"
  (* Desktop OS detection *)
  else if includes ua "win" || includes platform "win" then "windows"
  else if includes ua "mac" || includes platform "mac" then "macos"
  else if includes ua "linux" || includes platform "linux" then "linux"
  else "unknown".

(** [detectBrowser()], given [navigator.userAgent]. *)
Definition detectBrowser (userAgent : string) : string :=
  let ua := toLowerCase userAgent in
  if includes ua "edg/" then "edge"
  else if includes ua "chrome" then "chrome"
  else if includes ua "firefox" then "firefox"
  else if includes ua "safari" && negb (includes ua "chrome") then "safari"
  else "unknown".

(** User agents as browsers send them. *)
Definition sample_ua_edge : string :=
  "Mozilla/5.0 (Windows NT 10.0; Win64; x64) AppleWebKit/537.36 (KHTML, like Gecko) Chrome/120.0.0.0 Safari/537.36 Edg/120.0.0.0".
Definition sample_ua_chrome_android : string :=
  "Mozilla/5.0 (Linux; Android 14; Pixel 8) AppleWebKit/537.36 (KHTML, like Gecko) Chrome/120.0.0.0 Mobile Safari/537.36".
Definition sample_ua_safari_mac : string :=
  "Mozilla/5.0 (Macintosh; Intel Mac OS X 10_15_7) AppleWebKit/605.1.15 (KHTML, like Gecko) Version/17.0 Safari/605.1.15".
Definition sample_ua_cfnetwork : string :=
  "Radar/1.0 CFNetwork/1490.0.4 Darwin/23.2.0".

(* ================================================================== *)
(** ** JavaScript numbers: the runtime operations on known values *)
(* ================================================================== *)

Example Math_round_ties :
  map Math_round [2.5; -2.5; 0.49999999999999994; -0.2; 231.5; 999.5] =
  [3; -2; 0; -0; 232; 1000].
Proof. vm_compute. reflexivity. Qed.

Example Math_floor_values :
  map Math_floor [2.5; -2.5; 0.999; -0.001; 255; 1e300] =
  [2; -3; 0; -1; 255; 1e300].
Proof. vm_compute. reflexivity. Qed.

Example rem_values :
  map (fun p => rem (fst p) (snd p))
      [(926, 500); (-7, 25); (2778, 926); (232, 231.5); (5.5, 2); (1, infinity)] =
  [426; -7; 0; 0.5; 1.5; 1].
Proof. vm_compute. reflexivity. Qed.

Example rem_not_a_number :
  map (fun p => is_nan (rem (fst p) (snd p)))
      [(1, 0); (infinity, 5); (nan, 5); (5, nan)] = [true; true; true; true].
Proof. vm_compute. reflexivity. Qed.

Example to_string_values :
  map to_string [0; -0; 1852; 1.5; 0.1; 0.000001; 0.0000001; 1e21; 1e20;
                 123456789012345680000; -2.5; nan; infinity;
                 2000 / 1852; 5e-324] =
  ["0"; "0"; "1852"; "1.5"; "0.1"; "0.000001"; "1e-7"; "1e+21";
   "100000000000000000000"; "123456789012345680000"; "-2.5"; "NaN";
   "Infinity"; "1.079913606911447"; "5e-324"].
Proof. vm_compute. reflexivity. Qed.

Example toFixed_values :
  map (fun p => toFixed (fst p) (snd p))
      [(0.125, 2%nat); (1.005, 2%nat); (2.5, 0%nat); (1.5, 1%nat);
       (1700 / 1852, 2%nat); (-0.001, 2%nat); (0, 2%nat)] =
  ["0.13"; "1.00"; "3"; "1.5"; "0.92"; "-0.00"; "0.00"].
Proof. vm_compute. reflexivity. Qed.
(* ================================================================== *)
(** ** Facts about the ordering of numbers *)
(* ================================================================== *)

Section NumberOrder.

Lemma SFcompare_antisym (x y : spec_float) :
  SFcompare y x = option_map CompOpp (SFcompare x y).
Proof.
  destruct x as [sx|sx| |sx mx ex], y as [sy|sy| |sy my ey]; simpl;
    try reflexivity;
    try (destruct sx; reflexivity);
    try (destruct sy; reflexivity);
    try (destruct sx, sy; reflexivity).
  pose proof (Pos.compare_cont_antisym mx my Eq) as Hm; simpl in Hm.
  destruct sx, sy; simpl; try reflexivity;
    rewrite (Z.compare_antisym ex ey);
    destruct (ex ?= ey)%Z; simpl; try reflexivity;
    rewrite <- Hm; try reflexivity.
Qed.

Lemma SFcompare_refl (x : spec_float) :
  SFcompare x x = None \/ SFcompare x x = Some Eq.
Proof.
  destruct x as [s|s| |s m e]; simpl; auto.
  - destruct s; auto.
  - rewrite Z.compare_refl, Pos.compare_cont_refl. destruct s; auto.
Qed.

(** [a < b] excludes [b <= a]. *)
Lemma lt_not_ge (a b : number) : (a <? b) = true -> (b <=? a) = false.
Proof.
  rewrite ltb_spec, leb_spec. unfold SFltb, SFleb.
  rewrite (SFcompare_antisym (Prim2SF a) (Prim2SF b)).
  destruct (SFcompare (Prim2SF a) (Prim2SF b)) as [[| |]|]; simpl;
    congruence.
Qed.

Lemma le_not_gt (a b : number) : (a <=? b) = true -> (b <? a) = false.
Proof.
  intros H. destruct (b <? a) eqn:E; [|reflexivity].
  apply lt_not_ge in E. congruence.
Qed.

(** Comparable numbers are totally ordered: only NaN escapes. *)
Lemma not_le_gt (a b : number) :
  (a <=? b) = false -> (a <=? a) = true -> (b <=? b) = true ->
  (b <? a) = true.
Proof.
  rewrite !ltb_spec, !leb_spec. unfold SFltb, SFleb.
  rewrite (SFcompare_antisym (Prim2SF a) (Prim2SF b)).
  destruct (Prim2SF a) as [sa|sa| |sa ma ea],
           (Prim2SF b) as [sb|sb| |sb mb eb]; simpl;
    try congruence;
    try (destruct sa; simpl; congruence);
    try (destruct sb; simpl; congruence);
    try (destruct sa, sb; simpl; congruence).
  intros H _ _. revert H.
  destruct sa, sb; simpl; try congruence;
    destruct (ea ?= eb)%Z; simpl; try congruence;
    destruct (Pos.compare_cont Eq ma mb); simpl; congruence.
Qed.

(** A number that compares with anything compares with itself. *)
Lemma le_comparable_l (a b : number) :
  (a <=? b) = true -> (a <=? a) = true.
Proof.
  rewrite !leb_spec. unfold SFleb.
  destruct (Prim2SF a) as [s|s| |s m e]; simpl; try congruence.
  - destruct s; reflexivity.
  - rewrite Z.compare_refl, Pos.compare_cont_refl. destruct s; reflexivity.
Qed.

End NumberOrder.

(* ================================================================== *)
(** ** Unit formatter: theorems *)
(* ================================================================== *)

Lemma find_first_match {A} (test : A -> bool) (ds : list A) (d : A) :
  first_match test ds d -> find test ds = Some d.
Proof.
  intros (pre & post & -> & Hd & Hpre).
  induction Hpre as [|x pre Hx _ IH]; simpl.
  - now rewrite Hd.
  - now rewrite Hx.
Qed.

Lemma find_no_match {A} (test : A -> bool) (ds : list A) :
  Forall (fun x => test x = false) ds -> find test ds = None.
Proof.
  induction 1 as [|x l Hx _ IH]; simpl; [reflexivity|now rewrite Hx].
Qed.

Lemma search_denominators_find (v : number) (ds : list number) :
  search_denominators v ds =
  option_map (fun d => to_string (numerator_for v d) ++ "/" ++
                       to_string d ++ " nm")
             (find (accepts v) ds).
Proof.
  induction ds as [|d ds IH]; simpl; [reflexivity|].
  destruct (accepts v d); [reflexivity|exact IH].
Qed.

Lemma divides_near_spec (a b : number) :
  divides_near a b = true <-> near_multiple a b.
Proof. unfold divides_near, near_multiple. apply orb_true_iff. Qed.

(** NaN is near no multiple. *)
Lemma divides_near_comparable (v b : number) :
  divides_near v b = true -> (v <=? v) = true.
Proof.
  unfold divides_near, rem. rewrite (leb_spec v v). unfold SFleb.
  destruct (Prim2SF v) as [s|s| |s m e] eqn:E; simpl.
  - reflexivity.
  - destruct s; reflexivity.
  - replace (match Prim2SF b with
             | S754_zero _ => nan | S754_infinity _ => nan
             | S754_nan => nan | S754_finite _ _ _ => nan end)
      with nan by (destruct (Prim2SF b); reflexivity).
    rewrite (leb_spec (b - 1) nan). unfold SFleb.
    replace (Prim2SF nan) with S754_nan by reflexivity.
    destruct (Prim2SF (b - 1)); simpl; discriminate.
  - rewrite Z.compare_refl, Pos.compare_cont_refl. destruct s; reflexivity.
Qed.

(** Normal forms of the numeric constants the comparisons involve. *)
Ltac known_constant c :=
  let n := eval vm_compute in (Prim2SF c) in
  change (Prim2SF c) with n.

Lemma gt_750_not_le_100 (v : number) :
  (750 <? v) = true -> (v <=? 100) = false.
Proof.
  rewrite ltb_spec, leb_spec. known_constant 750. known_constant 100.
  unfold SFltb, SFleb.
  destruct (Prim2SF v) as [s|s| |s m e]; try destruct s;
    unfold SFcompare; try discriminate; try reflexivity.
  destruct (Z.compare_spec (-43) e) as [<-|Hlt|Hgt].
  - intros _. reflexivity.
  - intros _. destruct (Z.compare_spec e (-46)); lia || reflexivity.
  - discriminate.
Qed.

Lemma is_metric_spec (v : number) : is_metric v = true <-> metric v.
Proof.
  unfold is_metric, metric. split.
  - destruct (v <=? 100) eqn:E100.
    { intros H. left. split; [reflexivity|now apply divides_near_spec]. }
    destruct (v <=? 750) eqn:E750; intros H.
    + right; left. repeat split; [|now apply divides_near_spec].
      apply not_le_gt; [exact E100| |reflexivity].
      exact (le_comparable_l _ _ E750).
    + right; right. split; [|now apply divides_near_spec].
      apply not_le_gt; [exact E750| |reflexivity].
      exact (divides_near_comparable _ _ H).
  - intros [[H100 Hn]|[(Hgt & H750 & Hn)|[Hgt Hn]]].
    + rewrite H100. now apply divides_near_spec.
    + rewrite (lt_not_ge _ _ Hgt), H750. now apply divides_near_spec.
    + rewrite (gt_750_not_le_100 _ Hgt), (lt_not_ge _ _ Hgt).
      now apply divides_near_spec.
Qed.

(** The chain of [else if] tests below one nautical mile is a first-match
    search through halves, quarters, ..., 1/128. *)
Lemma formatRangeValue_nautical_unfold (v : number) :
  formatRangeValue_nautical v =
  if NAUTICAL_MILE - 1 <=? v then
    if divides_near v NAUTICAL_MILE
    then concat_num (Math_floor ((v + 1) / NAUTICAL_MILE)) " nm"
    else raw_decimal_nm v
  else
    match find (near_fraction v) sub_mile_denominators with
    | Some d => fraction_label v d
    | None => raw_decimal_nm v
    end.
Proof.
  unfold formatRangeValue_nautical, sub_mile_denominators, near_fraction,
    raw_decimal_nm.
  destruct (NAUTICAL_MILE - 1 <=? v); [reflexivity|].
  cbn [find].
  repeat match goal with
  | |- context [if divides_near v (NAUTICAL_MILE / ?d) then _ else _] =>
      destruct (divides_near v (NAUTICAL_MILE / d));
      [unfold fraction_label, fraction_count;
       match goal with |- concat_num _ _ = concat_num _ ?l =>
         let l' := eval vm_compute in l in change l with l' end;
       reflexivity|]
  end.
  reflexivity.
Qed.

(** C4 (Navico).  [formatRangeValue "Navico"] rounds the input to the
    nearest whole meter [v] and then: below 1000 it renders ["{v} m"]; from
    one nautical mile on it renders whole nautical miles when the value is
    at least 10 nm, and otherwise the value rounded to the nearest half
    mile, as an integer or with one decimal; between 1000 m and one
    nautical mile it walks the denominators [128, 64, 32, 16, 8, 4, 2] in
    that order and renders the first ["numerator/denominator nm"] whose
    rounded, positive numerator times [1852/denominator] lies within 10% of
    [1852/denominator] of [v], and a two-decimal nm value when none does. *)
Theorem formatRangeValue_Navico (v0 : number) :
  let v := Math_round v0 in
  let nm := v / 1852 in
  let half := Math_round (nm * 2) / 2 in
  denominators = [128; 64; 32; 16; 8; 4; 2] /\
  (forall d, accepts v d = true <->
     (Math_abs (v - numerator_for v d * (1852 / d)) <? 1852 / d * 0.10) = true
     /\ (numerator_for v d >? 0) = true) /\
  ((v <? 1000) = true ->
     formatRangeValue "Navico" v0 = to_string v ++ " m") /\
  ((v <? 1000) = false -> (v >=? 1852) = true -> (nm >=? 10) = true ->
     formatRangeValue "Navico" v0 = to_string (Math_round nm) ++ " nm") /\
  ((v <? 1000) = false -> (v >=? 1852) = true -> (nm >=? 10) = false ->
     formatRangeValue "Navico" v0 =
     (if half =? Math_floor half then to_string half else toFixed half 1)
       ++ " nm") /\
  ((v <? 1000) = false -> (v >=? 1852) = false ->
     forall d, first_match (accepts v) denominators d ->
     formatRangeValue "Navico" v0 =
     to_string (numerator_for v d) ++ "/" ++ to_string d ++ " nm") /\
  ((v <? 1000) = false -> (v >=? 1852) = false ->
     Forall (fun d => accepts v d = false) denominators ->
     formatRangeValue "Navico" v0 = toFixed (v / 1852) 2 ++ " nm").
Proof.
  intros v nm half.
  assert (Hnav : formatRangeValue "Navico" v0 =
                 if v <? 1000 then concat_num v " m"
                 else formatRangeNautical v) by reflexivity.
  rewrite Hnav. unfold formatRangeNautical, concat_num, strict_eq.
  change NAUTICAL_MILE with 1852. fold nm. fold half.
  split; [reflexivity|]. split.
  { intros d. unfold accepts. change NAUTICAL_MILE with 1852.
    apply andb_true_iff. }
  split; [intros ->; reflexivity|].
  split; [intros -> -> ->; reflexivity|].
  split.
  { intros -> -> ->. destruct (half =? Math_floor half); reflexivity. }
  split.
  - intros -> -> d Hd. rewrite search_denominators_find.
    now rewrite (find_first_match _ _ _ Hd).
  - intros -> -> Hnone. rewrite search_denominators_find.
    now rewrite (find_no_match _ _ Hnone).
Qed.

(** The Navico cases on concrete ranges: 500 m, 20 nm, 1.5 nm, 3/4 nm,
    1500 m and 1700 m. *)
Lemma formatRangeValue_Navico_witness :
  formatRangeValue "Navico" 500 = "500 m" /\
  formatRangeValue "Navico" 37040 = "20 nm" /\
  formatRangeValue "Navico" 2778 = "1.5 nm" /\
  formatRangeValue "Navico" 1389 = "96/128 nm" /\
  formatRangeValue "Navico" 1500 = "26/32 nm" /\
  formatRangeValue "Navico" 1700 = "0.92 nm".
Proof.
  split; [|split; [|split; [|split; [|split]]]].
  - destruct (formatRangeValue_Navico 500) as (_ & _ & H & _).
    rewrite H; vm_compute; reflexivity.
  - destruct (formatRangeValue_Navico 37040) as (_ & _ & _ & H & _).
    rewrite H; vm_compute; reflexivity.
  - destruct (formatRangeValue_Navico 2778) as (_ & _ & _ & _ & H & _).
    rewrite H; vm_compute; reflexivity.
  - destruct (formatRangeValue_Navico 1389) as (_ & _ & _ & _ & _ & H & _).
    rewrite (H eq_refl eq_refl 128); [vm_compute; reflexivity|].
    exists [], [64; 32; 16; 8; 4; 2].
    split; [reflexivity|split; [vm_compute; reflexivity|constructor]].
  - destruct (formatRangeValue_Navico 1500) as (_ & _ & _ & _ & _ & H & _).
    rewrite (H eq_refl eq_refl 32); [vm_compute; reflexivity|].
    exists [128; 64], [16; 8; 4; 2].
    split; [reflexivity|split; [vm_compute; reflexivity|]].
    repeat constructor.
  - destruct (formatRangeValue_Navico 1700) as (_ & _ & _ & _ & _ & _ & H).
    rewrite H; [vm_compute; reflexivity|reflexivity|reflexivity|].
    repeat constructor.
Defined.

Lemma brand_not_Navico (brand : string) (v0 : number) :
  brand <> "Navico" ->
  formatRangeValue brand v0 =
  let v := Math_round v0 in
  if is_metric v then
    if 1000 <=? v then concat_num (v / 1000) " km" else concat_num v " m"
  else formatRangeValue_nautical v.
Proof.
  intros H. unfold formatRangeValue.
  now rewrite (proj2 (String.eqb_neq brand "Navico") H).
Qed.

(** C5, as stated, fails at 2778 m (1.5 nm): the value is not near a
    multiple of 1852 but is three halves of it, so the descending search
    names ["3/2 nm"]; the code does not try fractions from 1851 m on and
    returns the raw decimal. *)
Lemma formatRangeValue_other_brands_counterexample :
  formatRangeValue "Furuno" 2778 = "1.5 nm" /\
  formatRangeValue_as_specified 2778 = "3/2 nm" /\
  formatRangeValue "Furuno" 2778 <> formatRangeValue_as_specified 2778.
Proof.
  assert (H1 : formatRangeValue "Furuno" 2778 = "1.5 nm")
    by (vm_compute; reflexivity).
  assert (H2 : formatRangeValue_as_specified 2778 = "3/2 nm")
    by (vm_compute; reflexivity).
  rewrite H1, H2. repeat split. discriminate.
Qed.

(** C5 (amended).  For every brand other than Navico, with [v] the input
    rounded to the nearest whole meter: [v] is classified by the
    divisibility heuristic; a metric value is rendered in km from 1000 m on
    and in meters below; a nautical value of at least 1851 m is rendered as
    a whole number of nautical miles when it is near a multiple of 1852 and
    as a raw decimal nm value otherwise; a nautical value below 1851 m is
    rendered as the first matching fraction among halves, quarters,
    eighths, ..., 1/128, and as a raw decimal nm value when none matches.
    500 gives ["500 m"], 1000 gives ["1 km"], 1852 gives ["1 nm"]. *)
Theorem formatRangeValue_other_brands (brand : string) (v0 : number) :
  brand <> "Navico" ->
  let v := Math_round v0 in
  (forall a b, divides_near a b = true <-> near_multiple a b) /\
  (is_metric v = true <-> metric v) /\
  (metric v -> (v >=? 1000) = true ->
     formatRangeValue brand v0 = to_string (v / 1000) ++ " km") /\
  (metric v -> (v >=? 1000) = false ->
     formatRangeValue brand v0 = to_string v ++ " m") /\
  (~ metric v -> (v >=? 1852 - 1) = true -> near_multiple v 1852 ->
     formatRangeValue brand v0 =
     to_string (Math_floor ((v + 1) / 1852)) ++ " nm") /\
  (~ metric v -> (v >=? 1852 - 1) = true -> ~ near_multiple v 1852 ->
     formatRangeValue brand v0 = to_string (v / 1852) ++ " nm") /\
  (~ metric v -> (v >=? 1852 - 1) = false ->
     forall d, first_match (near_fraction v) [2; 4; 8; 16; 32; 64; 128] d ->
     formatRangeValue brand v0 =
     to_string (Math_floor ((v + 1) / (1852 / d))) ++
     "/" ++ to_string d ++ " nm") /\
  (~ metric v -> (v >=? 1852 - 1) = false ->
     Forall (fun d => near_fraction v d = false) [2; 4; 8; 16; 32; 64; 128] ->
     formatRangeValue brand v0 = to_string (v / 1852) ++ " nm") /\
  formatRangeValue brand 500 = "500 m" /\
  formatRangeValue brand 1000 = "1 km" /\
  formatRangeValue brand 1852 = "1 nm".
Proof.
  intros Hb v.
  assert (Hnm : forall P : Prop, ~ metric v -> (is_metric v = false -> P) -> P).
  { intros P Hn HP. apply HP. destruct (is_metric v) eqn:E; [|reflexivity].
    exfalso. apply Hn. now apply is_metric_spec. }
  split; [exact divides_near_spec|].
  split; [exact (is_metric_spec v)|].
  rewrite !(brand_not_Navico brand _ Hb). cbv zeta. fold v.
  rewrite formatRangeValue_nautical_unfold.
  unfold raw_decimal_nm, concat_num. change NAUTICAL_MILE with 1852.
  split.
  { intros Hm ->. now rewrite (proj2 (is_metric_spec v) Hm). }
  split.
  { intros Hm ->. now rewrite (proj2 (is_metric_spec v) Hm). }
  split.
  { intros Hn -> Hw. apply (Hnm _ Hn); intros ->.
    now rewrite (proj2 (divides_near_spec v 1852) Hw). }
  split.
  { intros Hn -> Hw. apply (Hnm _ Hn); intros ->.
    destruct (divides_near v 1852) eqn:E; [|reflexivity].
    exfalso. apply Hw. now apply divides_near_spec. }
  split.
  { intros Hn -> d Hd. apply (Hnm _ Hn); intros ->.
    unfold sub_mile_denominators. rewrite (find_first_match _ _ _ Hd).
    unfold fraction_label, fraction_count, concat_num, strict_eq.
    change NAUTICAL_MILE with 1852.
    destruct Hd as (pre & post & Hl & _ & _).
    assert (Hin : In d [2; 4; 8; 16; 32; 64; 128])
      by (rewrite Hl; apply in_or_app; right; left; reflexivity).
    simpl in Hin.
    repeat (destruct Hin as [<-|Hin]; [reflexivity|]). contradiction. }
  split.
  { intros Hn -> Hnone. apply (Hnm _ Hn); intros ->.
    unfold sub_mile_denominators. now rewrite (find_no_match _ _ Hnone). }
  repeat split; vm_compute; reflexivity.
Qed.

(** The cases of the other brands on concrete ranges. *)
Lemma formatRangeValue_other_brands_witness :
  formatRangeValue "Furuno" 1500 = "1.5 km" /\
  formatRangeValue "Furuno" 75 = "75 m" /\
  formatRangeValue "Furuno" 3705 = "2 nm" /\
  formatRangeValue "Furuno" 2778 = "1.5 nm" /\
  formatRangeValue "Furuno" 1389 = "3/4 nm" /\
  formatRangeValue "Furuno" 125 = "0.06749460043196544 nm".
Proof.
  assert (Hb : "Furuno" <> "Navico") by discriminate.
  assert (Hdec : forall v, is_metric v = false -> ~ metric v).
  { intros v E H. apply is_metric_spec in H. congruence. }
  split; [|split; [|split; [|split; [|split]]]].
  - destruct (formatRangeValue_other_brands "Furuno" 1500 Hb)
      as (_ & Hm & H & _).
    rewrite H; [vm_compute; reflexivity|apply Hm; reflexivity|reflexivity].
  - destruct (formatRangeValue_other_brands "Furuno" 75 Hb)
      as (_ & Hm & _ & H & _).
    rewrite H; [vm_compute; reflexivity|apply Hm; reflexivity|reflexivity].
  - destruct (formatRangeValue_other_brands "Furuno" 3705 Hb)
      as (Hd & _ & _ & _ & H & _).
    rewrite H; [vm_compute; reflexivity|apply Hdec; reflexivity|reflexivity|].
    apply Hd; reflexivity.
  - destruct (formatRangeValue_other_brands "Furuno" 2778 Hb)
      as (Hd & _ & _ & _ & _ & H & _).
    rewrite H; [vm_compute; reflexivity|apply Hdec; reflexivity|reflexivity|].
    intros Hn. apply Hd in Hn. vm_compute in Hn. discriminate Hn.
  - destruct (formatRangeValue_other_brands "Furuno" 1389 Hb)
      as (_ & _ & _ & _ & _ & _ & H & _).
    rewrite (H (Hdec (Math_round 1389) eq_refl) eq_refl 4); [vm_compute; reflexivity|].
    exists [2], [8; 16; 32; 64; 128].
    split; [reflexivity|split; [vm_compute; reflexivity|]].
    repeat constructor.
  - destruct (formatRangeValue_other_brands "Furuno" 125 Hb)
      as (_ & _ & _ & _ & _ & _ & _ & H & _).
    rewrite H; [vm_compute; reflexivity|apply Hdec; reflexivity|reflexivity|].
    repeat constructor.
Defined.

(** Were they to reach it, the function [formatRangeNautical] (the
    formatter of Navico ranges of 1000 m and more) would render 926 m and
    231.5 m as unreduced 128ths, as it does 1389 m: its search starts at
    the finest denominator, which every multiple of 1/128 nm already
    satisfies. *)
Lemma formatRangeNautical_unreduced :
  formatRangeNautical 926 = "64/128 nm" /\
  formatRangeNautical 231.5 = "16/128 nm" /\
  formatRangeValue "Navico" 1389 = "96/128 nm".
Proof. repeat split; vm_compute; reflexivity. Qed.

(** Every positive multiple of 1/128 nm below one nautical mile comes out
    with the denominator 128: the coarser denominators are reached only by
    values that are not near any 128th. *)
Lemma formatRangeNautical_128ths (k : nat) :
  (1 <= k < 128)%nat ->
  formatRangeNautical (of_Z (Z.of_nat k) * (NAUTICAL_MILE / 128)) =
  string_of_Z (Z.of_nat k) ++ "/128 nm".
Proof.
  intros Hk.
  assert (H : forallb
            (fun k => String.eqb
               (formatRangeNautical (of_Z (Z.of_nat k) * (NAUTICAL_MILE / 128)))
               (string_of_Z (Z.of_nat k) ++ "/128 nm"))
            (seq 1 127) = true) by (vm_compute; reflexivity).
  rewrite forallb_forall in H. apply String.eqb_eq, H, in_seq. lia.
Qed.

(** The nautical branch of the other brands renders the same inputs as
    reduced fractions. *)
Lemma formatRangeValue_nautical_reduced :
  formatRangeValue_nautical 926 = "1/2 nm" /\
  formatRangeValue_nautical 231.5 = "1/8 nm" /\
  formatRangeValue "Furuno" 926 = "1/2 nm" /\
  formatRangeValue "Furuno" 231.5 = "1/8 nm" /\
  formatRangeValue "Furuno" 1389 = "3/4 nm".
Proof. repeat split; vm_compute; reflexivity. Qed.

(** C6.  The nautical sub-formatter, which is the nautical branch of
    [formatRangeValue] taken for every brand but Navico, returns
    ["1/2 nm"] for 926 m (half of 1852) and ["1/8 nm"] for 231.5 m
    (1852/8), on the input as it is and on the input rounded to whole
    meters as [formatRangeValue] hands it over.  The two inputs reach
    this branch and no other: neither is metric, and for Navico they are
    below 1000 m and rendered in meters, so that [formatRangeNautical]
    never sees them. *)
Theorem nautical_branch_half_and_eighth (brand : string) :
  brand <> "Navico" ->
  formatRangeValue brand 926 = "1/2 nm" /\
  formatRangeValue brand 231.5 = "1/8 nm" /\
  formatRangeValue_nautical 926 = "1/2 nm" /\
  formatRangeValue_nautical 231.5 = "1/8 nm" /\
  formatRangeValue_nautical (Math_round 231.5) = "1/8 nm" /\
  is_metric (Math_round 926) = false /\
  is_metric (Math_round 231.5) = false /\
  formatRangeValue "Navico" 926 = "926 m" /\
  formatRangeValue "Navico" 231.5 = "232 m".
Proof.
  intros Hb. rewrite !(brand_not_Navico brand _ Hb).
  repeat apply conj; vm_compute; reflexivity.
Qed.

Lemma nautical_branch_half_and_eighth_witness :
  formatRangeValue "Furuno" 926 = "1/2 nm" /\
  formatRangeValue "Furuno" 231.5 = "1/8 nm".
Proof.
  destruct (nautical_branch_half_and_eighth "Furuno") as (H1 & H2 & _);
    [discriminate|].
  split; [exact H1|exact H2].
Defined.

(* ================================================================== *)
(** ** Colour legend: theorems *)
(* ================================================================== *)

Lemma le_0_lt_2 (p : number) : (p <=? 0) = true -> (p <? 2) = true.
Proof.
  rewrite ltb_spec, leb_spec. known_constant 0. known_constant 2.
  unfold SFltb, SFleb.
  destruct (Prim2SF p) as [s|s| |s m e]; try destruct s;
    unfold SFcompare; try discriminate; reflexivity.
Qed.

(** The value the loop works with is never at or below zero. *)
Lemma effective_pixelValues_positive (arg : option number) :
  (effective_pixelValues arg <=? 0) = false.
Proof.
  unfold effective_pixelValues.
  set (p := match arg with Some p => p | None => 64 end).
  destruct (p <? 2) eqn:E.
  - reflexivity.
  - destruct (p <=? 0) eqn:E0; [|reflexivity].
    apply le_0_lt_2 in E0. congruence.
Qed.

(** The indices 1..255 are non-zero numbers. *)
Lemma index_nonzero (i : nat) :
  (1 <= i < 256)%nat -> strict_eq (of_Z (Z.of_nat i)) 0 = false.
Proof.
  intros Hi.
  assert (H : forallb (fun i => negb (strict_eq (of_Z (Z.of_nat i)) 0))
                      (seq 1 255) = true) by (vm_compute; reflexivity).
  rewrite forallb_forall in H.
  specialize (H i). rewrite negb_true_iff in H. apply H.
  apply in_seq. lia.
Qed.

Lemma legend_entry_overflow (pv i : number) :
  strict_eq i 0 = false -> (i <? pv) = false ->
  legend_entry pv i = saturated_red.
Proof. intros H0 Hlt. unfold legend_entry. now rewrite H0, Hlt. Qed.

Lemma buildMayaraLegend_nth (arg : option number) (i : nat) :
  (i < 256)%nat ->
  nth_error (buildMayaraLegend arg) i =
  Some (legend_entry (effective_pixelValues arg) (of_Z (Z.of_nat i))).
Proof.
  intros Hi. unfold buildMayaraLegend.
  rewrite nth_error_map, nth_error_seq.
  destruct (Nat.ltb_spec i 256) as [_|]; [reflexivity|lia].
Qed.

(** C7, as stated, fails: an input below 2 is replaced by 64 before the
    loop, so that an index at or above such an input need not be an
    overflow entry.  For the input 1, entry 1 is the first entry of the
    gradient; for the input 0, entry 0 is transparent black. *)
Lemma buildMayaraLegend_shape_counterexample :
  nth_error (buildMayaraLegend (Some 1)) 1 = Some [0; 85; 255; 255] /\
  nth_error (buildMayaraLegend (Some 0)) 0 = Some transparent_black /\
  ~ red_from_the_input.
Proof.
  split; [vm_compute; reflexivity|]. split; [vm_compute; reflexivity|].
  intros H. specialize (H 1 1%nat ltac:(lia) eq_refl).
  apply (f_equal (fun entry => match entry with
                              | Some (red :: _) => red =? 0
                              | _ => false
                              end)) in H.
  vm_compute in H. discriminate H.
Qed.

(** C7 (amended).  For every argument, [buildMayaraLegend] returns exactly
    256 entries; entry 0 is [[0,0,0,0]]; every entry at an index at or
    above the pixel-value count in use (the argument, or 64 when the
    argument is below 2) is [[255,0,0,255]]; an argument below 2 gives
    the legend of 64; and [buildLegend(64)[0]], [buildLegend(64)[63]],
    [buildLegend(16)[200]] are as listed.  So the entries at or above an
    argument that is not below 2 are red, and so are, for an argument
    below 2, the entries from index 64 on. *)
Theorem buildMayaraLegend_shape (arg : option number) :
  length (buildMayaraLegend arg) = 256%nat /\
  nth_error (buildMayaraLegend arg) 0 = Some transparent_black /\
  (forall i : nat, (i < 256)%nat ->
     (effective_pixelValues arg <=? of_Z (Z.of_nat i)) = true ->
     nth_error (buildMayaraLegend arg) i = Some saturated_red) /\
  (forall p, arg = Some p -> (p <? 2) = true ->
     buildMayaraLegend arg = buildMayaraLegend (Some 64)) /\
  nth_error (buildMayaraLegend (Some 64)) 0 = Some [0; 0; 0; 0] /\
  nth_error (buildMayaraLegend (Some 64)) 63 = Some [255; 0; 0; 255] /\
  nth_error (buildMayaraLegend (Some 16)) 200 = Some [255; 0; 0; 255] /\
  (forall (p : number) (i : nat), arg = Some p -> (p <? 2) = false ->
     (i < 256)%nat -> (p <=? of_Z (Z.of_nat i)) = true ->
     nth_error (buildMayaraLegend arg) i = Some saturated_red) /\
  (forall (p : number) (i : nat), arg = Some p -> (p <? 2) = true ->
     (64 <= i < 256)%nat ->
     nth_error (buildMayaraLegend arg) i = Some saturated_red).
Proof.
  assert (Hred : forall i : nat, (i < 256)%nat ->
            (effective_pixelValues arg <=? of_Z (Z.of_nat i)) = true ->
            nth_error (buildMayaraLegend arg) i = Some saturated_red).
  { intros i Hi Hge. rewrite buildMayaraLegend_nth by exact Hi.
    f_equal. destruct i as [|i].
    - change (of_Z (Z.of_nat 0)) with 0 in Hge.
      now rewrite effective_pixelValues_positive in Hge.
    - apply legend_entry_overflow.
      + apply index_nonzero. lia.
      + now apply le_not_gt. }
  split.
  { unfold buildMayaraLegend. now rewrite length_map, length_seq. }
  split.
  { rewrite buildMayaraLegend_nth by lia. reflexivity. }
  split; [exact Hred|].
  split.
  { intros p -> Hp. unfold buildMayaraLegend, effective_pixelValues.
    now rewrite Hp. }
  split; [vm_compute; reflexivity|].
  split; [vm_compute; reflexivity|].
  split; [vm_compute; reflexivity|].
  split.
  - intros p i -> Hp Hi Hge. apply Hred; [exact Hi|].
    unfold effective_pixelValues. now rewrite Hp.
  - intros p i -> Hp Hi. apply Hred; [lia|].
    unfold effective_pixelValues. rewrite Hp.
    assert (H : forallb (fun i : nat => 64 <=? of_Z (Z.of_nat i))
                        (seq 64 192) = true) by (vm_compute; reflexivity).
    rewrite forallb_forall in H. apply H, in_seq. lia.
Qed.

(** Index 16 of the 16-value legend is the first overflow entry, and the
    argument 1 gives the legend of 64. *)
Lemma buildMayaraLegend_shape_witness :
  nth_error (buildMayaraLegend (Some 16)) 16 = Some saturated_red /\
  buildMayaraLegend (Some 1) = buildMayaraLegend (Some 64).
Proof.
  destruct (buildMayaraLegend_shape (Some 16)) as (_ & _ & Hred & _).
  destruct (buildMayaraLegend_shape (Some 1)) as (_ & _ & _ & Hclamp & _).
  split.
  - apply Hred; [lia|vm_compute; reflexivity].
  - apply (Hclamp 1); reflexivity.
Defined.

(** C10, as stated, fails: at [pixelValues = 2] the blue channel of entry
    1 is 0. *)
Lemma buildMayaraLegend_2_counterexample :
  exists entry,
    nth_error (buildMayaraLegend (Some 2)) 1 = Some entry /\
    ~ green_and_blue_nan entry.
Proof.
  exists [255; nan; 0; 255]. split.
  - vm_compute; reflexivity.
  - intros [_ Hb]. vm_compute in Hb. discriminate Hb.
Qed.

(** C10 (amended).  [pixelValues = 2] is not replaced by 64, the gradient
    parameter [t = (1-1)/(2-2)] of index 1 is NaN, and entry 1 is
    [[255, NaN, 0, 255]]: its green channel is NaN, its red, blue and alpha
    channels are the numbers 255, 0 and 255. *)
Theorem buildMayaraLegend_2_entry_1 :
  effective_pixelValues (Some 2) = 2 /\
  is_nan ((1 - 1) / (effective_pixelValues (Some 2) - 2)) = true /\
  nth_error (buildMayaraLegend (Some 2)) 1 = Some [255; nan; 0; 255] /\
  is_nan nan = true /\ is_nan 255 = false /\ is_nan 0 = false.
Proof. repeat split; vm_compute; reflexivity. Qed.

(* ================================================================== *)
(** ** No-transmit zones and background overlay: theorems *)
(* ================================================================== *)

Section ZoneArray.

Lemma array_set_lookup (a : list zone_entry) (i : nat) (x : zone_entry) :
  array_set a i x !! i = Some x.
Proof.
  unfold array_set. case_decide as Hi.
  - now apply list_lookup_insert_eq.
  - rewrite lookup_app_r by lia.
    rewrite lookup_app_r by (rewrite length_replicate; lia).
    rewrite length_replicate.
    now replace (i - length a - (i - length a))%nat with 0%nat by lia.
Qed.

Lemma array_get_set (a : list zone_entry) (i : nat) (x : zone_entry) :
  array_get (array_set a i x) i = x.
Proof. unfold array_get. now rewrite array_set_lookup. Qed.

(** Assigning the same element twice is assigning it once. *)
Lemma array_set_idempotent (a : list zone_entry) (i : nat) (x : zone_entry) :
  array_set (array_set a i x) i x = array_set a i x.
Proof.
  pose proof (array_set_lookup a i x) as Hl.
  unfold array_set at 1. case_decide as Hi.
  - now apply list_insert_id.
  - apply lookup_lt_Some in Hl. contradiction.
Qed.

(** Other elements keep their reading. *)
Lemma array_get_set_ne (a : list zone_entry) (i j : nat) (x : zone_entry) :
  i <> j -> array_get (array_set a i x) j = array_get a j.
Proof.
  intros Hij. unfold array_get, array_set. case_decide as Hi.
  - now rewrite list_lookup_insert_ne.
  - destruct (decide (j < length a)%nat) as [Hj|Hj].
    + now rewrite lookup_app_l.
    + rewrite lookup_app_r by lia.
      rewrite (lookup_ge_None_2 a j) by lia.
      destruct (decide (j - length a < i - length a)%nat) as [Hk|Hk].
      * rewrite lookup_app_l by (rewrite length_replicate; lia).
        destruct (replicate _ _ !! _) as [e|] eqn:E; [|reflexivity].
        apply lookup_replicate in E as [-> _]. reflexivity.
      * rewrite lookup_app_r by (rewrite length_replicate; lia).
        rewrite length_replicate.
        rewrite lookup_ge_None_2; [reflexivity|simpl; lia].
Qed.

Lemma array_set_Null_no_object (a : list zone_entry) (i : nat) :
  no_zone_object a -> no_zone_object (array_set a i Null).
Proof.
  unfold no_zone_object, array_set. intros Ha. case_decide.
  - apply Forall_insert; [exact Ha|now right].
  - apply Forall_app. split; [exact Ha|].
    apply Forall_app. split.
    + apply Forall_replicate. now left.
    + constructor; [now right|constructor].
Qed.

(** No object in the array: every slot assignment throws and writes
    nothing. *)
Lemma set_zone_slot_throws (a : list zone_entry) (idx slot : nat)
  (value : number) :
  no_zone_object a ->
  exists err, set_zone_slot a idx slot value = (a, Throws err).
Proof.
  unfold no_zone_object, set_zone_slot, array_get. intros Ha.
  destruct (a !! idx) as [e|] eqn:E.
  - rewrite Forall_lookup in Ha. destruct (Ha _ _ E) as [-> | ->]; eauto.
  - eauto.
Qed.

End ZoneArray.

(** The first run of digits of a name. *)
Lemma first_digit_run_none (name : string) :
  Forall (fun c => is_digit c = false) (list_ascii_of_string name) ->
  extractNoTxZone name = 0%N.
Proof.
  unfold extractNoTxZone.
  induction name as [|c rest IH]; simpl; intros H; [reflexivity|].
  inversion H as [|? ? Hc Hrest]; subst. rewrite Hc. now apply IH.
Qed.

Lemma leading_digits_run (digits rest : string) :
  Forall (fun c => is_digit c = true) (list_ascii_of_string digits) ->
  match rest with
  | EmptyString => True
  | String c _ => is_digit c = false
  end ->
  leading_digits (digits ++ rest) = digits.
Proof.
  intros Hd Hr. induction digits as [|c ds IH]; simpl in *.
  - destruct rest as [|c r]; [reflexivity|]. simpl. now rewrite Hr.
  - inversion Hd as [|? ? Hc Hds]; subst. rewrite Hc. f_equal. now apply IH.
Qed.

Lemma extractNoTxZone_first_run (before digits rest : string) :
  Forall (fun c => is_digit c = false) (list_ascii_of_string before) ->
  Forall (fun c => is_digit c = true) (list_ascii_of_string digits) ->
  digits <> EmptyString ->
  match rest with
  | EmptyString => True
  | String c _ => is_digit c = false
  end ->
  extractNoTxZone (before ++ digits ++ rest) = parseInt_digits digits.
Proof.
  intros Hb Hd Hne Hr. unfold extractNoTxZone.
  induction before as [|c b IH]; simpl in *.
  - destruct digits as [|c ds]; [congruence|]. simpl.
    inversion Hd as [|? ? Hc Hds]; subst. rewrite Hc.
    now rewrite (leading_digits_run ds rest Hds Hr).
  - inversion Hb as [|? ? Hc Hbs]; subst. rewrite Hc. now apply IH.
Qed.

Lemma extractStartOrEnd_spec (name : string) :
  (includes name "start" = true -> extractStartOrEnd name = 0%nat) /\
  (includes name "start" = false -> extractStartOrEnd name = 1%nat).
Proof. unfold extractStartOrEnd. split; intros ->; reflexivity. Qed.

Section ControlUpdate.

Context {Surface : Type}.
Variable call : RendererCall -> Surface -> Surface.
Variables getOperatingHours hasHoursCapability : jsval * jsval.
Variable parseFloat : jsval -> number.

#[local] Abbreviation update :=
  (controlUpdate call getOperatingHours hasHoursCapability parseFloat).

Lemma No_Transmit_not_Range (n : string) :
  String.prefix "No Transmit" n = true -> String.eqb n "Range" = false.
Proof.
  intros H. destruct (String.eqb_spec n "Range") as [->|]; [|reflexivity].
  vm_compute in H. discriminate H.
Qed.

(** The zone array after a control update. *)
Lemma controlUpdate_zones (name : option string) (cv : ControlValue)
  (st : State Surface) :
  noTransmitAngles (fst (update name cv st)) =
  match name with
  | Some n =>
      if String.prefix "No Transmit" n then
        if cv_enabled cv then
          fst (set_zone_slot (noTransmitAngles st)
                 (N.to_nat (extractNoTxZone n)) (extractStartOrEnd n)
                 (parseFloat (cv_value cv)))
        else array_set (noTransmitAngles st)
                       (N.to_nat (extractNoTxZone n)) Null
      else noTransmitAngles st
  | None => noTransmitAngles st
  end.
Proof.
  unfold controlUpdate.
  set (st1 := match name, renderer st with
              | Some n, Some s => if String.eqb n "Range" then _ else st
              | _, _ => st
              end).
  assert (H1 : noTransmitAngles st1 = noTransmitAngles st).
  { subst st1. destruct name as [n|]; [|reflexivity].
    destruct (renderer st); [|reflexivity].
    destruct (String.eqb n "Range"); reflexivity. }
  destruct name as [n|].
  - destruct (String.prefix "No Transmit" n).
    + destruct (cv_enabled cv).
      * rewrite H1.
        destruct (set_zone_slot _ _ _ _) as [zones [|err]]; simpl;
          [|reflexivity].
        destruct (cv_id cv); [|reflexivity].
        destruct (renderer st1); [|reflexivity].
        destruct (String.eqb _ "power"); reflexivity.
      * rewrite H1. simpl.
        destruct (cv_id cv); [|reflexivity].
        destruct (renderer st1); [|reflexivity].
        destruct (String.eqb _ "power"); reflexivity.
    + destruct (cv_id cv); [|exact H1].
      destruct (renderer st1); [|exact H1].
      destruct (String.eqb _ "power"); exact H1.
  - destruct (cv_id cv); [|exact H1].
    destruct (renderer st1); [|exact H1].
    destruct (String.eqb _ "power"); exact H1.
Qed.

(** Every state the viewer reaches keeps the zone array free of objects:
    the array starts empty and a control update can only store [null]. *)
Lemma controlUpdate_no_object (name : option string) (cv : ControlValue)
  (st : State Surface) :
  no_zone_object (noTransmitAngles st) ->
  no_zone_object (noTransmitAngles (fst (update name cv st))).
Proof.
  intros Hz. rewrite controlUpdate_zones.
  destruct name as [n|]; [|exact Hz].
  destruct (String.prefix "No Transmit" n); [|exact Hz].
  destruct (cv_enabled cv).
  - destruct (set_zone_slot_throws (noTransmitAngles st)
                (N.to_nat (extractNoTxZone n)) (extractStartOrEnd n)
                (parseFloat (cv_value cv)) Hz) as [err ->].
    exact Hz.
  - now apply array_set_Null_no_object.
Qed.

(** A control update does not touch the pending radar data. *)
Lemma controlUpdate_pending (name : option string) (cv : ControlValue)
  (st : State Surface) :
  pendingRadarData (fst (update name cv st)) = pendingRadarData st.
Proof.
  unfold controlUpdate.
  set (st1 := match name, renderer st with
              | Some n, Some s => if String.eqb n "Range" then _ else st
              | _, _ => st
              end).
  assert (H1 : pendingRadarData st1 = pendingRadarData st).
  { subst st1. destruct name as [n|]; [|reflexivity].
    destruct (renderer st); [|reflexivity].
    destruct (String.eqb n "Range"); reflexivity. }
  assert (Hpower : forall st2 : State Surface,
            pendingRadarData st2 = pendingRadarData st ->
            pendingRadarData
              (fst match cv_id cv, renderer st2 with
                   | Some i, Some s =>
                       if String.eqb i "power"
                       then (on_surface call
                               (setStandbyMode
                                  match cv_value cv with
                                  | JString v => is_standby v
                                  | _ => false
                                  end
                                  (fst getOperatingHours) (snd getOperatingHours)
                                  (fst hasHoursCapability)
                                  (snd hasHoursCapability)) s st2, Normal)
                       else (st2, Normal)
                   | _, _ => (st2, Normal)
                   end) = pendingRadarData st).
  { intros st2 E. destruct (cv_id cv); [|exact E].
    destruct (renderer st2); [|exact E].
    destruct (String.eqb _ "power"); exact E. }
  destruct name as [n|]; [|exact (Hpower st1 H1)].
  destruct (String.prefix "No Transmit" n); [|exact (Hpower st1 H1)].
  destruct (cv_enabled cv).
  - destruct (set_zone_slot _ _ _ _) as [zones [|err]]; [|exact H1].
    exact (Hpower (set_zones zones st1) H1).
  - exact (Hpower (set_zones _ st1) H1).
Qed.

(** A disabled update stores [null] at the zone index, whatever was
    there, and repeating it changes nothing more. *)
Lemma controlUpdate_disabled_clears (n : string) (cv : ControlValue)
  (st : State Surface) :
  String.prefix "No Transmit" n = true -> cv_enabled cv = false ->
  let idx := N.to_nat (extractNoTxZone n) in
  let st1 := fst (update (Some n) cv st) in
  let st2 := fst (update (Some n) cv st1) in
  array_get (noTransmitAngles st1) idx = Null /\
  noTransmitAngles st2 = noTransmitAngles st1 /\
  (forall j, j <> idx ->
     array_get (noTransmitAngles st1) j = array_get (noTransmitAngles st) j).
Proof.
  intros Hp He idx st1 st2. subst st2 st1.
  rewrite !controlUpdate_zones, Hp, He. fold idx.
  split; [apply array_get_set|].
  split; [apply array_set_idempotent|].
  intros j Hj. now apply array_get_set_ne.
Qed.

(** In every reachable state an enabled No Transmit update throws a
    [TypeError] before anything is written; the power handling that
    follows in [controlUpdate] is skipped as well. *)
Lemma controlUpdate_enabled_throws (n : string) (cv : ControlValue)
  (st : State Surface) :
  String.prefix "No Transmit" n = true -> cv_enabled cv = true ->
  no_zone_object (noTransmitAngles st) ->
  exists err, update (Some n) cv st = (st, Throws err).
Proof.
  intros Hp He Hz. unfold controlUpdate.
  rewrite (No_Transmit_not_Range n Hp), Hp, He.
  assert (Hst : match renderer st with Some _ => st | None => st end = st)
    by (destruct (renderer st); reflexivity).
  rewrite Hst.
  destruct (set_zone_slot_throws (noTransmitAngles st)
              (N.to_nat (extractNoTxZone n)) (extractStartOrEnd n)
              (parseFloat (cv_value cv)) Hz) as [err ->].
  exists err. destruct st; reflexivity.
Qed.

(** C8.  On the empty zone array the viewer starts with, the enabled
    update of the start angle of zone 1 does not write the value into the
    zone: the assignment [noTransmitAngles[idx][start_or_end] = value]
    throws, the array is still empty afterwards, and the same holds for
    the end angle after the zone was cleared by a disabled update. *)
Theorem controlUpdate_enabled_writes_nothing
  (r : option Surface) (schema : option Schema) (pending : option Radar)
  (events : list Event) (value : jsval) :
  let initial := {| renderer := r; RadarMessage := schema;
                    noTransmitAngles := []; pendingRadarData := pending;
                    trace := events |} in
  let enabled := {| cv_id := None; cv_value := value; cv_enabled := true |} in
  let disabled := {| cv_id := None; cv_value := value; cv_enabled := false |} in
  extractNoTxZone "No Transmit start 1" = 1%N /\
  extractStartOrEnd "No Transmit start 1" = 0%nat /\
  extractStartOrEnd "No Transmit end 1" = 1%nat /\
  update (Some "No Transmit start 1") enabled initial =
    (initial, Throws "TypeError: Cannot set properties of undefined") /\
  noTransmitAngles
    (fst (update (Some "No Transmit end 1") disabled initial)) =
    [Hole; Null] /\
  snd (update (Some "No Transmit end 1") enabled
         (fst (update (Some "No Transmit end 1") disabled initial))) =
    Throws "TypeError: Cannot set properties of null".
Proof.
  intros initial enabled disabled. subst initial enabled disabled.
  destruct r; repeat apply conj; reflexivity.
Qed.

End ControlUpdate.

(** [typeof] yields one of eight strings, none of which is ["array"]. *)
Lemma typeof_not_array (v : jsval) : typeof v <> "array".
Proof. destruct v; discriminate. Qed.

(** C9.  Whatever the zone array holds, [typeof noTransmitAngles] is not
    ["array"], the [forEach] that draws the zones is never entered, and
    [drawBackground] issues no [beginPath], [arc] or [fill]: it clears the
    canvas and writes the title. *)
Theorem drawBackground_draws_no_zone (zones : list zone_entry)
  (obj : RenderSurface) (txt : string) :
  (forall v : jsval, typeof v <> "array") /\
  typeof (JArray (map zone_value zones)) = "object" /\
  drawBackground zones obj txt =
    [ setTransform 1 0 0 1 0 0;
      clearRect 0 0 (width obj) (height obj);
      set_fillStyle "lightgrey";
      set_fillStyle "lightblue";
      set_font "bold 16px/1 Verdana, Geneva, sans-serif";
      fillText txt 5 20 ] /\
  Forall (fun op => match op with
                    | beginPath | arc _ _ _ _ _ | fill => False
                    | _ => True
                    end) (drawBackground zones obj txt).
Proof.
  assert (H : drawBackground zones obj txt =
    [ setTransform 1 0 0 1 0 0;
      clearRect 0 0 (width obj) (height obj);
      set_fillStyle "lightgrey";
      set_fillStyle "lightblue";
      set_font "bold 16px/1 Verdana, Geneva, sans-serif";
      fillText txt 5 20 ]) by reflexivity.
  split; [exact typeof_not_array|].
  split; [reflexivity|].
  split; [exact H|].
  rewrite H. repeat constructor.
Qed.

(** Had the test been [Array.isArray], a zone object with a start angle
    would be drawn: the loop body is not vacuous. *)
Lemma draw_zone_draws (obj : RenderSurface) :
  draw_zone obj (Angles (Some 10) (Some 20)) =
  [ beginPath;
    arc (center_x obj) (center_y obj) (beam_length obj * 2)
        (2 * Math_PI * 10 / spokesPerRevolution obj)
        (2 * Math_PI * 20 / spokesPerRevolution obj);
    fill ].
Proof. reflexivity. Qed.

(* ================================================================== *)
(** ** Spoke stream session and readiness gate: theorems *)
(* ================================================================== *)

Section Session.

Context {Surface : Type}.
Variable ready : Surface -> bool.
Variable surface_range : Surface -> option number.
Variable call : RendererCall -> Surface -> Surface.
Variable getPowerState : string.
Variables getOperatingHours hasHoursCapability : jsval * jsval.
Variables location_protocol location_host : string.
Variable parseFloat : jsval -> number.

#[local] Abbreviation loaded :=
  (radarLoaded ready call getPowerState getOperatingHours hasHoursCapability
               location_protocol location_host).
#[local] Abbreviation drain :=
  (drain_pending ready call getPowerState getOperatingHours
                 hasHoursCapability location_protocol location_host).
#[local] Abbreviation setup :=
  (session_setup getPowerState getOperatingHours hasHoursCapability
                 location_protocol location_host).
#[local] Abbreviation hand_over :=
  (deliver ready call getPowerState getOperatingHours hasHoursCapability
           location_protocol location_host).
#[local] Abbreviation run :=
  (page_run ready call getPowerState getOperatingHours hasHoursCapability
            location_protocol location_host).
#[local] Abbreviation message := (onmessage surface_range call).
#[local] Abbreviation messages := (onmessages surface_range call).
#[local] Abbreviation calls_for := (frame_calls surface_range call).
#[local] Abbreviation updates_for := (range_updates surface_range call).
#[local] Abbreviation after := (surface_after surface_range call).
#[local] Abbreviation step :=
  (handler_step ready surface_range call getPowerState getOperatingHours
                hasHoursCapability location_protocol location_host parseFloat).
#[local] Abbreviation reach :=
  (reachable ready surface_range call getPowerState getOperatingHours
             hasHoursCapability location_protocol location_host parseFloat).

(** *** One frame *)

Lemma dispatch_spoke_calls (st : State Surface) (s : Surface) (spoke : Spoke) :
  let st' := dispatch_spoke surface_range call st s spoke in
  trace st' = (trace st ++ calls_for s [spoke])%list /\
  renderer st' = Some (after s [spoke]) /\
  RadarMessage st' = RadarMessage st /\
  noTransmitAngles st' = noTransmitAngles st /\
  pendingRadarData st' = pendingRadarData st.
Proof.
  unfold dispatch_spoke, needs_setRange, range_differs, strict_eq. simpl.
  unfold needs_setRange, range_differs.
  destruct (0 <? range spoke);
    destruct (surface_range (call (drawSpoke spoke) s)) as [current|];
    simpl; try destruct (range spoke =? current); simpl;
    rewrite <- ?app_assoc; simpl; repeat split; reflexivity.
Qed.

Lemma dispatch_spokes_calls (l : list Spoke) (sn : Session)
  (st : State Surface) (s : Surface) :
  renderer st = Some s ->
  exists sn' st',
    dispatch_spokes surface_range call l sn st = (sn', st', Normal) /\
    trace st' = (trace st ++ calls_for s l)%list /\
    renderer st' = Some (after s l) /\
    RadarMessage st' = RadarMessage st /\
    noTransmitAngles st' = noTransmitAngles st /\
    pendingRadarData st' = pendingRadarData st /\
    radar sn' = radar sn /\ messageCount sn' = messageCount sn /\
    lastLogTime sn' = lastLogTime sn.
Proof.
  revert sn st s. induction l as [|spoke rest IH]; intros sn st s Hr.
  - exists sn, st. simpl. rewrite app_nil_r. repeat split; auto.
  - simpl dispatch_spokes. rewrite Hr.
    destruct (dispatch_spoke_calls st s spoke) as (Ht & Hs & Hm & Hz & Hp).
    destruct (IH (set_prev_angle (angle spoke) sn)
                 (dispatch_spoke surface_range call st s spoke) _ Hs)
      as (sn' & st' & Hd & Ht' & Hs' & Hm' & Hz' & Hp' & Hsn).
    exists sn', st'. rewrite Hd, Ht', Hs', Hm', Hz', Hp', Ht, Hm, Hz, Hp.
    rewrite <- app_assoc.
    assert (Hc : calls_for s (spoke :: rest) =
                 (calls_for s [spoke] ++ calls_for (after s [spoke]) rest)%list).
    { simpl. destruct (needs_setRange _ _ _); [reflexivity|].
      destruct (0 <? range spoke); reflexivity. }
    rewrite Hc. repeat split; try reflexivity; apply Hsn.
Qed.

(** The projections of the calls made for the spokes of a frame. *)
Lemma frame_calls_projections (s : Surface) (l : list Spoke) :
  drawn_spokes (calls_for s l) = l /\
  ranges_set (calls_for s l) = updates_for s l /\
  ranges_notified (calls_for s l) =
    List.filter (fun m => 0 <? m) (map range l) /\
  render_count (calls_for s l) = 0%nat /\
  Forall (fun e => ends_session e = false) (calls_for s l).
Proof.
  revert s. induction l as [|spoke rest IH]; intros s.
  - repeat split. constructor.
  - simpl. unfold needs_setRange.
    destruct (0 <? range spoke) eqn:Hpos; simpl.
    + destruct (range_differs surface_range _ spoke); simpl;
        match goal with |- context [calls_for ?s' rest] =>
          destruct (IH s') as (Hd & Hs & Hn & Hr & He) end;
        unfold drawn_spokes, ranges_set, ranges_notified, render_count in *;
        simpl; rewrite Hd, Hs, Hn; repeat split; auto.
    + match goal with |- context [calls_for ?s' rest] =>
        destruct (IH s') as (Hd & Hs & Hn & Hr & He) end.
      unfold drawn_spokes, ranges_set, ranges_notified, render_count in *.
      simpl. rewrite Hd, Hs, Hn. repeat split; auto.
Qed.

Lemma count_message_trace (now : number) (sn : Session) (st : State Surface) :
  let '(sn', st') := count_message now sn st in
  trace st' = (trace st ++ stats_line now sn)%list /\
  same_variables st' st /\ radar sn' = radar sn.
Proof.
  unfold count_message, stats_line, same_variables.
  destruct (5000 <? now - lastLogTime sn); simpl.
  - repeat split; reflexivity.
  - rewrite app_nil_r. repeat split; reflexivity.
Qed.

Lemma nonempty_frame (frame : list Byte.byte) :
  frame <> [] -> Nat.eqb (length frame) 0 = false.
Proof. destruct frame; [congruence|reflexivity]. Qed.

(** A frame that decodes to spokes: the state after the handler. *)
Lemma onmessage_spokes (now : number) (frame : list Byte.byte)
  (sn : Session) (st : State Surface) (schema : Schema)
  (decoded : RadarMessageValue) (s : Surface) :
  RadarMessage st = Some schema -> frame <> [] ->
  decode schema frame = Returned decoded -> spokes decoded <> [] ->
  renderer st = Some s ->
  let st' := snd (message now frame sn st) in
  trace st' = (trace st ++ stats_line now sn ++
               calls_for s (spokes decoded) ++ [Renderer render])%list /\
  renderer st' = Some (call render (after s (spokes decoded))) /\
  RadarMessage st' = RadarMessage st /\
  noTransmitAngles st' = noTransmitAngles st /\
  pendingRadarData st' = pendingRadarData st.
Proof.
  intros Hm Hf Hd Hs Hr. unfold onmessage, onmessage_try.
  pose proof (count_message_trace now sn st) as Hc.
  destruct (count_message now sn st) as [sn1 st1].
  destruct Hc as (Ht1 & (Hr1 & Hm1 & Hz1 & Hp1) & _).
  rewrite (nonempty_frame frame Hf), Hm1, Hm, Hd.
  destruct (spokes decoded) as [|spoke rest] eqn:El; [congruence|].
  rewrite Hr in Hr1.
  destruct (dispatch_spokes_calls (spoke :: rest) sn1 st1 s Hr1)
    as (sn2 & st2 & -> & Ht2 & Hr2 & Hm2 & Hz2 & Hp2 & _).
  rewrite Hr2. simpl.
  rewrite Ht2, Ht1, <- !app_assoc.
  repeat split; congruence.
Qed.

(** C1.  For every inbound binary frame whose decoded message contains
    spokes, the handler calls [renderer.drawSpoke] once per spoke, in the
    order of the frame; calls [renderer.setRange(spoke.range)] for a spoke
    exactly when [spoke.range > 0] and [spoke.range] differs from the range
    the renderer is configured with at that moment; calls
    [setCurrentRange(spoke.range)] for every spoke with [spoke.range > 0];
    and calls [renderer.render()] once, after all the spokes of the
    frame. *)
Theorem onmessage_dispatches_spokes (now : number) (frame : list Byte.byte)
  (sn : Session) (st : State Surface) (schema : Schema)
  (decoded : RadarMessageValue) (s : Surface) :
  RadarMessage st = Some schema -> frame <> [] ->
  decode schema frame = Returned decoded -> spokes decoded <> [] ->
  renderer st = Some s ->
  exists calls,
    trace (snd (message now frame sn st)) =
      (trace st ++ stats_line now sn ++ calls ++ [Renderer render])%list /\
    calls = calls_for s (spokes decoded) /\
    drawn_spokes calls = spokes decoded /\
    ranges_set calls = updates_for s (spokes decoded) /\
    (forall s0 spoke rest,
       updates_for s0 (spoke :: rest) =
       let drawn := call (drawSpoke spoke) s0 in
       if (range spoke >? 0) &&
          match surface_range drawn with
          | Some current => negb (range spoke =? current)
          | None => true
          end
       then range spoke :: updates_for (call (setRange (range spoke)) drawn) rest
       else updates_for drawn rest) /\
    ranges_notified calls =
      List.filter (fun m => m >? 0) (map range (spokes decoded)) /\
    render_count (stats_line now sn ++ calls ++ [Renderer render]) = 1%nat.
Proof.
  intros Hm Hf Hd Hs Hr.
  destruct (onmessage_spokes now frame sn st schema decoded s Hm Hf Hd Hs Hr)
    as (Ht & _).
  destruct (frame_calls_projections s (spokes decoded))
    as (Hdrawn & Hset & Hnot & Hren & _).
  exists (calls_for s (spokes decoded)).
  split; [exact Ht|]. split; [reflexivity|]. split; [exact Hdrawn|].
  split; [exact Hset|]. split; [reflexivity|]. split; [exact Hnot|].
  unfold render_count in *. rewrite !List.filter_app, !length_app, Hren.
  unfold stats_line. destruct (5000 <? now - lastLogTime sn); reflexivity.
Qed.

(** The handler leaves the variables of the viewer alone, whatever the
    frame, when it makes no call on the render surface. *)
Lemma onmessage_no_dispatch (now : number) (frame : list Byte.byte)
  (sn : Session) (st : State Surface) (e : Event) :
  onmessage_try surface_range call now frame sn st =
    (fst (count_message now sn st),
     emit e (snd (count_message now sn st)), Normal) \/
  (exists err,
     onmessage_try surface_range call now frame sn st =
       (fst (count_message now sn st), snd (count_message now sn st),
        Throws err) /\
     e = console error ("Error processing WebSocket message: " ++ err)) ->
  let '(sn', st') := message now frame sn st in
  trace st' = (trace st ++ stats_line now sn ++ [e])%list /\
  same_variables st' st /\
  sn' = fst (count_message now sn st).
Proof.
  intros H. unfold onmessage.
  pose proof (count_message_trace now sn st) as Hc.
  destruct (count_message now sn st) as [sn1 st1].
  destruct Hc as (Ht1 & Hv & _).
  destruct H as [-> | (err & -> & ->)]; simpl;
    rewrite Ht1, <- app_assoc; repeat split; apply Hv.
Qed.

(** Whatever the frame, the handler returns, and what it adds to the trace
    never tears the session down nor acquires a new one; the zone array,
    the pending radar data and the schema are left alone. *)
Lemma onmessage_keeps_session (now : number) (frame : list Byte.byte)
  (sn : Session) (st : State Surface) :
  exists added,
    trace (snd (message now frame sn st)) = (trace st ++ added)%list /\
    Forall (fun e => ends_session e = false) added /\
    radar (fst (message now frame sn st)) = radar sn /\
    RadarMessage (snd (message now frame sn st)) = RadarMessage st /\
    noTransmitAngles (snd (message now frame sn st)) = noTransmitAngles st /\
    pendingRadarData (snd (message now frame sn st)) = pendingRadarData st.
Proof.
  unfold onmessage, onmessage_try.
  pose proof (count_message_trace now sn st) as Hc.
  destruct (count_message now sn st) as [sn1 st1].
  destruct Hc as (Ht1 & (Hr1 & Hm1 & Hz1 & Hp1) & Hsn).
  assert (Hstats : Forall (fun e => ends_session e = false)
                          (stats_line now sn)).
  { unfold stats_line. destruct (_ <? _); repeat constructor. }
  assert (Hone : forall e, ends_session e = false ->
            Forall (fun e => ends_session e = false)
                   (stats_line now sn ++ [e])).
  { intros e He. apply Forall_app. split; [exact Hstats|].
    repeat constructor. exact He. }
  assert (Hlog : forall e, ends_session e = false ->
            exists added,
              trace (emit e st1) = (trace st ++ added)%list /\
              Forall (fun e => ends_session e = false) added /\
              radar sn1 = radar sn /\
              RadarMessage (emit e st1) = RadarMessage st /\
              noTransmitAngles (emit e st1) = noTransmitAngles st /\
              pendingRadarData (emit e st1) = pendingRadarData st).
  { intros e He. eexists. simpl. rewrite Ht1, <- app_assoc.
    split; [reflexivity|]. split; [now apply Hone|]. auto. }
  destruct (Nat.eqb (length frame) 0); [now apply Hlog|].
  destruct (RadarMessage st1) as [schema|] eqn:Em; [|now apply Hlog].
  destruct (decode schema frame) as [decoded|err]; [|now apply Hlog].
  destruct (spokes decoded) as [|spoke rest] eqn:El.
  { exists (stats_line now sn). simpl. repeat split; auto; congruence. }
  destruct (renderer st1) as [s|] eqn:Er.
  - destruct (dispatch_spokes_calls (spoke :: rest) sn1 st1 s Er)
      as (sn2 & st2 & -> & Ht2 & Hr2 & Hm2 & Hz2 & Hp2 & Hsn2 & _).
    rewrite Hr2. eexists. simpl. rewrite Ht2, Ht1, <- !app_assoc.
    split; [reflexivity|]. split; [|repeat split; congruence].
    apply Forall_app. split; [exact Hstats|].
    apply Forall_app. split.
    + apply (frame_calls_projections s (spoke :: rest)).
    + repeat constructor.
  - simpl. rewrite Er. now apply Hlog.
Qed.

(** The three frames that are not dispatched. *)
Lemma onmessage_empty_frame (now : number) (sn : Session)
  (st : State Surface) :
  let '(sn', st') := message now [] sn st in
  trace st' = (trace st ++ stats_line now sn ++
               [console warn "WS message received with 0 bytes"])%list /\
  same_variables st' st /\ sn' = fst (count_message now sn st).
Proof.
  apply onmessage_no_dispatch. left. unfold onmessage_try.
  destruct (count_message now sn st); reflexivity.
Qed.

Lemma onmessage_schema_missing (now : number) (frame : list Byte.byte)
  (sn : Session) (st : State Surface) :
  frame <> [] -> RadarMessage st = None ->
  let '(sn', st') := message now frame sn st in
  trace st' = (trace st ++ stats_line now sn ++
               [console warn "RadarMessage not loaded yet, dropping message"])%list /\
  same_variables st' st /\ sn' = fst (count_message now sn st).
Proof.
  intros Hf Hm. apply onmessage_no_dispatch. left. unfold onmessage_try.
  pose proof (count_message_trace now sn st) as Hc.
  destruct (count_message now sn st) as [sn1 st1].
  destruct Hc as (_ & (_ & Hm1 & _) & _).
  now rewrite (nonempty_frame frame Hf), Hm1, Hm.
Qed.

Lemma onmessage_decode_throws (now : number) (frame : list Byte.byte)
  (sn : Session) (st : State Surface) (schema : Schema) (err : string) :
  frame <> [] -> RadarMessage st = Some schema ->
  decode schema frame = Thrown err ->
  let '(sn', st') := message now frame sn st in
  trace st' = (trace st ++ stats_line now sn ++
               [console error ("Error processing WebSocket message: " ++ err)])%list /\
  same_variables st' st /\ sn' = fst (count_message now sn st).
Proof.
  intros Hf Hm Hd. apply onmessage_no_dispatch. right. exists err.
  split; [|reflexivity]. unfold onmessage_try.
  pose proof (count_message_trace now sn st) as Hc.
  destruct (count_message now sn st) as [sn1 st1].
  destruct Hc as (_ & (_ & Hm1 & _) & _).
  now rewrite (nonempty_frame frame Hf), Hm1, Hm, Hd.
Qed.

(** C3.  No inbound frame terminates the stream session: the handler
    always returns and never restarts or re-opens the stream; a frame of
    zero bytes is logged and skipped; a frame that arrives before
    [RadarMessage] is loaded is logged and dropped, and is not dispatched
    once the schema is there (the next frame alone is); a decode exception
    is caught and logged, and the next frame is decoded and dispatched as
    usual. *)
Theorem onmessage_never_ends_session (now : number) (frame : list Byte.byte)
  (sn : Session) (st : State Surface) :
  let sn1 := fst (message now frame sn st) in
  let st1 := snd (message now frame sn st) in
  (exists added,
     trace st1 = (trace st ++ added)%list /\
     Forall (fun e => ends_session e = false) added /\
     radar sn1 = radar sn) /\
  (frame = [] ->
     trace st1 = (trace st ++ stats_line now sn ++
                  [console warn "WS message received with 0 bytes"])%list /\
     same_variables st1 st) /\
  (frame <> [] -> RadarMessage st = None ->
     (trace st1 = (trace st ++ stats_line now sn ++
        [console warn "RadarMessage not loaded yet, dropping message"])%list /\
      same_variables st1 st) /\
     forall schema now' frame' decoded s,
       frame' <> [] -> decode schema frame' = Returned decoded ->
       spokes decoded <> [] -> renderer st = Some s ->
       trace (snd (message now' frame' sn1 (schema_loaded schema st1))) =
       (trace st1 ++ stats_line now' sn1 ++
        calls_for s (spokes decoded) ++ [Renderer render])%list) /\
  (forall schema err,
     frame <> [] -> RadarMessage st = Some schema ->
     decode schema frame = Thrown err ->
     (trace st1 = (trace st ++ stats_line now sn ++
        [console error ("Error processing WebSocket message: " ++ err)])%list /\
      same_variables st1 st) /\
     forall now' frame' decoded s,
       frame' <> [] -> decode schema frame' = Returned decoded ->
       spokes decoded <> [] -> renderer st = Some s ->
       trace (snd (messages [(now, frame); (now', frame')] sn st)) =
       (trace st1 ++ stats_line now' sn1 ++
        calls_for s (spokes decoded) ++ [Renderer render])%list).
Proof.
  intros sn1 st1.
  split.
  { destruct (onmessage_keeps_session now frame sn st)
      as (added & Ht & Hadd & Hsn & _).
    exists added. auto. }
  split.
  { intros ->. pose proof (onmessage_empty_frame now sn st) as H.
    subst sn1 st1. destruct (message now [] sn st). simpl.
    destruct H as (Ht & Hv & _). exact (conj Ht Hv). }
  split.
  - intros Hf Hm.
    pose proof (onmessage_schema_missing now frame sn st Hf Hm) as H.
    subst sn1 st1. destruct (message now frame sn st) as [sn1 st1]. simpl.
    destruct H as (Ht & Hv & _). split; [exact (conj Ht Hv)|].
    intros schema now' frame' decoded s Hf' Hd' Hs' Hr.
    destruct Hv as (Hr1 & _).
    apply (onmessage_spokes now' frame' sn1 (schema_loaded schema st1)
             schema decoded s); auto.
    simpl. congruence.
  - intros schema err Hf Hm Hd.
    pose proof (onmessage_decode_throws now frame sn st schema err Hf Hm Hd)
      as H.
    subst sn1 st1. simpl messages.
    destruct (message now frame sn st) as [sn1 st1]. simpl fst. simpl snd.
    destruct H as (Ht & Hv & _). split; [exact (conj Ht Hv)|].
    intros now' frame' decoded s Hf' Hd' Hs' Hr.
    destruct Hv as (Hr1 & Hm1 & _).
    pose proof (onmessage_spokes now' frame' sn1 st1 schema decoded s) as H.
    destruct (message now' frame' sn1 st1) as [sn2 st2]. simpl in *.
    apply H; congruence.
Qed.

(** *** The readiness gate *)

Lemma radarLoaded_without_controls (now : number) (r : Radar)
  (st : State Surface) :
  controls r = None -> loaded now r st = (st, None).
Proof. intros H. unfold radarLoaded. now rewrite H. Qed.

Lemma radarLoaded_not_ready (now : number) (r : Radar) (st : State Surface) :
  controls r <> None -> not_ready ready st = true ->
  loaded now r st = (set_pending (Some r) st, None).
Proof.
  intros Hc Hn. unfold radarLoaded, not_ready in *.
  destruct (controls r); [|congruence].
  destruct (renderer st) as [s|]; [|reflexivity]. now rewrite Hn.
Qed.

Lemma radarLoaded_ready (now : number) (r : Radar) (st : State Surface)
  (s : Surface) :
  controls r <> None -> renderer st = Some s -> ready s = true ->
  exists st',
    loaded now r st =
      (st', Some {| radar := r; prev_angle := -1;
                    messageCount := 0; lastLogTime := now |}) /\
    trace st' = (trace st ++ setup r)%list /\
    pendingRadarData st' = pendingRadarData st /\
    noTransmitAngles st' = noTransmitAngles st /\
    RadarMessage st' = RadarMessage st.
Proof.
  intros Hc Hr Hrdy. unfold radarLoaded, session_setup.
  destruct (controls r); [|congruence]. rewrite Hr, Hrdy. simpl.
  eexists. split; [reflexivity|].
  destruct (is_standby getPowerState); simpl;
    rewrite <- ?app_assoc; repeat split; reflexivity.
Qed.

Lemma drains_app (a b : list Event) :
  drains (a ++ b) = (drains a + drains b)%nat.
Proof. unfold drains. now rewrite List.filter_app, length_app. Qed.

Lemma drains_setup (r : Radar) : drains (setup r) = 0%nat.
Proof.
  unfold session_setup. destruct (is_standby getPowerState); reflexivity.
Qed.

(** [radarLoaded] never drains. *)
Lemma radarLoaded_drains (now : number) (r : Radar) (st : State Surface) :
  exists added,
    trace (fst (loaded now r st)) = (trace st ++ added)%list /\
    drains added = 0%nat.
Proof.
  destruct (controls r) as [c|] eqn:Ec.
  2:{ rewrite radarLoaded_without_controls by exact Ec.
      exists []. now rewrite app_nil_r. }
  assert (Hc : controls r <> None) by congruence.
  destruct (not_ready ready st) eqn:En.
  { rewrite radarLoaded_not_ready by assumption.
    exists []. simpl. now rewrite app_nil_r. }
  unfold not_ready in En. destruct (renderer st) as [s|] eqn:Er; [|discriminate].
  apply negb_false_iff in En.
  destruct (radarLoaded_ready now r st s Hc Er En) as (st' & -> & Ht & _).
  exists (setup r). split; [exact Ht|apply drains_setup].
Qed.

Lemma deliver_drains (descriptors : list (number * Radar))
  (st : State Surface) :
  exists added,
    trace (hand_over descriptors st) = (trace st ++ added)%list /\
    drains added = 0%nat.
Proof.
  revert st. induction descriptors as [|[now r] rest IH]; intros st.
  - exists []. simpl. now rewrite app_nil_r.
  - simpl. destruct (radarLoaded_drains now r st) as (a & Ha & Da).
    destruct (IH (fst (loaded now r st))) as (b & Hb & Db).
    exists (a ++ b)%list. rewrite Hb, Ha, <- app_assoc, drains_app, Da, Db.
    auto.
Qed.

(** The continuation of [window.onload] drains once. *)
Lemma drain_pending_drains (now : number) (i : option string)
  (st : State Surface) :
  exists added,
    trace (fst (drain now i st)) = (trace st ++ added)%list /\
    drains added = 1%nat.
Proof.
  unfold drain_pending. destruct (pendingRadarData st) as [r|].
  - destruct (radarLoaded_drains now r
                (emit (console log "Processing deferred radar data") st))
      as (a & Ha & Da).
    destruct (loaded now r _) as [st1 sess]. simpl in *.
    exists (console log "Processing deferred radar data" :: a).
    split; [now rewrite Ha, <- app_assoc|].
    change (console log "Processing deferred radar data" :: a)
      with ([console log "Processing deferred radar data"] ++ a)%list.
    now rewrite drains_app, Da.
  - exists [loadRadar i]. split; reflexivity.
Qed.

(** C2 (amended).  The pending buffer is one variable holding at most one
    descriptor.  A descriptor without [controls] is ignored.  Of two
    descriptors with [controls] that arrive before the render surface is
    ready the second overwrites the first, without any call being made,
    and the drain that follows the initialisation of the surface consumes
    the second one only: its session is set up and its stream opened.  The
    drain leaves the buffer empty; on an empty buffer it issues
    [loadRadar(id)] with the id of the page instead.  Once the surface is
    ready an arriving descriptor no longer touches the buffer.  The
    buffer is drained exactly once: in a run of the page, whatever
    descriptors arrive before and after, the trace records one drain, by
    the continuation of [window.onload], and [radarLoaded] never drains;
    with the two descriptors before it, the run sets up the deferred
    session of the second one once, and nothing that follows is a
    drain. *)
Theorem pending_buffer_last_wins (now1 now2 now3 : number) (r1 r2 : Radar)
  (st : State Surface) (s : Surface) (id : option string) :
  not_ready ready st = true ->
  controls r1 <> None -> controls r2 <> None -> ready s = true ->
  let st1 := fst (loaded now1 r1 st) in
  let st2 := fst (loaded now2 r2 st1) in
  let st3 := fst (drain now3 id (surface_initialised s st2)) in
  let started := snd (drain now3 id (surface_initialised s st2)) in
  pendingRadarData st1 = Some r1 /\
  pendingRadarData st2 = Some r2 /\
  trace st2 = trace st /\
  pendingRadarData st3 = None /\
  trace st3 = (trace st ++
               console log "Processing deferred radar data" :: setup r2)%list /\
  started = Some {| radar := r2; prev_angle := -1;
                    messageCount := 0; lastLogTime := now3 |} /\
  (forall now r st0, controls r = None -> loaded now r st0 = (st0, None)) /\
  (forall now st0,
     pendingRadarData (fst (drain now id st0)) = None) /\
  (forall now st0, pendingRadarData st0 = None ->
     drain now id st0 = (emit (loadRadar id) st0, None)) /\
  (forall now r st0 s0, renderer st0 = Some s0 -> ready s0 = true ->
     pendingRadarData (fst (loaded now r st0)) = pendingRadarData st0) /\
  (forall early s0 now late st0,
     drains (trace (run early s0 now id late st0)) =
     S (drains (trace st0))) /\
  (forall late,
     exists added,
       trace (run [(now1, r1); (now2, r2)] s now3 id late st) =
         (trace st ++
          (console log "Processing deferred radar data" :: setup r2) ++
          added)%list /\
       drains added = 0%nat).
Proof.
  intros Hn H1 H2 Hrdy st1 st2 st3 started.
  assert (E1 : st1 = set_pending (Some r1) st)
    by (subst st1; now rewrite radarLoaded_not_ready).
  assert (Hn1 : not_ready ready st1 = true) by (rewrite E1; exact Hn).
  assert (E2 : st2 = set_pending (Some r2) st1)
    by (subst st2; now rewrite radarLoaded_not_ready).
  split; [now rewrite E1|]. split; [now rewrite E2|].
  split; [now rewrite E2, E1|].
  assert (Hd : exists st',
            drain now3 id (surface_initialised s st2) =
              (set_pending None st',
               Some {| radar := r2; prev_angle := -1;
                       messageCount := 0; lastLogTime := now3 |}) /\
            trace st' = (trace st ++ console log "Processing deferred radar data"
                                  :: setup r2)%list).
  { unfold drain_pending. rewrite E2. simpl pendingRadarData. cbv iota.
    destruct (radarLoaded_ready now3 r2
                (emit (console log "Processing deferred radar data")
                      (surface_initialised s (set_pending (Some r2) st1)))
                s H2 eq_refl Hrdy) as (st' & -> & Ht & _).
    exists st'. split; [reflexivity|].
    rewrite Ht, E1. simpl. now rewrite <- app_assoc. }
  destruct Hd as (st' & Hd & Ht).
  subst st3 started. rewrite Hd. simpl.
  split; [reflexivity|]. split; [exact Ht|]. split; [reflexivity|].
  split; [intros; now apply radarLoaded_without_controls|].
  split.
  { intros now st0. unfold drain_pending.
    destruct (pendingRadarData st0) as [r|] eqn:E; [|exact E].
    now destruct (loaded now r _). }
  split.
  { intros now st0 E. unfold drain_pending. now rewrite E. }
  split.
  { intros now r st0 s0 Hr0 Hrdy0.
    destruct (controls r) as [c|] eqn:Ec.
    - destruct (radarLoaded_ready now r st0 s0) as (st0' & -> & _ & Hp & _);
        [congruence|assumption|assumption|exact Hp].
    - now rewrite radarLoaded_without_controls. }
  split.
  { intros early s0 now late st0. unfold page_run.
    destruct (deliver_drains early st0) as (a & Ha & Da).
    destruct (drain_pending_drains now id
                (surface_initialised s0 (hand_over early st0)))
      as (b & Hb & Db).
    destruct (deliver_drains late
                (fst (drain now id
                        (surface_initialised s0 (hand_over early st0)))))
      as (c & Hc & Dc).
    rewrite Hc, Hb. simpl trace. rewrite Ha, !drains_app, Da, Db, Dc. lia. }
  intros late. unfold page_run.
  change (hand_over [(now1, r1); (now2, r2)] st) with st2.
  destruct (deliver_drains late
              (fst (drain now3 id (surface_initialised s st2))))
    as (c & Hc & Dc).
  exists c. split; [|exact Dc].
  rewrite Hc, Hd. simpl. now rewrite Ht, <- app_assoc.
Qed.

(** *** Invariants of the reachable states *)

Lemma radarLoaded_variables (now : number) (r : Radar) (st : State Surface) :
  noTransmitAngles (fst (loaded now r st)) = noTransmitAngles st /\
  (pendingRadarData (fst (loaded now r st)) = pendingRadarData st \/
   pendingRadarData (fst (loaded now r st)) = Some r /\ controls r <> None).
Proof.
  destruct (controls r) as [c|] eqn:Ec.
  2:{ rewrite radarLoaded_without_controls by exact Ec. auto. }
  assert (Hc : controls r <> None) by congruence.
  destruct (not_ready ready st) eqn:En.
  { rewrite radarLoaded_not_ready by assumption. simpl. auto. }
  unfold not_ready in En. destruct (renderer st) as [s|] eqn:Er; [|discriminate].
  apply negb_false_iff in En.
  destruct (radarLoaded_ready now r st s Hc Er En) as (st' & -> & _ & Hp & Hz & _).
  simpl. auto.
Qed.

(** In every reachable state the zone array holds no object and the
    pending buffer holds nothing or a descriptor that carries [controls]. *)
Lemma reachable_invariant (st : State Surface) :
  reach st ->
  no_zone_object (noTransmitAngles st) /\
  (forall r, pendingRadarData st = Some r -> controls r <> None).
Proof.
  induction 1 as [|st st' _ [IHz IHp] Hstep].
  - split; [constructor|discriminate].
  - destruct Hstep as [now r st|now id st|now frame sn st|ev sn st|name cv st
                      |s st|schema st].
    + destruct (radarLoaded_variables now r st) as (Hz & [Hp|[Hp Hc]]).
      * rewrite Hz, Hp. auto.
      * rewrite Hz, Hp. split; [exact IHz|]. intros r' E.
        injection E as <-. exact Hc.
    + unfold drain_pending.
      destruct (pendingRadarData st) as [r|] eqn:Ep; [|simpl; rewrite Ep; auto].
      pose proof (radarLoaded_variables now r
                    (emit (console log "Processing deferred radar data") st))
        as (Hz & _).
      destruct (loaded now r _) as [st1 sess]. simpl in *.
      rewrite Hz. split; [exact IHz|discriminate].
    + destruct (onmessage_keeps_session now frame sn st)
        as (_ & _ & _ & _ & _ & Hz & Hp).
      rewrite Hz, Hp. auto.
    + auto.
    + rewrite (controlUpdate_pending call getOperatingHours hasHoursCapability
                 parseFloat name cv st).
      split; [|exact IHp]. now apply controlUpdate_no_object.
    + auto.
    + auto.
Qed.

(** No reachable state lets an enabled No Transmit update write its
    value. *)
Lemma reachable_enabled_update_throws (st : State Surface) (n : string)
  (cv : ControlValue) :
  reach st ->
  String.prefix "No Transmit" n = true -> cv_enabled cv = true ->
  exists err,
    controlUpdate call getOperatingHours hasHoursCapability parseFloat
                  (Some n) cv st = (st, Throws err).
Proof.
  intros Hr Hp He. apply controlUpdate_enabled_throws; try assumption.
  now apply reachable_invariant.
Qed.

End Session.

(** C2, as stated, fails: a second descriptor that carries no [controls]
    is ignored, and the first one stays in the buffer to be drained. *)
Lemma pending_buffer_counterexample :
  let r1 := sample_radar "r1" (Some (JObject "Object")) in
  let r2 := sample_radar "r2" None in
  let st2 := fst (sample_radarLoaded 2 r2
                    (fst (sample_radarLoaded 1 r1 initial_state))) in
  not_ready rs_ready initial_state = true /\
  pendingRadarData st2 = Some r1 /\
  snd (sample_drain_pending 3 (Some "r0")
         (surface_initialised rs_initialised st2)) =
    Some {| radar := r1; prev_angle := -1;
            messageCount := 0; lastLogTime := 3 |} /\
  ~ second_descriptor_buffered.
Proof.
  repeat apply conj; try reflexivity.
  intros H.
  specialize (H initial_state 1 2 (sample_radar "r1" (Some (JObject "Object")))
                (sample_radar "r2" None) eq_refl).
  vm_compute in H. discriminate H.
Qed.

(** Two descriptors with [controls] before the surface is ready: the
    second one is buffered and drained; in the run of the page with a
    third descriptor after the drain, one drain. *)
Lemma pending_buffer_last_wins_witness :
  let r1 := sample_radar "r1" (Some (JObject "Object")) in
  let r2 := sample_radar "r2" (Some (JObject "Object")) in
  let st2 := fst (sample_radarLoaded 2 r2
                    (fst (sample_radarLoaded 1 r1 initial_state))) in
  pendingRadarData st2 = Some r2 /\
  snd (sample_drain_pending 3 (Some "r0")
         (surface_initialised rs_initialised st2)) =
    Some {| radar := r2; prev_angle := -1;
            messageCount := 0; lastLogTime := 3 |} /\
  drains (trace (sample_page_run [(1, r1); (2, r2)] rs_initialised 3
                   (Some "r0") [(4, r1)] initial_state)) = 1%nat.
Proof.
  intros r1 r2 st2.
  destruct (pending_buffer_last_wins rs_ready rs_call "transmit"
              (JNumber 0, JNumber 0) (JBoolean false, JBoolean false)
              "http:" "localhost" 1 2 3 r1 r2 initial_state rs_initialised
              (Some "r0"))
    as (_ & Hp & _ & _ & _ & Hs & _ & _ & _ & _ & Hrun & _);
    [reflexivity|discriminate|discriminate|reflexivity|].
  split; [exact Hp|]. split; [exact Hs|].
  exact (Hrun [(1, r1); (2, r2)] rs_initialised 3 [(4, r1)] initial_state).
Defined.

(** A frame of three spokes with the ranges 1852, 1852 and 0 on a surface
    without a range: one [setRange], two [setCurrentRange], one [render]. *)
Lemma onmessage_dispatches_spokes_witness :
  exists calls,
    trace (snd (sample_onmessage 1000 [Byte.x01] sample_session
                  (sample_state (Some sample_schema)))) =
      (calls ++ [Renderer render])%list /\
    drawn_spokes calls =
      [sample_spoke 0 1852; sample_spoke 1 1852; sample_spoke 2 0] /\
    ranges_set calls = [1852] /\
    ranges_notified calls = [1852; 1852].
Proof.
  destruct (onmessage_dispatches_spokes rs_range rs_call 1000 [Byte.x01]
              sample_session (sample_state (Some sample_schema))
              sample_schema
              {| spokes := [sample_spoke 0 1852; sample_spoke 1 1852;
                            sample_spoke 2 0] |}
              rs_initialised)
    as (calls & Ht & Hc & Hd & Hs & _ & Hn & _);
    [reflexivity|discriminate|reflexivity|discriminate|reflexivity|].
  exists calls. split; [exact Ht|]. split; [exact Hd|].
  split; [rewrite Hs|rewrite Hn]; reflexivity.
Defined.

(** An empty frame, a frame before the schema is loaded, a frame that does
    not decode, and the good frame that follows it. *)
Lemma onmessage_never_ends_session_witness :
  trace (snd (sample_onmessage 1000 [] sample_session (sample_state None))) =
    [console warn "WS message received with 0 bytes"] /\
  trace (snd (sample_onmessage 1000 [Byte.x01] sample_session
                (sample_state None))) =
    [console warn "RadarMessage not loaded yet, dropping message"] /\
  trace (snd (sample_onmessage 1000 [Byte.x02] sample_session
                (sample_state (Some sample_schema)))) =
    [console error
       "Error processing WebSocket message: Error: invalid wire type"] /\
  drawn_spokes
    (trace (snd (onmessages rs_range rs_call
                   [(1000, [Byte.x02]); (1001, [Byte.x01])] sample_session
                   (sample_state (Some sample_schema))))) =
    [sample_spoke 0 1852; sample_spoke 1 1852; sample_spoke 2 0].
Proof.
  destruct (onmessage_never_ends_session rs_range rs_call 1000 []
              sample_session (sample_state None)) as (_ & Hempty & _).
  destruct (onmessage_never_ends_session rs_range rs_call 1000 [Byte.x01]
              sample_session (sample_state None)) as (_ & _ & Hdrop & _).
  destruct (onmessage_never_ends_session rs_range rs_call 1000 [Byte.x02]
              sample_session (sample_state (Some sample_schema)))
    as (_ & _ & _ & Hthrow).
  destruct (Hempty eq_refl) as (H1 & _).
  destruct Hdrop as ((H2 & _) & _); [discriminate|reflexivity|].
  destruct (Hthrow sample_schema "Error: invalid wire type")
    as ((H3 & _) & H4); [discriminate|reflexivity|reflexivity|].
  split; [exact H1|]. split; [exact H2|]. split; [exact H3|].
  assert (H5 := H4 1001 [Byte.x01]
             {| spokes := [sample_spoke 0 1852; sample_spoke 1 1852;
                           sample_spoke 2 0] |} rs_initialised).
  exact (eq_trans
           (f_equal drawn_spokes
              (H5 ltac:(discriminate) eq_refl ltac:(discriminate) eq_refl))
           eq_refl).
Defined.

(* ================================================================== *)
(** ** The stream socket over time: theorems *)
(* ================================================================== *)

Section SocketCoverage.

Context {Surface : Type}.
Variable ready : Surface -> bool.
Variable surface_range : Surface -> option number.
Variable call : RendererCall -> Surface -> Surface.
Variable getPowerState : string.
Variables getOperatingHours hasHoursCapability : jsval * jsval.
Variables location_protocol location_host : string.
Variable parseFloat : jsval -> number.

#[local] Abbreviation message := (onmessage surface_range call).
#[local] Abbreviation messages := (onmessages surface_range call).
#[local] Abbreviation run := (socket_run surface_range call).
#[local] Abbreviation loaded :=
  (radarLoaded ready call getPowerState getOperatingHours hasHoursCapability
               location_protocol location_host).
#[local] Abbreviation setup :=
  (session_setup getPowerState getOperatingHours hasHoursCapability
                 location_protocol location_host).
#[local] Abbreviation resolve :=
  (resolve_streamUrl location_protocol location_host).
#[local] Abbreviation update :=
  (controlUpdate call getOperatingHours hasHoursCapability parseFloat).
#[local] Abbreviation reach :=
  (reachable ready surface_range call getPowerState getOperatingHours
             hasHoursCapability location_protocol location_host parseFloat).

Lemma stats_line_projections (now : number) (sn : Session) :
  drawn_spokes (stats_line now sn) = [] /\
  ranges_notified (stats_line now sn) = [] /\
  ranges_set (stats_line now sn) = [] /\
  render_count (stats_line now sn) = 0%nat.
Proof.
  unfold stats_line. destruct (_ <? _); repeat split; reflexivity.
Qed.

Lemma render_count_app (a b : list Event) :
  render_count (a ++ b) = (render_count a + render_count b)%nat.
Proof. unfold render_count. now rewrite List.filter_app, length_app. Qed.

(** A frame that decodes to a message without spokes. *)
Lemma onmessage_no_spokes (now : number) (frame : list Byte.byte)
  (sn : Session) (st : State Surface) (schema : Schema)
  (decoded : RadarMessageValue) :
  RadarMessage st = Some schema -> frame <> [] ->
  decode schema frame = Returned decoded -> spokes decoded = [] ->
  let st' := snd (message now frame sn st) in
  trace st' = (trace st ++ stats_line now sn)%list /\ same_variables st' st.
Proof.
  intros Hm Hf Hd Hs. unfold onmessage, onmessage_try.
  pose proof (count_message_trace now sn st) as Hc.
  destruct (count_message now sn st) as [sn1 st1].
  destruct Hc as (Ht1 & Hv & _).
  assert (Hm1 : RadarMessage st1 = RadarMessage st) by apply Hv.
  rewrite (nonempty_frame frame Hf), Hm1, Hm, Hd, Hs. simpl.
  split; assumption.
Qed.

(** What one frame adds, the schema being loaded and the surface there. *)
Lemma onmessage_frame (now : number) (frame : list Byte.byte)
  (sn : Session) (st : State Surface) (schema : Schema) (s : Surface) :
  RadarMessage st = Some schema -> renderer st = Some s ->
  let st' := snd (message now frame sn st) in
  drawn_spokes (trace st') =
    (drawn_spokes (trace st) ++ frame_spokes schema frame)%list /\
  ranges_notified (trace st') =
    (ranges_notified (trace st) ++
     positive_ranges (frame_spokes schema frame))%list /\
  render_count (trace st') =
    (render_count (trace st) +
     match frame_spokes schema frame with [] => 0 | _ :: _ => 1 end)%nat /\
  RadarMessage st' = Some schema /\
  exists s', renderer st' = Some s'.
Proof.
  intros Hm Hr.
  destruct (stats_line_projections now sn) as (Sd & Sn & _ & Sr).
  destruct frame as [|b frame].
  { pose proof (onmessage_empty_frame surface_range call now sn st) as H.
    destruct (message now [] sn st) as [sn' st'].
    destruct H as (Ht & (Hr' & Hm' & _) & _). simpl.
    rewrite Ht. unfold drawn_spokes, ranges_notified in *.
    rewrite !flat_map_app, !render_count_app, Sd, Sn, Sr. simpl.
    rewrite ?app_nil_r, ?Nat.add_0_r.
    repeat apply conj; try congruence; try lia. exists s. congruence. }
  assert (Hf : b :: frame <> []) by discriminate.
  unfold frame_spokes.
  destruct (decode schema (b :: frame)) as [decoded|err] eqn:Hd.
  2:{ pose proof (onmessage_decode_throws surface_range call now (b :: frame)
                    sn st schema err Hf Hm Hd) as H.
      destruct (message now (b :: frame) sn st) as [sn' st'].
      destruct H as (Ht & (Hr' & Hm' & _) & _). simpl.
      rewrite Ht. unfold drawn_spokes, ranges_notified in *.
      rewrite !flat_map_app, !render_count_app, Sd, Sn, Sr. simpl.
      rewrite ?app_nil_r, ?Nat.add_0_r.
      repeat apply conj; try congruence; try lia. exists s. congruence. }
  destruct (spokes decoded) as [|spoke rest] eqn:Hs.
  { destruct (onmessage_no_spokes now (b :: frame) sn st schema decoded
                Hm Hf Hd Hs) as (Ht & Hr' & Hm' & _).
    rewrite Ht. unfold drawn_spokes, ranges_notified in *.
    rewrite !flat_map_app, !render_count_app, Sd, Sn, Sr. simpl.
    rewrite ?app_nil_r, ?Nat.add_0_r.
    repeat apply conj; try congruence; try lia. exists s. congruence. }
  assert (Hne : spokes decoded <> []) by (rewrite Hs; discriminate).
  destruct (onmessage_spokes surface_range call now (b :: frame) sn st schema
              decoded s Hm Hf Hd Hne Hr) as (Ht & Hr' & Hm' & _).
  destruct (frame_calls_projections surface_range call s (spokes decoded))
    as (Fd & _ & Fn & Fr & _).
  rewrite Hs in Ht, Fd, Fn, Fr.
  rewrite Ht. unfold drawn_spokes, ranges_notified, positive_ranges in *.
  rewrite !flat_map_app, !render_count_app, Sd, Sn, Sr, Fd, Fn, Fr.
  simpl. rewrite ?app_nil_r.
  repeat apply conj; try congruence; try reflexivity. eexists. exact Hr'.
Qed.

(** X1.  Over any sequence of frames delivered to a socket, the schema
    being loaded and the render surface present, the spokes drawn are
    the spokes of the frames that decode, in the order of arrival:
    nothing is dropped, duplicated or reordered, and a frame that is empty
    or does not decode contributes nothing.  [setCurrentRange] is called
    for every positive spoke range, and [render] once per frame that
    carries spokes. *)
Theorem onmessages_draw_every_spoke_in_order
  (frames : list (number * list Byte.byte)) (sn : Session)
  (st : State Surface) (schema : Schema) (s : Surface) :
  RadarMessage st = Some schema -> renderer st = Some s ->
  let st' := snd (messages frames sn st) in
  drawn_spokes (trace st') =
    (drawn_spokes (trace st) ++
     flat_map (fun f => frame_spokes schema (snd f)) frames)%list /\
  ranges_notified (trace st') =
    (ranges_notified (trace st) ++
     positive_ranges
       (flat_map (fun f => frame_spokes schema (snd f)) frames))%list /\
  render_count (trace st') =
    (render_count (trace st) +
     length (List.filter
               (fun f => match frame_spokes schema (snd f) with
                         | [] => false
                         | _ :: _ => true
                         end) frames))%nat.
Proof.
  revert sn st s.
  induction frames as [|[now frame] rest IH]; intros sn st s Hm Hr.
  - simpl. rewrite !app_nil_r, Nat.add_0_r. auto.
  - simpl.
    destruct (onmessage_frame now frame sn st schema s Hm Hr)
      as (Hd & Hn & Hc & Hm' & s' & Hr').
    destruct (message now frame sn st) as [sn1 st1]. simpl in *.
    destruct (IH sn1 st1 s' Hm' Hr') as (Id & In & Ic).
    rewrite Id, In, Ic, Hd, Hn, Hc. unfold positive_ranges.
    rewrite !map_app, !List.filter_app, <- !app_assoc.
    repeat split.
    destruct (frame_spokes schema frame); simpl; lia.
Qed.

Lemma no_session_event (added : list Event) :
  Forall (fun e => ends_session e = false) added ->
  restarts added = [] /\ sockets_opened added = [].
Proof.
  induction 1 as [|e l He _ [IHr IHs]]; [auto|].
  unfold restarts, sockets_opened in *. simpl. rewrite IHr, IHs.
  destruct e; try discriminate; auto.
Qed.

(** X2.  Over any interleaving of frames and close events on a socket,
    [restart] is called once per close, each time with the id of the
    radar of the session, and never by a frame; the handlers of the
    socket never open a socket themselves. *)
Theorem socket_run_restarts_once_per_close (events : list SocketEvent)
  (sn : Session) (st : State Surface) :
  let st' := snd (run events sn st) in
  restarts (trace st') =
    (restarts (trace st) ++
     repeat (id (radar sn)) (length (List.filter is_close events)))%list /\
  sockets_opened (trace st') = sockets_opened (trace st) /\
  radar (fst (run events sn st)) = radar sn.
Proof.
  revert sn st. induction events as [|[now frame|e] rest IH]; intros sn st.
  - simpl. rewrite app_nil_r. auto.
  - simpl.
    destruct (onmessage_keeps_session surface_range call now frame sn st)
      as (added & Ht & Hf & Hrad & _).
    destruct (no_session_event added Hf) as (Hr & Hs).
    destruct (message now frame sn st) as [sn1 st1]. simpl in *.
    destruct (IH sn1 st1) as (Ir & Is & Irad).
    rewrite Ir, Is, Irad, Hrad, Ht. unfold restarts, sockets_opened in *.
    rewrite !flat_map_app, Hr, Hs, !app_nil_r. auto.
  - simpl. destruct (IH sn (onclose e sn st)) as (Ir & Is & Irad).
    rewrite Ir, Is, Irad. unfold onclose, restarts, sockets_opened. simpl.
    rewrite !flat_map_app. simpl. rewrite <- !app_assoc, !app_nil_r.
    auto.
Qed.

(** X3.  The URL the stream socket is opened to is never the empty string
    nor the text [undefined] or [null]: a usable URL provided by the
    server is taken as it is, and in every other case the SignalK stream
    URL of the radar is built from the location of the page, with [wss:]
    exactly when the page was served over [https:]. *)
Theorem resolve_streamUrl_usable (r : Radar) :
  let built :=
    (if String.eqb location_protocol "https:" then "wss:" else "ws:") ++
    "//" ++ location_host ++ "/signalk/v2/api/vessels/self/radars/" ++
    id r ++ "/stream" in
  resolve r <> EmptyString /\ resolve r <> "undefined" /\
  resolve r <> "null" /\
  (resolve r = built \/ streamUrl r = Some (resolve r)) /\
  (resolve r = built <->
   streamUrl r = None \/ streamUrl r = Some EmptyString \/
   streamUrl r = Some "undefined" \/ streamUrl r = Some "null" \/
   streamUrl r = Some built).
Proof.
  intros built.
  assert (Hb : built <> EmptyString /\ built <> "undefined" /\
               built <> "null").
  { subst built. destruct (String.eqb location_protocol "https:");
      repeat split; discriminate. }
  unfold resolve_streamUrl. fold built.
  destruct (streamUrl r) as [u|]; [|intuition congruence].
  destruct (String.eqb_spec u EmptyString) as [->|H1]; simpl;
    [intuition congruence|].
  destruct (String.eqb_spec u "undefined") as [->|H2]; simpl;
    [intuition congruence|].
  destruct (String.eqb_spec u "null") as [->|H3]; simpl;
    [intuition congruence|].
  repeat split; try assumption; auto.
  - intros ->. auto 6.
  - intros [H|[H|[H|[H|H]]]]; congruence.
Qed.

Lemma session_setup_projections (r : Radar) :
  sockets_opened (setup r) = [resolve r] /\
  drawn_spokes (setup r) = [] /\
  exists standby,
    renderer_calls (setup r) =
      ([ setLegend (buildMayaraLegend (pixelValues r));
         setSpokes (radar_spokesPerRevolution r) (maxSpokeLen r);
         setPixelValues (pixelValues r);
         setBrand (brand r) ] ++ standby)%list /\
    (is_standby getPowerState = false -> standby = []) /\
    (is_standby getPowerState = true ->
     standby = [ setStandbyMode true
                   (fst getOperatingHours) (snd getOperatingHours)
                   (fst hasHoursCapability) (snd hasHoursCapability) ]).
Proof.
  unfold session_setup.
  destruct (is_standby getPowerState); simpl;
    (split; [reflexivity|]; split; [reflexivity|]);
    eexists; (split; [reflexivity|]); split; congruence.
Qed.

Lemma radarLoaded_renderer (now : number) (r : Radar) (st : State Surface) :
  renderer (fst (loaded now r st)) = None -> renderer st = None.
Proof.
  unfold radarLoaded. destruct (controls r); [|auto].
  destruct (renderer st) as [s|] eqn:Er; [|auto].
  destruct (ready s); simpl; [|now rewrite Er].
  destruct (is_standby getPowerState); simpl; discriminate.
Qed.

(** X4.  [radarLoaded] opens a stream exactly when the descriptor carries
    [controls] and the render surface is there and ready.  It then
    configures the surface first (legend, spokes, pixel values, brand,
    and standby mode when the radar is in standby or off) and opens one
    socket, to the resolved URL, last.  In every other case it makes no
    call at all: nothing is logged, configured or opened. *)
Theorem radarLoaded_opens_stream_iff_ready (now : number) (r : Radar)
  (st : State Surface) :
  let st' := fst (loaded now r st) in
  (snd (loaded now r st) <> None <->
   controls r <> None /\ not_ready ready st = false) /\
  (snd (loaded now r st) = None ->
   trace st' = trace st /\ renderer st' = renderer st) /\
  (snd (loaded now r st) <> None ->
   exists configured,
     trace st' =
       (trace st ++ map Renderer configured ++
        [ console log ("Connecting to radar stream: " ++ resolve r);
          newWebSocket (resolve r) ])%list /\
     renderer_calls (setup r) = configured /\
     sockets_opened (trace st') =
       (sockets_opened (trace st) ++ [resolve r])%list).
Proof.
  intros st'. subst st'.
  destruct (controls r) as [c|] eqn:Ec.
  2:{ rewrite radarLoaded_without_controls by exact Ec. simpl.
      repeat split; try tauto; try congruence; try (intros [H _]; congruence). }
  assert (Hc : controls r <> None) by congruence.
  destruct (not_ready ready st) eqn:En.
  { rewrite (radarLoaded_not_ready ready call getPowerState getOperatingHours
               hasHoursCapability location_protocol location_host now r st
               Hc En). simpl.
    repeat split; try tauto; try congruence; try (intros [_ H]; congruence). }
  pose proof En as En'. unfold not_ready in En'.
  destruct (renderer st) as [s|] eqn:Er; [|discriminate].
  apply negb_false_iff in En'.
  destruct (radarLoaded_ready ready call getPowerState getOperatingHours
              hasHoursCapability location_protocol location_host now r st s
              Hc Er En') as (st1 & E & Ht & _).
  rewrite E. simpl.
  split; [split; [auto|discriminate]|]. split; [discriminate|].
  intros _. exists (renderer_calls (setup r)).
  split; [|split; [reflexivity|]].
  - rewrite Ht. f_equal. unfold session_setup.
    destruct (is_standby getPowerState); reflexivity.
  - rewrite Ht. unfold sockets_opened. rewrite flat_map_app. f_equal.
    apply session_setup_projections.
Qed.

(** *** The range of the render surface *)

Lemma positive_eqb_refl (a : number) : (0 <? a) = true -> (a =? a) = true.
Proof.
  rewrite ltb_spec, FloatAxioms.eqb_spec. known_constant 0. unfold SFltb, SFeqb.
  destruct (Prim2SF a) as [s|s| |s m e]; simpl; try discriminate.
  - destruct s; [discriminate|reflexivity].
  - rewrite Z.compare_refl, Pos.compare_cont_refl. destruct s; reflexivity.
Qed.

Lemma positive_eqb_eq (a b : number) :
  (0 <? a) = true -> (a =? b) = true -> a = b.
Proof.
  rewrite ltb_spec, FloatAxioms.eqb_spec. known_constant 0. unfold SFltb, SFeqb.
  intros Ha Hab. apply Prim2SF_inj. revert Ha Hab.
  destruct (Prim2SF a) as [sa|sa| |sa ma ea],
           (Prim2SF b) as [sb|sb| |sb mb eb]; simpl;
    try discriminate;
    try (destruct sa; discriminate);
    try (destruct sa, sb; simpl; congruence).
  destruct sa; [discriminate|]. intros _.
  destruct sb; [discriminate|].
  destruct (Z.compare_spec ea eb) as [->| |]; try discriminate.
  destruct (Pos.compare_cont Eq ma mb) eqn:E; try discriminate.
  apply Pos.compare_eq in E. now subst.
Qed.

Section RangeStoringSurface.

(** A render surface that stores the range it is given, and whose range
    drawing a spoke does not change. *)
Hypothesis setRange_stores :
  forall m s, surface_range (call (setRange m) s) = Some m.
Hypothesis drawSpoke_keeps_range :
  forall spoke s, surface_range (call (drawSpoke spoke) s) = surface_range s.

Hypothesis render_keeps_range :
  forall s, surface_range (call render s) = surface_range s.

(** Every range set differs from the range the surface had, and what
    follows may start from the range the spokes leave behind. *)
Lemma range_updates_differ (l : list Spoke) (s : Surface)
  (rest : list number) :
  each_differs (surface_range (surface_after surface_range call s l)) rest ->
  each_differs (surface_range s)
               (range_updates surface_range call s l ++ rest).
Proof.
  revert s. induction l as [|spoke l IH]; intros s Hrest; [exact Hrest|].
  simpl in *. unfold needs_setRange, range_differs in *.
  rewrite drawSpoke_keeps_range in *.
  destruct ((0 <? range spoke) &&
            match surface_range s with
            | Some current => negb (range spoke =? current)
            | None => true
            end) eqn:E.
  - simpl. split.
    + apply andb_true_iff in E as [_ E].
      destruct (surface_range s); [now apply negb_true_iff|exact I].
    + rewrite <- (setRange_stores (range spoke) (call (drawSpoke spoke) s)).
      now apply IH.
  - rewrite <- (drawSpoke_keeps_range spoke s). now apply IH.
Qed.

Lemma range_updates_steady (l : list Spoke) (s : Surface) (current : number) :
  surface_range s = Some current ->
  Forall (keeps_range current) l ->
  range_updates surface_range call s l = [] /\
  surface_range (surface_after surface_range call s l) = Some current.
Proof.
  intros Hs Hl. revert s Hs.
  induction Hl as [|spoke l Hsp _ IH]; intros s Hs; [auto|].
  simpl. unfold needs_setRange, range_differs.
  rewrite drawSpoke_keeps_range, Hs.
  assert (E : (0 <? range spoke) && negb (range spoke =? current) = false).
  { destruct (0 <? range spoke) eqn:Hp; [|reflexivity].
    destruct Hsp as [<-|H]; [|congruence].
    now rewrite (positive_eqb_refl _ Hp). }
  rewrite E. apply IH. now rewrite drawSpoke_keeps_range.
Qed.

Lemma surface_after_range (l : list Spoke) (s : Surface) :
  surface_range (surface_after surface_range call s l) =
  final_range (surface_range s) l.
Proof.
  revert s. induction l as [|spoke l IH]; intros s; [reflexivity|].
  simpl. rewrite IH. unfold final_range. f_equal.
  unfold needs_setRange, range_differs. rewrite drawSpoke_keeps_range.
  destruct (0 <? range spoke) eqn:Hp; simpl;
    [|apply drawSpoke_keeps_range].
  destruct (surface_range s) as [current|] eqn:Hs;
    [|apply setRange_stores].
  destruct (range spoke =? current) eqn:E; simpl;
    [|apply setRange_stores].
  rewrite drawSpoke_keeps_range, Hs.
  now rewrite (positive_eqb_eq _ _ Hp E).
Qed.

Lemma frame_surface_range (l : list Spoke) (s : Surface) :
  surface_range (frame_surface surface_range call s l) =
  surface_range (surface_after surface_range call s l).
Proof. destruct l; [reflexivity|apply render_keeps_range]. Qed.

(** What the handler makes of one frame: the surface it leaves and the
    ranges it sets. *)
Lemma onmessage_frame_ranges (now : number) (frame : list Byte.byte)
  (sn : Session) (st : State Surface) (schema : Schema) (s : Surface) :
  RadarMessage st = Some schema -> renderer st = Some s ->
  let st' := snd (message now frame sn st) in
  RadarMessage st' = Some schema /\
  renderer st' =
    Some (frame_surface surface_range call s (frame_spokes schema frame)) /\
  ranges_set (trace st') =
    (ranges_set (trace st) ++
     range_updates surface_range call s (frame_spokes schema frame))%list.
Proof.
  intros Hm Hr.
  destruct (stats_line_projections now sn) as (_ & _ & Ss & _).
  assert (Hquiet : forall (e : list Event) (st' : State Surface),
            ranges_set e = [] ->
            trace st' = (trace st ++ stats_line now sn ++ e)%list ->
            same_variables st' st ->
            RadarMessage st' = Some schema /\ renderer st' = Some s /\
            ranges_set (trace st') = (ranges_set (trace st) ++ [])%list).
  { intros e st' He Ht (Hr' & Hm' & _). rewrite Ht. unfold ranges_set in *.
    rewrite !flat_map_app, Ss, He. simpl.
    repeat apply conj; congruence. }
  destruct frame as [|b frame].
  { pose proof (onmessage_empty_frame surface_range call now sn st) as H.
    destruct (message now [] sn st) as [sn' st'].
    destruct H as (Ht & Hv & _). simpl.
    refine (Hquiet _ st' _ Ht Hv); reflexivity. }
  assert (Hf : b :: frame <> []) by discriminate.
  unfold frame_spokes.
  destruct (decode schema (b :: frame)) as [decoded|err] eqn:Hd.
  2:{ pose proof (onmessage_decode_throws surface_range call now (b :: frame)
                    sn st schema err Hf Hm Hd) as H.
      destruct (message now (b :: frame) sn st) as [sn' st'].
      destruct H as (Ht & Hv & _). simpl.
      refine (Hquiet _ st' _ Ht Hv); reflexivity. }
  destruct (spokes decoded) as [|spoke rest] eqn:Hs.
  { destruct (onmessage_no_spokes now (b :: frame) sn st schema decoded
                Hm Hf Hd Hs) as (Ht & Hv).
    apply (Hquiet [] _ eq_refl); [|exact Hv]. now rewrite app_nil_r. }
  assert (Hne : spokes decoded <> []) by (rewrite Hs; discriminate).
  destruct (onmessage_spokes surface_range call now (b :: frame) sn st schema
              decoded s Hm Hf Hd Hne Hr) as (Ht & Hr' & Hm' & _).
  destruct (frame_calls_projections surface_range call s (spokes decoded))
    as (_ & Fs & _).
  rewrite Hs in Ht, Hr', Fs.
  split; [congruence|]. split; [exact Hr'|].
  rewrite Ht. unfold ranges_set in *.
  rewrite !flat_map_app, Ss, Fs. simpl. now rewrite app_nil_r.
Qed.

(** The ranges a stream of frames sets. *)
Lemma onmessages_ranges (schema : Schema)
  (frames : list (number * list Byte.byte)) (sn : Session)
  (st : State Surface) (s : Surface) :
  RadarMessage st = Some schema -> renderer st = Some s ->
  let st' := snd (messages frames sn st) in
  let all := flat_map (fun f => frame_spokes schema (snd f)) frames in
  exists s' updates,
    renderer st' = Some s' /\
    ranges_set (trace st') = (ranges_set (trace st) ++ updates)%list /\
    surface_range s' = final_range (surface_range s) all /\
    (forall rest, each_differs (surface_range s') rest ->
                  each_differs (surface_range s) (updates ++ rest)) /\
    (forall current, surface_range s = Some current ->
       Forall (keeps_range current) all -> updates = []).
Proof.
  revert sn st s.
  induction frames as [|[now frame] frames IH]; intros sn st s Hm Hr.
  - exists s, []. simpl. rewrite app_nil_r. auto.
  - simpl.
    destruct (onmessage_frame_ranges now frame sn st schema s Hm Hr)
      as (Hm1 & Hr1 & Ht1).
    destruct (message now frame sn st) as [sn1 st1]. simpl in Hm1, Hr1, Ht1.
    set (l := frame_spokes schema frame) in *.
    set (s1 := frame_surface surface_range call s l) in *.
    assert (Hs1 : surface_range s1 =
                  surface_range (surface_after surface_range call s l))
      by apply frame_surface_range.
    destruct (IH sn1 st1 s1 Hm1 Hr1) as (s' & updates & Hr' & Ht' & Hf & Hd & Hk).
    exists s', (range_updates surface_range call s l ++ updates)%list.
    split; [exact Hr'|]. split; [now rewrite Ht', Ht1, <- app_assoc|].
    split.
    { rewrite Hf, Hs1, surface_after_range. unfold final_range.
      now rewrite fold_left_app. }
    split.
    { intros rest Hrest. rewrite <- app_assoc.
      apply range_updates_differ. rewrite <- Hs1. now apply Hd. }
    intros current Hc Hall. apply Forall_app in Hall as [Hl Hrest].
    destruct (range_updates_steady l s current Hc Hl) as (-> & Hafter).
    simpl. apply (Hk current); [congruence|exact Hrest].
Qed.

End RangeStoringSurface.

(** X5.  On a render surface that stores the range it is given and
    keeps it while spokes are drawn and the picture is rendered, the
    handler of the stream makes the spokes authoritative for the range
    and calls [setRange] on changes only.  Over any sequence of frames,
    the schema being loaded and the surface present: the range of the
    surface the handler leaves is that of the last spoke with a positive
    range (unchanged when there is none); every range the handler passes
    to [setRange] differs from the one it passed before, and the first
    from the range the surface had; and if every spoke carries the range
    the surface has, or no positive range, the handler never calls
    [setRange]. *)
Theorem onmessages_set_range_on_change_only (schema : Schema)
  (frames : list (number * list Byte.byte)) (sn : Session)
  (st : State Surface) (s : Surface) :
  (forall m s, surface_range (call (setRange m) s) = Some m) ->
  (forall spoke s,
     surface_range (call (drawSpoke spoke) s) = surface_range s) ->
  (forall s, surface_range (call render s) = surface_range s) ->
  RadarMessage st = Some schema -> renderer st = Some s ->
  let st' := snd (messages frames sn st) in
  let all := flat_map (fun f => frame_spokes schema (snd f)) frames in
  exists s' updates,
    renderer st' = Some s' /\
    ranges_set (trace st') = (ranges_set (trace st) ++ updates)%list /\
    surface_range s' = final_range (surface_range s) all /\
    each_differs (surface_range s) updates /\
    (forall current, surface_range s = Some current ->
       Forall (keeps_range current) all -> updates = []).
Proof.
  intros Hset Hdraw Hrender Hm Hr st' all.
  destruct (onmessages_ranges Hset Hdraw Hrender schema frames sn st s Hm Hr)
    as (s' & updates & Hr' & Ht & Hf & Hd & Hk).
  exists s', updates. repeat apply conj; try assumption.
  rewrite <- (app_nil_r updates). apply Hd. exact I.
Qed.

(** *** The calls of [controlUpdate] *)

Lemma controlUpdate_calls (name : option string) (cv : ControlValue)
  (st : State Surface) :
  exists added,
    trace (fst (update name cv st)) = (trace st ++ added)%list /\
    Forall range_or_standby added /\
    (length added <= 2)%nat /\
    (renderer st = None -> added = []) /\
    (name <> Some "Range" -> cv_id cv <> Some "power" -> added = []) /\
    (forall s, name = Some "Range" -> renderer st = Some s ->
       exists rest,
         added = Renderer (setRange (parseFloat (cv_value cv))) :: rest) /\
    (renderer (fst (update name cv st)) = None -> renderer st = None) /\
    RadarMessage (fst (update name cv st)) = RadarMessage st.
Proof.
  unfold controlUpdate.
  destruct name as [n|]; destruct (renderer st) as [s|] eqn:Er;
    try destruct (String.eqb_spec n "Range") as [->|Hn]; simpl;
    try destruct (String.prefix "No Transmit" n); simpl;
    try destruct (cv_enabled cv); simpl;
    try destruct (set_zone_slot _ _ _ _) as [zones [|err]]; simpl;
    rewrite ?Er; simpl;
    destruct (cv_id cv) as [i|]; simpl;
    try destruct (String.eqb_spec i "power") as [->|Hi]; simpl;
    rewrite <- ?app_assoc; simpl;
    eexists; (split; [try reflexivity; symmetry; apply app_nil_r|]);
    (split; [repeat constructor|]); (split; [simpl; lia|]);
    repeat apply conj; try reflexivity; try congruence; intros;
    try congruence; try (eexists; reflexivity).
Qed.

(** X6.  [controlUpdate] acts on the render surface through [setRange]
    and [setStandbyMode] only, and makes at most two calls: none without
    a renderer, none for a control that is neither [Range] nor [power];
    the value of a [Range] control is passed to [setRange] first,
    whatever else the update does or throws.  It never touches the
    pending radar data or the schema. *)
Theorem controlUpdate_calls_setRange_and_setStandbyMode_only
  (name : option string) (cv : ControlValue) (st : State Surface) :
  exists added,
    trace (fst (update name cv st)) = (trace st ++ added)%list /\
    Forall range_or_standby added /\
    (length added <= 2)%nat /\
    (renderer st = None -> added = []) /\
    (name <> Some "Range" -> cv_id cv <> Some "power" -> added = []) /\
    (forall s, name = Some "Range" -> renderer st = Some s ->
       exists rest,
         added = Renderer (setRange (parseFloat (cv_value cv))) :: rest) /\
    pendingRadarData (fst (update name cv st)) = pendingRadarData st /\
    RadarMessage (fst (update name cv st)) = RadarMessage st.
Proof.
  destruct (controlUpdate_calls name cv st)
    as (added & Ht & Hf & Hl & Hn & Ho & Hr & _ & Hm).
  exists added. repeat apply conj; try assumption.
  apply controlUpdate_pending.
Qed.

(** *** What is never done before the page is ready *)

Lemma grows_safely_same (a b : State Surface) :
  trace b = trace a -> renderer b = renderer a ->
  RadarMessage b = RadarMessage a -> grows_safely a b.
Proof.
  intros Ht Hr Hm. exists []. rewrite app_nil_r, Hr, Hm. auto.
Qed.

Lemma grows_safely_trans (a b c : State Surface) :
  grows_safely a b -> grows_safely b c -> grows_safely a c.
Proof.
  intros (x & Hx & Hxr & Hxm) (y & Hy & Hyr & Hym).
  exists (x ++ y)%list. rewrite Hy, Hx, <- app_assoc.
  split; [reflexivity|].
  unfold renderer_calls, sockets_opened, drawn_spokes in *.
  rewrite !flat_map_app. split.
  - intros H. destruct (Hyr H) as (Hb & -> & ->).
    destruct (Hxr Hb) as (Ha & -> & ->). auto.
  - intros H. destruct (Hym H) as (Hb & ->).
    destruct (Hxm Hb) as (Ha & ->). auto.
Qed.

Lemma grows_safely_emit (e : Event) (st : State Surface) :
  renderer_calls [e] = [] -> sockets_opened [e] = [] ->
  grows_safely st (emit e st).
Proof.
  intros Hc Hs. exists [e]. split; [reflexivity|]. rewrite Hc, Hs.
  repeat split; try assumption.
  destruct e as [[]| | | | |]; try reflexivity; discriminate.
Qed.

Lemma grows_safely_radarLoaded (now : number) (r : Radar)
  (st : State Surface) :
  grows_safely st (fst (loaded now r st)).
Proof.
  destruct (controls r) as [c|] eqn:Ec.
  2:{ rewrite radarLoaded_without_controls by exact Ec.
      now apply grows_safely_same. }
  assert (Hc : controls r <> None) by congruence.
  destruct (not_ready ready st) eqn:En.
  { rewrite (radarLoaded_not_ready ready call getPowerState getOperatingHours
               hasHoursCapability location_protocol location_host now r st
               Hc En).
    now apply grows_safely_same. }
  pose proof (radarLoaded_renderer now r st) as Hnone.
  pose proof En as En'. unfold not_ready in En'.
  destruct (renderer st) as [s|] eqn:Er; [|discriminate].
  apply negb_false_iff in En'.
  destruct (radarLoaded_ready ready call getPowerState getOperatingHours
              hasHoursCapability location_protocol location_host now r st s
              Hc Er En') as (st1 & E & Ht & _ & _ & Hm).
  rewrite E in *. simpl in *. exists (setup r). split; [exact Ht|].
  split; [intros H; specialize (Hnone H); discriminate|].
  intros H. split; [congruence|]. apply session_setup_projections.
Qed.

Lemma grows_safely_drain_pending (now : number) (i : option string)
  (st : State Surface) :
  grows_safely st
    (fst (drain_pending ready call getPowerState getOperatingHours
            hasHoursCapability location_protocol location_host now i st)).
Proof.
  unfold drain_pending. destruct (pendingRadarData st) as [r|].
  - pose proof (grows_safely_radarLoaded now r
                  (emit (console log "Processing deferred radar data") st))
      as H.
    destruct (loaded now r _) as [st1 sess]. simpl in *.
    apply (grows_safely_trans _
             (emit (console log "Processing deferred radar data") st));
      [apply grows_safely_emit; reflexivity|].
    apply (grows_safely_trans _ st1); [exact H|].
    now apply grows_safely_same.
  - simpl. now apply grows_safely_emit.
Qed.

Lemma grows_safely_quiet (now : number) (sn : Session) (l : list Event)
  (st st' : State Surface) :
  renderer_calls l = [] -> sockets_opened l = [] -> drawn_spokes l = [] ->
  trace st' = (trace st ++ stats_line now sn ++ l)%list ->
  same_variables st' st -> grows_safely st st'.
Proof.
  intros Hc Hs Hd Ht (Hr & Hm & _).
  exists (stats_line now sn ++ l)%list. split; [exact Ht|]. rewrite Hr, Hm.
  unfold renderer_calls, sockets_opened, drawn_spokes in *.
  rewrite !flat_map_app, Hc, Hs, Hd. unfold stats_line.
  destruct (_ <? _); simpl; auto.
Qed.

Lemma dispatch_without_renderer (now : number) (frame : list Byte.byte)
  (sn : Session) (st : State Surface) (schema : Schema)
  (decoded : RadarMessageValue) :
  RadarMessage st = Some schema -> frame <> [] ->
  decode schema frame = Returned decoded -> spokes decoded <> [] ->
  renderer st = None ->
  let '(sn', st') := message now frame sn st in
  trace st' =
    (trace st ++ stats_line now sn ++
     [console error ("Error processing WebSocket message: " ++
                     "TypeError: renderer is undefined")])%list /\
  same_variables st' st /\ sn' = fst (count_message now sn st).
Proof.
  intros Hm Hf Hd Hs Hr. apply onmessage_no_dispatch. right.
  exists "TypeError: renderer is undefined". split; [|reflexivity].
  unfold onmessage_try.
  pose proof (count_message_trace now sn st) as Hc.
  destruct (count_message now sn st) as [sn1 st1].
  destruct Hc as (_ & (Hr1 & Hm1 & _) & _).
  rewrite (nonempty_frame frame Hf), Hm1, Hm, Hd.
  destruct (spokes decoded) as [|spoke rest]; [congruence|].
  simpl. now rewrite Hr1, Hr.
Qed.

Lemma grows_safely_onmessage (now : number) (frame : list Byte.byte)
  (sn : Session) (st : State Surface) :
  grows_safely st (snd (message now frame sn st)).
Proof.
  destruct frame as [|b frame].
  { pose proof (onmessage_empty_frame surface_range call now sn st) as H.
    destruct (message now [] sn st) as [sn' st'].
    destruct H as (Ht & Hv & _).
    eapply grows_safely_quiet; [| | |exact Ht|exact Hv]; reflexivity. }
  assert (Hf : b :: frame <> []) by discriminate.
  destruct (RadarMessage st) as [schema|] eqn:Hm.
  2:{ pose proof (onmessage_schema_missing surface_range call now
                    (b :: frame) sn st Hf Hm) as H.
      destruct (message now (b :: frame) sn st) as [sn' st'].
      destruct H as (Ht & Hv & _).
      eapply grows_safely_quiet; [| | |exact Ht|exact Hv]; reflexivity. }
  destruct (decode schema (b :: frame)) as [decoded|err] eqn:Hd.
  2:{ pose proof (onmessage_decode_throws surface_range call now (b :: frame)
                    sn st schema err Hf Hm Hd) as H.
      destruct (message now (b :: frame) sn st) as [sn' st'].
      destruct H as (Ht & Hv & _).
      eapply grows_safely_quiet; [| | |exact Ht|exact Hv]; reflexivity. }
  destruct (spokes decoded) as [|spoke rest] eqn:Hs.
  { destruct (onmessage_no_spokes now (b :: frame) sn st schema decoded
                Hm Hf Hd Hs) as (Ht & Hv).
    apply (grows_safely_quiet now sn []); try reflexivity; [|exact Hv].
    now rewrite app_nil_r. }
  assert (Hne : spokes decoded <> []) by (rewrite Hs; discriminate).
  destruct (renderer st) as [s|] eqn:Hr.
  2:{ pose proof (dispatch_without_renderer now (b :: frame) sn st schema
                    decoded Hm Hf Hd Hne Hr) as H.
      destruct (message now (b :: frame) sn st) as [sn' st'].
      destruct H as (Ht & Hv & _).
      eapply grows_safely_quiet; [| | |exact Ht|exact Hv]; reflexivity. }
  destruct (onmessage_spokes surface_range call now (b :: frame) sn st schema
              decoded s Hm Hf Hd Hne Hr) as (Ht & Hr' & Hm' & _).
  eexists. split; [exact Ht|]. rewrite Hr', Hm', Hm.
  split; discriminate.
Qed.

Lemma range_or_standby_quiet (added : list Event) :
  Forall range_or_standby added ->
  sockets_opened added = [] /\ drawn_spokes added = [].
Proof.
  induction 1 as [|e l He _ [IHs IHd]]; [auto|].
  unfold sockets_opened, drawn_spokes in *. simpl. rewrite IHs, IHd.
  destruct e as [[]| | | | |]; try contradiction; auto.
Qed.

Lemma grows_safely_controlUpdate (name : option string) (cv : ControlValue)
  (st : State Surface) :
  grows_safely st (fst (update name cv st)).
Proof.
  destruct (controlUpdate_calls name cv st)
    as (added & Ht & Hf & _ & Hn & _ & _ & Hr & Hm).
  destruct (range_or_standby_quiet added Hf) as (Hs & Hd).
  exists added. split; [exact Ht|]. rewrite Hm, Hs, Hd.
  split; [|auto]. intros H. specialize (Hr H). now rewrite (Hn Hr).
Qed.

Lemma grows_safely_step (st st' : State Surface) :
  handler_step ready surface_range call getPowerState getOperatingHours
               hasHoursCapability location_protocol location_host parseFloat
               st st' ->
  grows_safely st st'.
Proof.
  intros [now r st0|now i st0|now frame sn st0|e sn st0|name cv st0
         |s st0|schema st0].
  - apply grows_safely_radarLoaded.
  - apply grows_safely_drain_pending.
  - apply grows_safely_onmessage.
  - unfold onclose.
    eapply grows_safely_trans; [|apply grows_safely_emit; reflexivity].
    apply grows_safely_emit; reflexivity.
  - apply grows_safely_controlUpdate.
  - exists []. simpl. rewrite app_nil_r. split; [reflexivity|].
    split; [discriminate|auto].
  - exists []. simpl. rewrite app_nil_r. split; [reflexivity|].
    split; [auto|discriminate].
Qed.

(** X7.  In every state the page can reach, whatever the order in which
    the callbacks run and the two initialisations complete: as long as
    [renderer] is undefined no call has been made on a render surface and
    no stream socket has been opened, and as long as [RadarMessage] is
    undefined no spoke has been drawn. *)
Theorem nothing_drawn_before_ready (st : State Surface) :
  reach st ->
  (renderer st = None ->
   renderer_calls (trace st) = [] /\ sockets_opened (trace st) = []) /\
  (RadarMessage st = None -> drawn_spokes (trace st) = []).
Proof.
  induction 1 as [|st st' _ [IHr IHm] Hstep]; [auto|].
  destruct (grows_safely_step st st' Hstep) as (added & Ht & Hr & Hm).
  rewrite Ht. unfold renderer_calls, sockets_opened, drawn_spokes in *.
  rewrite !flat_map_app. split.
  - intros H. destruct (Hr H) as (H0 & -> & ->).
    destruct (IHr H0) as (-> & ->). auto.
  - intros H. destruct (Hm H) as (H0 & ->). now rewrite (IHm H0).
Qed.

(** X8.  In every state the page can reach, the zone array holds holes
    and [null] only, never an object with angles: an enabled No Transmit
    update can therefore never store its value, it throws and leaves the
    state as it was; and the pending buffer only ever holds a descriptor
    that carries [controls]. *)
Theorem reachable_zones_hold_no_angles (st : State Surface) :
  reach st ->
  no_zone_object (noTransmitAngles st) /\
  (forall r, pendingRadarData st = Some r -> controls r <> None) /\
  (forall n cv,
     String.prefix "No Transmit" n = true -> cv_enabled cv = true ->
     exists err, update (Some n) cv st = (st, Throws err)).
Proof.
  intros Hr.
  destruct (reachable_invariant ready surface_range call getPowerState
              getOperatingHours hasHoursCapability location_protocol
              location_host parseFloat st Hr) as (Hz & Hp).
  split; [exact Hz|]. split; [exact Hp|]. intros n cv Hn He.
  now apply controlUpdate_enabled_throws.
Qed.

End SocketCoverage.

(** A frame that does not decode, a good frame, an empty frame and a
    second good frame: six spokes drawn, two renders. *)
Lemma onmessages_draw_every_spoke_in_order_witness :
  let frames := [ (1000, [Byte.x02]); (1001, [Byte.x01]); (1002, []);
                  (1003, [Byte.x01]) ] in
  let st' := snd (onmessages rs_range rs_call frames sample_session
                    (sample_state (Some sample_schema))) in
  drawn_spokes (trace st') =
    [ sample_spoke 0 1852; sample_spoke 1 1852; sample_spoke 2 0;
      sample_spoke 0 1852; sample_spoke 1 1852; sample_spoke 2 0 ] /\
  ranges_notified (trace st') = [1852; 1852; 1852; 1852] /\
  render_count (trace st') = 2%nat.
Proof.
  intros frames st'.
  destruct (onmessages_draw_every_spoke_in_order rs_range rs_call frames
              sample_session (sample_state (Some sample_schema))
              sample_schema rs_initialised eq_refl eq_refl)
    as (Hd & Hn & Hc).
  split; [exact Hd|]. split; [exact Hn|exact Hc].
Defined.

(** The sample frame (ranges 1852, 1852 and none) twice, after a frame
    that does not decode, on a surface without a range: one [setRange],
    and 1852 m in the end. *)
Lemma onmessages_set_range_on_change_only_witness :
  let frames := [ (1000, [Byte.x02]); (1001, [Byte.x01]);
                  (1002, [Byte.x01]) ] in
  let st' := snd (onmessages rs_range rs_call frames sample_session
                    (sample_state (Some sample_schema))) in
  ranges_set (trace st') = [1852] /\
  option_map rs_range (renderer st') = Some (Some 1852).
Proof.
  intros frames st'.
  destruct (onmessages_set_range_on_change_only rs_range rs_call
              sample_schema frames sample_session
              (sample_state (Some sample_schema)) rs_initialised
              (fun _ _ => eq_refl) (fun _ _ => eq_refl) (fun _ => eq_refl)
              eq_refl eq_refl)
    as (s' & updates & Hr & Ht & Hf & _).
  split; [reflexivity|]. fold st' in Hr. rewrite Hr. simpl.
  f_equal. exact Hf.
Defined.

(** A descriptor buffered, the schema loaded, and a frame of spokes that
    arrives before the render surface exists: an error is logged, nothing
    is drawn. *)
Lemma nothing_drawn_before_ready_witness :
  let st1 := fst (sample_radarLoaded 1 (sample_radar "r1" (Some (JObject "Object")))
                    initial_state) in
  let st2 := snd (sample_onmessage 1000 [Byte.x01] sample_session
                    (schema_loaded sample_schema st1)) in
  sample_reachable st2 /\ renderer st2 = None /\
  trace st2 =
    [console error
       "Error processing WebSocket message: TypeError: renderer is undefined"] /\
  renderer_calls (trace st2) = [] /\ sockets_opened (trace st2) = [].
Proof.
  intros st1 st2.
  assert (Hreach : sample_reachable st2).
  { apply reachable_step with (st := schema_loaded sample_schema st1);
      [|apply step_onmessage].
    apply reachable_step with (st := st1); [|apply step_schema_loaded].
    apply reachable_step with (st := initial_state);
      [apply reachable_initial|].
    apply (step_radarLoaded _ rs_ready rs_range rs_call "transmit"
             (JNumber 0, JNumber 0) (JBoolean false, JBoolean false)
             "http:" "localhost" sample_parseFloat 1
             (sample_radar "r1" (Some (JObject "Object"))) initial_state). }
  destruct (nothing_drawn_before_ready rs_ready rs_range rs_call "transmit"
              (JNumber 0, JNumber 0) (JBoolean false, JBoolean false)
              "http:" "localhost" sample_parseFloat st2 Hreach)
    as (Hr & _).
  destruct (Hr eq_refl) as (Hc & Hs).
  split; [exact Hreach|]. split; [reflexivity|]. split; [reflexivity|].
  split; [exact Hc|exact Hs].
Defined.

(** Zone 1 cleared by a disabled update on the initial state: the
    enabled update of its end angle throws. *)
Lemma reachable_zones_hold_no_angles_witness :
  let disabled := {| cv_id := None; cv_value := JNumber 90;
                     cv_enabled := false |} in
  let enabled := {| cv_id := None; cv_value := JNumber 90;
                    cv_enabled := true |} in
  let st := fst (sample_controlUpdate (Some "No Transmit start 1") disabled
                   initial_state) in
  sample_reachable st /\ noTransmitAngles st = [Hole; Null] /\
  exists err,
    sample_controlUpdate (Some "No Transmit end 1") enabled st =
      (st, Throws err).
Proof.
  intros disabled enabled st.
  assert (Hreach : sample_reachable st).
  { apply reachable_step with (st := initial_state);
      [apply reachable_initial|].
    apply (step_controlUpdate _ rs_ready rs_range rs_call "transmit"
             (JNumber 0, JNumber 0) (JBoolean false, JBoolean false)
             "http:" "localhost" sample_parseFloat
             (Some "No Transmit start 1") disabled initial_state). }
  destruct (reachable_zones_hold_no_angles rs_ready rs_range rs_call
              "transmit" (JNumber 0, JNumber 0) (JBoolean false, JBoolean false)
              "http:" "localhost" sample_parseFloat st Hreach)
    as (_ & _ & Hthrows).
  split; [exact Hreach|]. split; [reflexivity|].
  apply Hthrows; reflexivity.
Defined.

(* ================================================================== *)
(** ** The legend over every pixel-value count of a byte: theorems *)
(* ================================================================== *)

Lemma of_uint63_of_Z (n : PrimInt63.int) :
  of_uint63 n = of_Z (Uint63.to_Z n).
Proof.
  unfold of_Z. rewrite <- of_uint63_spec. symmetry. apply SF2Prim_Prim2SF.
Qed.

Lemma is_byte_spec (x : number) :
  is_byte x = true -> exists k : Z, (0 <= k <= 255)%Z /\ x = of_Z k.
Proof.
  unfold is_byte. destruct (frshiftexp x) as [m e].
  intros H. apply andb_true_iff in H as [Hle Heq].
  apply Uint63.leb_spec in Hle. apply Leibniz.eqb_spec in Heq.
  eexists. split; [|rewrite <- Heq; apply of_uint63_of_Z].
  split; [apply Uint63.to_Z_bounded|exact Hle].
Qed.

Lemma fast_floor_eq (x : number) : fast_floor x = Math_floor x.
Proof.
  unfold fast_floor, Math_floor.
  destruct (Prim2SF x) as [s|s| |s m e]; try reflexivity.
  destruct s; [reflexivity|]. destruct e as [|p|p]; try reflexivity.
  cbv zeta.
  assert (E : Z.shiftr (Zpos m) (Zpos p) = Qfloor (Q_of_fin false m (Zneg p))).
  { unfold Q_of_fin, Qfloor. rewrite Z.shiftr_div_pow2 by lia.
    now rewrite Pos2Z.inj_pow. }
  rewrite <- E.
  destruct (Z.eqb_spec (Z.shiftr (Zpos m) (Zpos p)) 0) as [|Hnz];
    [reflexivity|].
  destruct (Z.ltb_spec (Z.shiftr (Zpos m) (Zpos p)) (2 ^ 62)) as [Hlt|];
    [|reflexivity].
  rewrite of_uint63_of_Z, Uint63.of_Z_spec. f_equal.
  apply Z.mod_small. split.
  - apply Z.shiftr_nonneg. lia.
  - eapply Z.lt_trans; [exact Hlt|]. reflexivity.
Qed.

Lemma fast_legend_entry_eq (pixelValues i : number) :
  fast_legend_entry pixelValues i = legend_entry pixelValues i.
Proof.
  unfold fast_legend_entry, legend_entry. now rewrite !fast_floor_eq.
Qed.

Lemma index_numbers_spec :
  index_numbers = map (fun i : nat => of_Z (Z.of_nat i)) (seq 0 257).
Proof. vm_compute. reflexivity. Qed.

Lemma index_numbers_nth (i : nat) :
  (i <= 256)%nat -> nth i index_numbers nan = of_Z (Z.of_nat i).
Proof.
  intros Hi. rewrite index_numbers_spec.
  rewrite (nth_indep _ nan (of_Z (Z.of_nat 0)))
    by (rewrite length_map, length_seq; lia).
  rewrite (map_nth (fun i : nat => of_Z (Z.of_nat i))), seq_nth by lia.
  reflexivity.
Qed.

Lemma fast_legend_eq (pixelValues : nat) :
  (pixelValues <= 256)%nat ->
  (nth pixelValues index_numbers nan <? 2) = false ->
  buildMayaraLegend (Some (of_Z (Z.of_nat pixelValues))) =
  fast_legend pixelValues.
Proof.
  intros Hp H2. unfold fast_legend, buildMayaraLegend, effective_pixelValues.
  rewrite index_numbers_nth in * by exact Hp. rewrite H2.
  rewrite index_numbers_spec, firstn_map.
  change 257%nat with (256 + 1)%nat. rewrite seq_app, firstn_app.
  rewrite length_seq, Nat.sub_diag, firstn_O, app_nil_r.
  rewrite firstn_all2 by (rewrite length_seq; lia).
  rewrite map_map. apply map_ext. intros i.
  symmetry. apply fast_legend_entry_eq.
Qed.

Lemma legend_survey : forallb legend_surveyed (seq 3 254) = true.
Proof. vm_compute. reflexivity. Qed.

Lemma legend_surveyed_spec (pixelValues : nat) :
  (3 <= pixelValues <= 256)%nat ->
  let legend := buildMayaraLegend (Some (of_Z (Z.of_nat pixelValues))) in
  forallb (fun p => colour_ok (fst p) (snd p))
          (combine (seq 0 256) legend) = true /\
  entry_eqb (nth 1 legend []) [0; 85; 255; 255] = true /\
  entry_eqb (nth (pixelValues - 1) legend []) saturated_red = true /\
  warms_up (firstn (pixelValues - 1) (skipn 1 legend)) = true.
Proof.
  intros Hp legend.
  pose proof (proj1 (forallb_forall _ _) legend_survey pixelValues) as H.
  assert (Hin : In pixelValues (seq 3 254)) by (apply in_seq; lia).
  specialize (H Hin). unfold legend_surveyed in H.
  repeat (apply andb_true_iff in H; destruct H as [H ?]).
  apply negb_true_iff in H.
  subst legend. rewrite fast_legend_eq by (lia || assumption). auto.
Qed.

Lemma entry_eqb_eq (a b : rgba) : entry_eqb a b = true -> a = b.
Proof.
  unfold entry_eqb. revert b.
  induction a as [|x a IH]; intros [|y b]; simpl; try discriminate; auto.
  intros H. apply andb_true_iff in H as [Hl H].
  apply andb_true_iff in H as [Hxy H].
  apply Leibniz.eqb_spec in Hxy. subst y. f_equal.
  apply IH. now rewrite Hl.
Qed.

Lemma warms_up_spec (l : list rgba) (j : nat) (a b : rgba) :
  warms_up l = true ->
  nth_error l j = Some a -> nth_error l (S j) = Some b ->
  (channel 0 a <=? channel 0 b) = true /\
  (channel 2 b <=? channel 2 a) = true.
Proof.
  revert j. induction l as [|x l IH]; intros j Hw Ha Hb.
  - destruct j; discriminate.
  - destruct l as [|y l]; [destruct j as [|[]]; discriminate|].
    simpl in Hw. apply andb_true_iff in Hw as [Hxy Hw].
    apply andb_true_iff in Hxy as [Hr Hbl].
    destruct j as [|j].
    + simpl in Ha, Hb. injection Ha as <-. injection Hb as <-. auto.
    + apply (IH j); assumption.
Qed.

Lemma combine_nth_error_In {A B} (l1 : list A) (l2 : list B) (i : nat)
  (a : A) (b : B) :
  nth_error l1 i = Some a -> nth_error l2 i = Some b ->
  In (a, b) (combine l1 l2).
Proof.
  revert l2 i. induction l1 as [|x l1 IH]; intros [|y l2] [|i] Ha Hb;
    try discriminate.
  - injection Ha as <-. injection Hb as <-. now left.
  - right. now apply (IH l2 i).
Qed.

(** X9.  For every pixel-value count from 3 to 256 every entry of the
    legend is a colour a canvas accepts: red, green and blue are integers
    between 0 and 255, never NaN, negative or fractional, and alpha is 0
    at index 0 and 255 elsewhere. *)
Theorem buildMayaraLegend_entries_are_colours (pixelValues i : nat)
  (entry : rgba) :
  (3 <= pixelValues <= 256)%nat ->
  nth_error (buildMayaraLegend (Some (of_Z (Z.of_nat pixelValues)))) i =
    Some entry ->
  exists r g b : Z,
    (0 <= r <= 255)%Z /\ (0 <= g <= 255)%Z /\ (0 <= b <= 255)%Z /\
    entry = [of_Z r; of_Z g; of_Z b; match i with O => 0 | S _ => 255 end].
Proof.
  intros Hp He.
  destruct (legend_surveyed_spec pixelValues Hp) as (Hall & _).
  assert (Hi : (i < 256)%nat).
  { assert (H : nth_error (buildMayaraLegend
                             (Some (of_Z (Z.of_nat pixelValues)))) i <> None)
      by (rewrite He; discriminate).
    apply nth_error_Some in H. unfold buildMayaraLegend in H.
    now rewrite length_map, length_seq in H. }
  assert (Hin : In (i, entry)
                   (combine (seq 0 256)
                      (buildMayaraLegend (Some (of_Z (Z.of_nat pixelValues)))))).
  { apply (combine_nth_error_In _ _ i); [|exact He].
    rewrite nth_error_seq. now destruct (Nat.ltb_spec i 256); [|lia]. }
  pose proof (proj1 (forallb_forall _ _) Hall _ Hin) as Hok. simpl in Hok.
  unfold colour_ok in Hok.
  destruct entry as [|r [|g [|b [|a [|]]]]]; try discriminate.
  repeat (apply andb_true_iff in Hok; destruct Hok as [Hok ?]).
  destruct (is_byte_spec r) as (kr & Hr & ->); [assumption|].
  destruct (is_byte_spec g) as (kg & Hg & ->); [assumption|].
  destruct (is_byte_spec b) as (kb & Hb & ->); [assumption|].
  match goal with H : Leibniz.eqb a _ = true |- _ =>
    apply Leibniz.eqb_spec in H; subst a end.
  exists kr, kg, kb. auto.
Qed.

(** X10.  For every pixel-value count from 3 to 256 the gradient runs
    from [[0, 85, 255, 255]] at index 1 to saturated red at the last index
    below the count, and warms up on the way: from one entry to the next
    red never decreases and blue never increases. *)
Theorem buildMayaraLegend_gradient_warms_up (pixelValues : nat) :
  (3 <= pixelValues <= 256)%nat ->
  let legend := buildMayaraLegend (Some (of_Z (Z.of_nat pixelValues))) in
  nth_error legend 1 = Some [0; 85; 255; 255] /\
  nth_error legend (pixelValues - 1) = Some saturated_red /\
  forall (i : nat) (a b : rgba),
    (1 <= i)%nat -> (S i < pixelValues)%nat ->
    nth_error legend i = Some a -> nth_error legend (S i) = Some b ->
    (channel 0 a <=? channel 0 b) = true /\
    (channel 2 b <=? channel 2 a) = true.
Proof.
  intros Hp legend.
  destruct (legend_surveyed_spec pixelValues Hp) as (_ & H1 & Hlast & Hw).
  fold legend in H1, Hlast, Hw.
  assert (Hlen : length legend = 256%nat).
  { unfold legend, buildMayaraLegend. now rewrite length_map, length_seq. }
  split; [|split].
  - rewrite (nth_error_nth' legend []) by lia. f_equal.
    now apply entry_eqb_eq.
  - rewrite (nth_error_nth' legend []) by lia. f_equal.
    now apply entry_eqb_eq.
  - intros i a b Hi Hlt Ha Hb.
    apply (warms_up_spec _ (i - 1) a b Hw).
    + rewrite nth_error_firstn.
      destruct (Nat.ltb_spec (i - 1) (pixelValues - 1)); [|lia].
      rewrite nth_error_skipn. now replace (1 + (i - 1))%nat with i by lia.
    + rewrite nth_error_firstn.
      destruct (Nat.ltb_spec (S (i - 1)) (pixelValues - 1)); [|lia].
      rewrite nth_error_skipn.
      now replace (1 + S (i - 1))%nat with (S i) by lia.
Qed.

(** Entry 5 of the legend of 16 values. *)
Lemma buildMayaraLegend_entries_are_colours_witness :
  exists r g b : Z,
    (0 <= r <= 255)%Z /\ (0 <= g <= 255)%Z /\ (0 <= b <= 255)%Z /\
    legend_entry 16 5 = [of_Z r; of_Z g; of_Z b; 255].
Proof.
  destruct (buildMayaraLegend_entries_are_colours 16 5 (legend_entry 16 5)
              ltac:(lia) eq_refl)
    as (r & g & b & Hr & Hg & Hb & E).
  exists r, g, b. split; [exact Hr|]. split; [exact Hg|].
  split; [exact Hb|exact E].
Defined.

(** The legend of 64 values: its first and last gradient entries, and
    entries 31 and 32 around the middle. *)
Lemma buildMayaraLegend_gradient_warms_up_witness :
  nth_error (buildMayaraLegend (Some 64)) 1 = Some [0; 85; 255; 255] /\
  nth_error (buildMayaraLegend (Some 64)) 63 = Some saturated_red /\
  (channel 0 (legend_entry 64 31) <=? channel 0 (legend_entry 64 32)) = true /\
  (channel 2 (legend_entry 64 32) <=? channel 2 (legend_entry 64 31)) = true.
Proof.
  destruct (buildMayaraLegend_gradient_warms_up 64 ltac:(lia))
    as (H1 & Hlast & Hw).
  split; [exact H1|]. split; [exact Hlast|].
  apply (Hw 31%nat); [lia|lia|reflexivity|reflexivity].
Defined.

(* ================================================================== *)
(** ** Colour strings: theorems *)
(* ================================================================== *)

Lemma slices_length (hex : string) (todo i : nat) :
  length (slices hex i todo) =
  Nat.min todo (Nat.div2 (String.length hex + 1 - i)).
Proof.
  revert i. induction todo as [|todo IH]; intros i; [reflexivity|].
  simpl slices. destruct (Nat.ltb_spec i (String.length hex)) as [Hlt|Hge].
  - simpl length. rewrite IH.
    replace (String.length hex + 1 - i)%nat
      with (S (S (String.length hex + 1 - (i + 2))))%nat by lia.
    reflexivity.
  - assert (E : (String.length hex + 1 - i = 0 \/
                 String.length hex + 1 - i = 1)%nat) by lia.
    destruct E as [-> | ->]; reflexivity.
Qed.

Lemma pad_colour_length (a : list number) :
  length (pad_colour a) = Nat.max 4 (length a).
Proof.
  unfold pad_colour. cbv zeta. rewrite !length_app, !repeat_length. lia.
Qed.

Lemma pad_colour_alpha (a : list number) :
  (length a <= 3)%nat -> nth_error (pad_colour a) 3 = Some 255.
Proof.
  destruct a as [|x [|y [|z [|w a]]]]; simpl; try reflexivity. lia.
Qed.

(** X11.  Whatever the string, [hexToRGBA] returns at least four
    components: one for each pair of characters after the first
    character, padded to four; and for a string of at most seven
    characters, as [#rrggbb] is, the fourth component is 255, a fully
    opaque alpha. *)
Theorem hexToRGBA_has_four_components (hex : string) :
  length (hexToRGBA hex) = Nat.max 4 (String.length hex / 2) /\
  ((String.length hex <= 7)%nat -> nth_error (hexToRGBA hex) 3 = Some 255) /\
  ((String.length hex <= 1)%nat -> hexToRGBA hex = [0; 0; 0; 255]).
Proof.
  assert (Hlen : length (map parseInt_16 (slices hex 1 (String.length hex)))
                 = (String.length hex / 2)%nat).
  { rewrite length_map, slices_length, <- Nat.div2_div.
    replace (String.length hex + 1 - 1)%nat with (String.length hex) by lia.
    apply Nat.min_r. rewrite Nat.div2_div.
    apply Nat.Div0.div_le_upper_bound. lia. }
  unfold hexToRGBA. split; [|split].
  - now rewrite pad_colour_length, Hlen.
  - intros H7. apply pad_colour_alpha. rewrite Hlen.
    change 3%nat with (7 / 2)%nat. now apply Nat.Div0.div_le_mono.
  - intros H1. destruct hex as [|c [|d hex]]; try reflexivity.
    simpl in H1. lia.
Qed.

Lemma parse_hex_pairs :
  forallb (fun n =>
             Leibniz.eqb (parseInt_16 (hex_pair false n)) (of_Z (Z.of_N n)) &&
             Leibniz.eqb (parseInt_16 (hex_pair true n)) (of_Z (Z.of_N n)))
          bytes = true.
Proof. vm_compute. reflexivity. Qed.

Lemma parse_hex_pair (upper : bool) (n : N) :
  (n < 256)%N -> parseInt_16 (hex_pair upper n) = of_Z (Z.of_N n).
Proof.
  intros Hn.
  assert (Hin : In n bytes).
  { unfold bytes. apply in_map_iff. exists (N.to_nat n).
    split; [apply N2Nat.id|]. apply in_seq. lia. }
  pose proof (proj1 (forallb_forall _ _) parse_hex_pairs n Hin) as H.
  apply andb_true_iff in H as [Hl Hu].
  apply Leibniz.eqb_spec in Hl, Hu. now destruct upper.
Qed.

(** X12.  Reading a colour back: for all bytes [r], [g], [b] and [a],
    written with lower-case or upper-case digits, [hexToRGBA] of
    [#rrggbb] is [[r, g, b, 255]] and [hexToRGBA] of [#rrggbbaa] is
    [[r, g, b, a]]. *)
Theorem hexToRGBA_reads_back (upper : bool) (r g b a : N) :
  (r < 256)%N -> (g < 256)%N -> (b < 256)%N -> (a < 256)%N ->
  hexToRGBA ("#" ++ hex_pair upper r ++ hex_pair upper g ++
             hex_pair upper b) =
    [of_Z (Z.of_N r); of_Z (Z.of_N g); of_Z (Z.of_N b); 255] /\
  hexToRGBA ("#" ++ hex_pair upper r ++ hex_pair upper g ++
             hex_pair upper b ++ hex_pair upper a) =
    [of_Z (Z.of_N r); of_Z (Z.of_N g); of_Z (Z.of_N b); of_Z (Z.of_N a)].
Proof.
  intros Hr Hg Hb Ha.
  pose proof (parse_hex_pair upper r Hr) as Er.
  pose proof (parse_hex_pair upper g Hg) as Eg.
  pose proof (parse_hex_pair upper b Hb) as Eb.
  pose proof (parse_hex_pair upper a Ha) as Ea.
  unfold hex_pair in *. unfold hexToRGBA. simpl slices. simpl map.
  rewrite Er, Eg, Eb, Ea. split; reflexivity.
Qed.

Lemma hexToRGBA_reads_back_witness :
  hexToRGBA "#ff8000" = [255; 128; 0; 255] /\
  hexToRGBA "#FF800040" = [255; 128; 0; 64].
Proof.
  destruct (hexToRGBA_reads_back false 255 128 0 64)
    as (H6 & _); try reflexivity.
  destruct (hexToRGBA_reads_back true 255 128 0 64)
    as (_ & H8); try reflexivity.
  split; [exact H6|exact H8].
Defined.

Lemma slices_first_character (c c' : ascii) (s : string) (todo i : nat) :
  slices (String c s) (S i) todo = slices (String c' s) (S i) todo.
Proof.
  revert i. induction todo as [|todo IH]; intros i; [reflexivity|].
  simpl. rewrite (IH (i + 2)%nat). reflexivity.
Qed.

Lemma parse_hex_digits :
  forallb (fun d =>
             Leibniz.eqb (parseInt_16 (String (hex_digit false d) EmptyString))
                         (of_Z (Z.of_N d)) &&
             Leibniz.eqb (parseInt_16 (String (hex_digit true d) EmptyString))
                         (of_Z (Z.of_N d)))
          (firstn 16 bytes) = true.
Proof. vm_compute. reflexivity. Qed.

Lemma parse_hex_digit (upper : bool) (d : N) :
  (d < 16)%N ->
  parseInt_16 (String (hex_digit upper d) EmptyString) = of_Z (Z.of_N d).
Proof.
  intros Hd.
  assert (Hin : In d (firstn 16 bytes)).
  { unfold bytes. rewrite firstn_map. apply in_map_iff.
    exists (N.to_nat d). split; [apply N2Nat.id|].
    change (firstn 16 (seq 0 256)) with (seq 0 16). apply in_seq. lia. }
  pose proof (proj1 (forallb_forall _ _) parse_hex_digits d Hin) as H.
  apply andb_true_iff in H as [Hl Hu].
  apply Leibniz.eqb_spec in Hl, Hu. now destruct upper.
Qed.

(** X13.  [hexToRGBA] does not validate what it reads.  The first
    character is skipped whatever it is.  The three-digit short form
    [#xyz] is not expanded to [#xxyyzz]: it reads as the two components
    [xy] and [z], padded with 0 and 255.  And a pair whose first
    character is no hexadecimal digit, sign or white space becomes a NaN
    component. *)
Theorem hexToRGBA_does_not_validate :
  (forall (c : ascii) (s : string),
     hexToRGBA (String c s) = hexToRGBA (String "#" s)) /\
  (forall (upper : bool) (x y z : N),
     (x < 16)%N -> (y < 16)%N -> (z < 16)%N ->
     hexToRGBA (String "#" (String (hex_digit upper x)
                 (String (hex_digit upper y)
                    (String (hex_digit upper z) EmptyString)))) =
       [of_Z (Z.of_N (16 * x + y)); of_Z (Z.of_N z); 0; 255]) /\
  (forall (c d : ascii) (rest : string),
     is_white_space c = false -> c <> "-"%char -> c <> "+"%char ->
     (forall v, digit_value c = Some v -> (16 <= v)%N) ->
     nth_error (hexToRGBA (String "#" (String c (String d rest)))) 0 =
       Some nan).
Proof.
  split; [|split].
  - intros c s. unfold hexToRGBA. simpl String.length.
    now rewrite (slices_first_character c "#").
  - intros upper x y z Hx Hy Hz.
    pose proof (parse_hex_pair upper (16 * x + y) ltac:(lia)) as Exy.
    pose proof (parse_hex_digit upper z Hz) as Ez.
    unfold hex_pair in Exy.
    replace ((16 * x + y) / 16)%N with x in Exy
      by (symmetry; rewrite N.mul_comm, N.div_add_l by lia;
          rewrite N.div_small by lia; lia).
    replace ((16 * x + y) mod 16)%N with y in Exy
      by (symmetry; rewrite N.add_comm, N.mul_comm, N.Div0.mod_add;
          apply N.mod_small; lia).
    unfold hexToRGBA. simpl slices. simpl map. now rewrite Exy, Ez.
  - intros c d rest Hw Hm Hp Hd.
    unfold hexToRGBA. simpl slices. simpl map.
    replace (substring 0 0 rest) with EmptyString by (now destruct rest).
    replace (parseInt_16 (String c (String d EmptyString))) with nan;
      [reflexivity|].
    destruct c as [[] [] [] [] [] [] [] []];
      try discriminate Hw; try (exfalso; apply Hm; reflexivity);
      try (exfalso; apply Hp; reflexivity);
      try reflexivity;
      exfalso; specialize (Hd _ eq_refl); vm_compute in Hd;
      apply Hd; reflexivity.
Qed.

(* ================================================================== *)
(** ** Heading: theorems *)
(* ================================================================== *)

Section HeadingTheorems.

Variable StringToNumber : string -> number.
Variable ObjectToNumber : json -> number.
Context {MessageData : Type}.
Variable JSON_parse : MessageData -> outcome json.

#[local] Abbreviation rotation := (heading_rotation StringToNumber ObjectToNumber).
#[local] Abbreviation display := (updateHeadingDisplay StringToNumber ObjectToNumber).
#[local] Abbreviation click := (toggle_click StringToNumber ObjectToNumber).
#[local] Abbreviation on_value := (heading_value StringToNumber ObjectToNumber).
#[local] Abbreviation on_update := (heading_update StringToNumber ObjectToNumber).
#[local] Abbreviation on_message_try :=
  (heading_onmessage_try StringToNumber ObjectToNumber JSON_parse).
#[local] Abbreviation on_message :=
  (heading_onmessage StringToNumber ObjectToNumber JSON_parse).
#[local] Abbreviation assign := (apply_headings StringToNumber ObjectToNumber).
#[local] Abbreviation heading_grows :=
  (heading_grows StringToNumber ObjectToNumber).
#[local] Abbreviation heading_in_sync :=
  (heading_in_sync StringToNumber ObjectToNumber).
#[local] Abbreviation reach_heading :=
  (heading_reachable StringToNumber ObjectToNumber JSON_parse).

(** A property of the state that every iteration of a loop keeps is kept
    by the loop, however it ends. *)
Lemma for_of_invariant {S : Type} (P : S -> Prop)
  (body : S -> json -> S * completion) (items : list json) (st : S) :
  (forall st x, P st -> P (fst (body st x))) ->
  P st -> P (fst (for_of body items st)).
Proof.
  intros Hbody. revert st. induction items as [|x items IH]; intros st Hst.
  - exact Hst.
  - simpl. pose proof (Hbody st x Hst) as Hx.
    destruct (body st x) as [st1 [|err]]; [apply IH|]; exact Hx.
Qed.

Lemma heading_grows_refl (st : Heading) : heading_grows st st.
Proof.
  split; [reflexivity|]. split; [reflexivity|]. split; [reflexivity|].
  exists []. simpl. destruct (heading_renderer st); now rewrite app_nil_r.
Qed.

Lemma heading_grows_trans (a b c : Heading) :
  heading_grows a b -> heading_grows b c -> heading_grows a c.
Proof.
  intros (Hm & Hl & Hr & hs & Hh & Ht) (Hm' & Hl' & Hr' & hs' & Hh' & Ht').
  split; [congruence|]. split; [congruence|]. split; [congruence|].
  exists (hs ++ hs')%list. split.
  - rewrite Hh', Hh. clear. revert hs.
    induction hs' as [|h hs' IH] using rev_ind; intros hs.
    + now rewrite app_nil_r.
    + now rewrite app_assoc, !List.last_last.
  - rewrite Ht', Ht, Hr, Hm. destruct (heading_renderer a).
    + now rewrite map_app, app_assoc.
    + now rewrite !app_nil_r.
Qed.

Lemma heading_grows_assign (h : property) (st : Heading) :
  heading_grows st (display (set_trueHeading h st)).
Proof.
  unfold updateHeadingDisplay. simpl.
  destruct (heading_renderer st) eqn:Er; simpl; rewrite ?Er;
    (split; [reflexivity|]); (split; [reflexivity|]);
    (split; [reflexivity|]); exists [h]; simpl; rewrite Er, ?app_nil_r;
    auto.
Qed.

Lemma heading_grows_value (st : Heading) (v : json) :
  heading_grows st (fst (on_value st v)).
Proof.
  unfold heading_value.
  destruct (get v path) as [[|[| | |p| |]|]|err]; simpl;
    try apply heading_grows_refl.
  destruct (String.eqb p "navigation.headingTrue");
    [|apply heading_grows_refl].
  destruct (get v value) as [h|err]; simpl;
    [apply heading_grows_assign|apply heading_grows_refl].
Qed.

Lemma heading_grows_for_of (body : Heading -> json -> Heading * completion)
  (items : list json) (st : Heading) :
  (forall st x, heading_grows st (fst (body st x))) ->
  heading_grows st (fst (for_of body items st)).
Proof.
  intros Hbody.
  apply (for_of_invariant (heading_grows st)); [|apply heading_grows_refl].
  intros st1 x H1. eapply heading_grows_trans; [exact H1|apply Hbody].
Qed.

Lemma heading_grows_update (st : Heading) (update : json) :
  heading_grows st (fst (on_update st update)).
Proof.
  unfold heading_update.
  destruct (get update values) as [vs|err]; [|apply heading_grows_refl].
  destruct (truthy vs); [|apply heading_grows_refl].
  destruct (iterate vs) as [items|err]; [|apply heading_grows_refl].
  apply heading_grows_for_of, heading_grows_value.
Qed.

Lemma heading_grows_onmessage (data : MessageData) (st : Heading) :
  heading_grows st (on_message data st).
Proof.
  unfold heading_onmessage, heading_onmessage_try.
  destruct (JSON_parse data) as [d|err]; [|apply heading_grows_refl].
  destruct (get d updates) as [us|err]; [|apply heading_grows_refl].
  destruct (truthy us); [|apply heading_grows_refl].
  destruct (iterate us) as [items|err]; [|apply heading_grows_refl].
  apply heading_grows_for_of, heading_grows_update.
Qed.

(** X14.  A message on the heading socket never throws out of its
    handler and acts through [trueHeading] and
    [renderer.setHeadingRotation] alone: the display mode, the toggle
    button and the renderer are left as they are; every heading taken
    from the message is passed on at once, one call for each, the last
    one staying in [trueHeading]; without a renderer no call is made.  A
    message that is no JSON, or whose value has no (truthy) [updates],
    as the hello message of the server, changes nothing at all. *)
Theorem heading_onmessage_only_rotates (data : MessageData) (st : Heading) :
  let st' := on_message data st in
  headingMode st' = headingMode st /\
  toggle_innerHTML st' = toggle_innerHTML st /\
  heading_renderer st' = heading_renderer st /\
  (exists hs,
     trueHeading st' = List.last hs (trueHeading st) /\
     heading_trace st' =
       (heading_trace st ++
        if heading_renderer st
        then map (fun h => setHeadingRotation (rotation (headingMode st) h)) hs
        else [])%list) /\
  (forall err, JSON_parse data = Thrown err -> st' = st) /\
  (forall d us, JSON_parse data = Returned d ->
     get d updates = Returned us -> truthy us = false -> st' = st).
Proof.
  intros st'. destruct (heading_grows_onmessage data st) as (Hm & Hl & Hr & H).
  split; [exact Hm|]. split; [exact Hl|]. split; [exact Hr|].
  split; [exact H|]. subst st'. unfold heading_onmessage, heading_onmessage_try.
  split.
  - intros err ->. reflexivity.
  - intros d us -> -> ->. reflexivity.
Qed.

(** *** Well-formed deltas *)

Lemma assign_app (hs hs' : list property) (st : Heading) :
  assign (hs ++ hs') st = assign hs' (assign hs st).
Proof. apply fold_left_app. Qed.

Lemma heading_value_object (st : Heading) (v : json) :
  is_object v = true ->
  on_value st v = (assign (reported_heading v) st, Normal).
Proof.
  destruct v as [| | | | |members]; try discriminate. intros _.
  unfold heading_value, reported_heading. simpl.
  destruct (own_property members "path") as [|[| | |p| |]|]; try reflexivity.
  destruct (String.eqb p "navigation.headingTrue"); reflexivity.
Qed.

Lemma for_of_values (vs : list json) (st : Heading) :
  forallb is_object vs = true ->
  for_of on_value vs st = (assign (flat_map reported_heading vs) st, Normal).
Proof.
  revert st. induction vs as [|v vs IH]; intros st H; [reflexivity|].
  simpl in H. apply andb_true_iff in H as [Hv Hvs].
  simpl. rewrite (heading_value_object st v Hv), IH by exact Hvs.
  now rewrite assign_app.
Qed.

Lemma heading_update_well_formed (st : Heading) (update : json) :
  well_formed_update update = true ->
  on_update st update =
    (assign (reported_headings_of_update update) st, Normal).
Proof.
  destruct update as [| | | | |members]; try discriminate.
  unfold well_formed_update, heading_update, reported_headings_of_update.
  simpl.
  destruct (own_property members "values") as [|[| | | |vs|]|];
    try discriminate; [reflexivity|].
  intros H. simpl. now apply for_of_values.
Qed.

Lemma for_of_updates (us : list json) (st : Heading) :
  forallb well_formed_update us = true ->
  for_of on_update us st =
    (assign (flat_map reported_headings_of_update us) st, Normal).
Proof.
  revert st. induction us as [|u us IH]; intros st H; [reflexivity|].
  simpl in H. apply andb_true_iff in H as [Hu Hus].
  simpl. rewrite (heading_update_well_formed st u Hu), IH by exact Hus.
  now rewrite assign_app.
Qed.

Lemma assign_spec (hs : list property) (st : Heading) :
  headingMode (assign hs st) = headingMode st /\
  toggle_innerHTML (assign hs st) = toggle_innerHTML st /\
  heading_renderer (assign hs st) = heading_renderer st /\
  trueHeading (assign hs st) = List.last hs (trueHeading st) /\
  heading_trace (assign hs st) =
    (heading_trace st ++
     if heading_renderer st
     then map (fun h => setHeadingRotation (rotation (headingMode st) h)) hs
     else [])%list.
Proof.
  induction hs as [|h hs IH] using rev_ind.
  - simpl. destruct (heading_renderer st); now rewrite app_nil_r.
  - destruct IH as (Hm & Hl & Hr & Hh & Ht).
    rewrite assign_app. simpl. rewrite List.last_last.
    unfold updateHeadingDisplay. simpl. rewrite Hr.
    destruct (heading_renderer st) eqn:Er; simpl; rewrite ?Hm, ?Hl, ?Hr, ?Ht;
      repeat apply conj; try reflexivity.
    now rewrite map_app, <- app_assoc.
Qed.

(** X15.  On a well-formed SignalK delta (an object whose [updates] is
    an array of objects, the [values] of each an array of objects) the
    handler takes every value reported for [navigation.headingTrue], in
    the order of the message, and no other: the last one reported is the
    heading kept, and the renderer is given one rotation per report,
    minus the heading in north-up mode and 0 in heading-up mode. *)
Theorem heading_onmessage_takes_the_last_report (data : MessageData)
  (d : json) (st : Heading) :
  JSON_parse data = Returned d -> well_formed_delta d = true ->
  heading_renderer st = true ->
  let st' := on_message data st in
  trueHeading st' = List.last (reported_headings d) (trueHeading st) /\
  heading_trace st' =
    (heading_trace st ++
     map (fun h => setHeadingRotation (rotation (headingMode st) h))
         (reported_headings d))%list /\
  (headingMode st = "northUp" ->
   rotations (heading_trace st') =
     (rotations (heading_trace st) ++
      map (fun h => - ToNumber StringToNumber ObjectToNumber h)
          (reported_headings d))%list) /\
  (headingMode st = "headingUp" ->
   rotations (heading_trace st') =
     (rotations (heading_trace st) ++
      map (fun _ => 0) (reported_headings d))%list).
Proof.
  intros Hparse Hwf Hr st'.
  assert (E : st' = assign (reported_headings d) st).
  { subst st'. unfold heading_onmessage, heading_onmessage_try.
    rewrite Hparse.
    destruct d as [| | | | |members]; try discriminate.
    unfold well_formed_delta in Hwf. unfold reported_headings. simpl.
    destruct (own_property members "updates") as [|[| | | |us|]|];
      try discriminate; [reflexivity|].
    simpl. now rewrite for_of_updates. }
  destruct (assign_spec (reported_headings d) st) as (_ & _ & _ & Hh & Ht).
  rewrite Hr in Ht. rewrite E.
  split; [exact Hh|]. split; [exact Ht|].
  assert (Hrot : forall f : property -> number, forall hs,
            rotations (map (fun h => setHeadingRotation (f h)) hs) = map f hs).
  { intros f hs. induction hs as [|h hs IH]; [reflexivity|].
    unfold rotations in *. simpl. now rewrite IH. }
  split; intros Hmode; rewrite Ht; unfold rotations at 1;
    rewrite flat_map_app; fold (rotations (heading_trace st)); f_equal;
    rewrite Hmode; apply (Hrot _ (reported_headings d)).
Qed.

(** *** The toggle button *)

Lemma displayed_rotation_app (t : list HeadingEvent) (e : HeadingEvent) :
  displayed_rotation (t ++ [e]) =
  match e with
  | setHeadingRotation r => Some r
  | _ => displayed_rotation t
  end.
Proof.
  unfold displayed_rotation. rewrite fold_left_app. simpl.
  destruct e; reflexivity.
Qed.

Lemma displayed_rotation_rotations (t : list HeadingEvent)
  (f : property -> number) (hs : list property) (h0 : property) :
  displayed_rotation t = Some (f h0) \/ hs <> [] ->
  displayed_rotation (t ++ map (fun h => setHeadingRotation (f h)) hs) =
  Some (f (List.last hs h0)).
Proof.
  intros H. destruct hs as [|h hs _] using rev_ind.
  - simpl. rewrite app_nil_r. destruct H; [assumption|congruence].
  - rewrite map_app, app_assoc, List.last_last. simpl.
    apply displayed_rotation_app.
Qed.

Lemma heading_in_sync_message (data : MessageData) (st : Heading) :
  heading_in_sync st -> heading_in_sync (on_message data st).
Proof.
  intros (Hr & Hmode & Hshown).
  destruct (heading_grows_onmessage data st)
    as (Hm & Hl & Hr' & hs & Hh & Ht).
  rewrite Hr in Ht. unfold heading_in_sync.
  rewrite Hm, Hl, Hr', Hh, Ht. split; [exact Hr|]. split; [exact Hmode|].
  destruct hs as [|h hs].
  - simpl. rewrite app_nil_r. exact Hshown.
  - left. apply (displayed_rotation_rotations _ (rotation (headingMode st))).
    right. discriminate.
Qed.

Lemma heading_in_sync_click (st : Heading) :
  heading_in_sync st -> heading_in_sync (fst (click st)).
Proof.
  intros (Hr & Hmode & _). unfold heading_in_sync, toggle_click.
  destruct Hmode as [[Hm Hl]|[Hm Hl]]; rewrite Hm; simpl;
    unfold updateHeadingDisplay; simpl; repeat (rewrite Hr; simpl);
    rewrite !displayed_rotation_app; auto 6.
Qed.

(** X16.  Once the toggle button is there, whatever messages arrive and
    however often the button is clicked: the mode is [headingUp] or
    [northUp] and the button reads [H Up] or [N Up] accordingly; and the
    rotation last given to the renderer is the one of the current mode
    and heading (minus the heading in north-up mode, 0 in heading-up
    mode), unless none was given yet, the mode then still being
    heading-up. *)
Theorem heading_display_in_sync (st : Heading) :
  reach_heading st ->
  heading_renderer st = true /\
  (headingMode st = "headingUp" /\ toggle_innerHTML st = Some "H Up" \/
   headingMode st = "northUp" /\ toggle_innerHTML st = Some "N Up") /\
  (displayed_rotation (heading_trace st) =
     Some (rotation (headingMode st) (trueHeading st)) \/
   displayed_rotation (heading_trace st) = None /\
   headingMode st = "headingUp").
Proof.
  induction 1 as [|st st' _ IH Hstep].
  - split; [reflexivity|]. split; [left|right]; split; reflexivity.
  - destruct Hstep as [data st|st].
    + now apply heading_in_sync_message.
    + now apply heading_in_sync_click.
Qed.

End HeadingTheorems.

(** The sample delta in north-up mode: the two headings reported are
    passed on, the position is not, and 2 rad is kept. *)
Lemma heading_onmessage_takes_the_last_report_witness :
  let st := fst (sample_toggle_click
                   (createHeadingModeToggle true heading_initial)) in
  let st' := sample_heading_onmessage sample_delta st in
  trueHeading st' = Value (json_number 2) /\
  rotations (heading_trace st') = [-0; -1.5; -2].
Proof.
  intros st st'.
  destruct (heading_onmessage_takes_the_last_report
              (@not_converted string) (@not_converted json) parsed
              sample_delta sample_delta st eq_refl eq_refl eq_refl)
    as (Hh & _ & Hn & _).
  split; [exact Hh|]. exact (Hn eq_refl).
Defined.

(** The button clicked, then the sample delta: north-up, and the picture
    turned by minus the last heading. *)
Lemma heading_display_in_sync_witness :
  let st := sample_heading_onmessage sample_delta
              (fst (sample_toggle_click
                      (createHeadingModeToggle true heading_initial))) in
  sample_heading_reachable st /\
  toggle_innerHTML st = Some "N Up" /\
  displayed_rotation (heading_trace st) = Some (-2).
Proof.
  intros st.
  assert (Hreach : sample_heading_reachable st).
  { apply heading_reachable_step
      with (st := fst (sample_toggle_click
                         (createHeadingModeToggle true heading_initial)));
      [|apply step_heading_message].
    apply heading_reachable_step
      with (st := createHeadingModeToggle true heading_initial);
      [apply heading_reachable_created|apply step_toggle_click]. }
  destruct (heading_display_in_sync (@not_converted string)
              (@not_converted json) parsed st Hreach)
    as (_ & [[Hm _]|[_ Hl]] & [Hshown|[_ Hm']]);
    try discriminate Hm; try discriminate Hm'.
  split; [exact Hreach|]. split; [exact Hl|exact Hshown].
Defined.

(* ================================================================== *)
(** ** Platform detection: theorems *)
(* ================================================================== *)

Lemma includes_cons (c : ascii) (s needle : string) :
  includes (String c s) needle =
  String.prefix needle (String c s) || includes s needle.
Proof.
  unfold includes.
  change (index 0 needle (String c s))
    with (if String.prefix needle (String c s) then Some 0%nat
          else match index 0 needle s with
               | Some n => Some (S n)
               | None => None
               end).
  destruct (String.prefix needle (String c s)); [reflexivity|].
  destruct (index 0 needle s); reflexivity.
Qed.

Lemma prefix_cons (a : ascii) (p s : string) :
  String.prefix (String a p) s = true ->
  exists s', s = String a s' /\ String.prefix p s' = true.
Proof.
  destruct s as [|b s']; simpl; [discriminate|].
  destruct (ascii_dec a b) as [<-|]; [|discriminate].
  intros H. now exists s'.
Qed.

(** A string that contains [darwin] contains [win]. *)
Lemma includes_darwin_win (s : string) :
  includes s "darwin" = true -> includes s "win" = true.
Proof.
  induction s as [|c s IH]; [discriminate|].
  rewrite !includes_cons. intros H. apply orb_true_iff in H as [H|H].
  - apply prefix_cons in H as (s1 & E & H). injection E as -> ->.
    apply prefix_cons in H as (s2 & -> & H).
    apply prefix_cons in H as (s3 & -> & H).
    apply prefix_cons in H as (s4 & -> & H).
    apply prefix_cons in H as (s5 & -> & H).
    apply prefix_cons in H as (s6 & -> & _).
    rewrite !includes_cons. simpl. now destruct s6.
  - rewrite (IH H). apply orb_true_r.
Qed.

(** X17.  [detectOS] reports the first of its tests that matches, in
    this order: [ios] if the user agent contains [iphone] or [ipad], or if
    there is more than one touch point and the user agent or the platform
    contains [mac]; else [android] if the user agent contains [android];
    else [windows], [macos], [linux] if the user agent or the platform
    contains [win], [mac], [linux]; else [unknown].  So with more than
    one touch point a user agent or platform naming a Mac gives [ios],
    never [macos]; a user agent naming Android gives [ios] or [android],
    never [linux], which it names too; and the tests being substring
    tests, a user agent that contains [darwin] contains [win]: it gives
    [ios], [android] or [windows], never [macos]. *)
Theorem detectOS_first_match_wins (userAgent : string)
  (navigator_platform : option string) (maxTouchPoints : number) :
  let os := detectOS userAgent navigator_platform maxTouchPoints in
  let ua := toLowerCase userAgent in
  let platform := match navigator_platform with
                  | Some p => toLowerCase p
                  | None => EmptyString
                  end in
  let ios := includes ua "iphone" || includes ua "ipad" ||
             (maxTouchPoints >? 1) &&
             (includes ua "mac" || includes platform "mac") in
  let android := includes ua "android" in
  let windows := includes ua "win" || includes platform "win" in
  let macos := includes ua "mac" || includes platform "mac" in
  let linux := includes ua "linux" || includes platform "linux" in
  (os = "ios" <-> ios = true) /\
  (os = "android" <-> ios = false /\ android = true) /\
  (os = "windows" <-> ios = false /\ android = false /\ windows = true) /\
  (os = "macos" <->
   ios = false /\ android = false /\ windows = false /\ macos = true) /\
  (os = "linux" <->
   ios = false /\ android = false /\ windows = false /\ macos = false /\
   linux = true) /\
  (os = "unknown" <->
   ios = false /\ android = false /\ windows = false /\ macos = false /\
   linux = false) /\
  ((maxTouchPoints >? 1) = true -> macos = true -> os = "ios") /\
  ((maxTouchPoints >? 1) = true -> os <> "macos") /\
  (android = true -> os = "ios" \/ os = "android") /\
  (includes ua "darwin" = true ->
   os = "ios" \/ os = "android" \/ os = "windows").
Proof.
  intros os ua platform ios android windows macos linux.
  assert (Hos : os = if ios then "ios"
                     else if android then "android"
                     else if windows then "windows"
                     else if macos then "macos"
                     else if linux then "linux" else "unknown").
  { subst os ios android windows macos linux. unfold detectOS.
    fold ua. fold platform.
    destruct (includes ua "iphone" || includes ua "ipad"); reflexivity. }
  assert (Hdarwin : includes ua "darwin" = true -> windows = true).
  { intros H. subst windows. now rewrite (includes_darwin_win ua H). }
  assert (Htouch : (maxTouchPoints >? 1) = true -> macos = true ->
                   ios = true).
  { intros Ht Hmac. subst ios. fold macos. rewrite Ht, Hmac.
    apply orb_true_r. }
  clearbody os ios android windows macos linux.
  split; [|split; [|split; [|split; [|split; [|split]]]]].
  1-6: subst os; destruct ios, android, windows, macos, linux;
    (split; [intros H; try discriminate H; auto 6
            |intros H; repeat match goal with
                              | H : _ /\ _ |- _ => destruct H
                              end; try discriminate; reflexivity]).
  split; [|split; [|split]].
  - intros Ht Hmac. rewrite Hos, (Htouch Ht Hmac). reflexivity.
  - intros Ht. rewrite Hos.
    destruct ios, android, windows, macos, linux; try discriminate.
    all: specialize (Htouch Ht eq_refl); discriminate.
  - intros ->. rewrite Hos. destruct ios; auto.
  - intros H. rewrite Hos, (Hdarwin H). destruct ios, android; auto.
Qed.

(** X18.  [detectBrowser] reports the first of [edg/], [chrome],
    [firefox] and [safari] the user agent contains.  The user agents of
    Chrome and Edge name Safari too, but a user agent that contains
    [chrome] is reported as [edge] or [chrome]; so the second test for
    [chrome], in the Safari line, never decides anything. *)
Theorem detectBrowser_first_match_wins (userAgent : string) :
  let ua := toLowerCase userAgent in
  detectBrowser userAgent =
    (if includes ua "edg/" then "edge"
     else if includes ua "chrome" then "chrome"
     else if includes ua "firefox" then "firefox"
     else if includes ua "safari" then "safari"
     else "unknown") /\
  (includes ua "chrome" = true ->
   detectBrowser userAgent = "edge" \/ detectBrowser userAgent = "chrome") /\
  (detectBrowser userAgent = "safari" <->
   includes ua "safari" = true /\ includes ua "edg/" = false /\
   includes ua "chrome" = false /\ includes ua "firefox" = false).
Proof.
  intros ua. unfold detectBrowser. fold ua.
  destruct (includes ua "edg/"), (includes ua "chrome"),
    (includes ua "firefox"), (includes ua "safari"); simpl;
    repeat split; intros; try discriminate; auto;
    repeat match goal with H : _ /\ _ |- _ => destruct H end;
    discriminate.
Qed.

(** The sample user agents. *)
Example platform_detection_examples :
  detectOS sample_ua_safari_mac (Some "MacIntel") 0 = "macos" /\
  detectOS sample_ua_safari_mac (Some "MacIntel") 5 = "ios" /\
  detectOS sample_ua_chrome_android (Some "Linux armv8l") 5 = "android" /\
  detectOS sample_ua_cfnetwork None 0 = "windows" /\
  detectBrowser sample_ua_edge = "edge" /\
  detectBrowser sample_ua_chrome_android = "chrome" /\
  detectBrowser sample_ua_safari_mac = "safari".
Proof. repeat split; vm_compute; reflexivity. Qed.

(* ================================================================== *)
(** ** Clearing a no-transmit zone: theorems *)
(* ================================================================== *)

Section ZoneClearing.

Context {Surface : Type}.
Variable call : RendererCall -> Surface -> Surface.
Variables getOperatingHours hasHoursCapability : jsval * jsval.
Variable parseFloat : jsval -> number.

#[local] Abbreviation update :=
  (controlUpdate call getOperatingHours hasHoursCapability parseFloat).

Lemma append_empty (s : string) : s ++ EmptyString = s.
Proof. induction s as [|c s IH]; simpl; [reflexivity|now rewrite IH]. Qed.

Lemma No_Transmit_prefix (rest : string) :
  String.prefix "No Transmit" ("No Transmit" ++ rest) = true.
Proof. simpl. now destruct rest. Qed.

(** X19.  The zone a No Transmit control belongs to is the number its
    name carries (of up to nine digits here, an array index for sure),
    whichever of the two angles it names: a disabled update
    of [No Transmit start k] and one of [No Transmit end k] both store
    [null] in entry [k] of [noTransmitAngles], so disabling one angle
    clears the zone as a whole; the other zones read as before (the array
    grows by holes if [k] is beyond its end), and a second disabled
    update changes nothing more. *)
Theorem controlUpdate_disabled_clears_the_zone (digits : string)
  (cv : ControlValue) (st : State Surface) :
  digits <> EmptyString -> (String.length digits <= 9)%nat ->
  Forall (fun c => is_digit c = true) (list_ascii_of_string digits) ->
  cv_enabled cv = false ->
  let k := N.to_nat (parseInt_digits digits) in
  let after_start := fst (update (Some ("No Transmit start " ++ digits)) cv st) in
  let after_end := fst (update (Some ("No Transmit end " ++ digits)) cv st) in
  noTransmitAngles after_start = array_set (noTransmitAngles st) k Null /\
  noTransmitAngles after_end = array_set (noTransmitAngles st) k Null /\
  array_get (noTransmitAngles after_start) k = Null /\
  (forall j, j <> k ->
     array_get (noTransmitAngles after_start) j =
     array_get (noTransmitAngles st) j) /\
  noTransmitAngles
    (fst (update (Some ("No Transmit end " ++ digits)) cv after_start)) =
    noTransmitAngles after_start.
Proof.
  intros Hne _ Hd He k after_start after_end.
  assert (Hs : extractNoTxZone ("No Transmit start " ++ digits) =
               parseInt_digits digits).
  { rewrite <- (append_empty digits) at 1.
    apply (extractNoTxZone_first_run "No Transmit start " digits EmptyString);
      try assumption; [|exact I].
    repeat constructor. }
  assert (Hend : extractNoTxZone ("No Transmit end " ++ digits) =
                 parseInt_digits digits).
  { rewrite <- (append_empty digits) at 1.
    apply (extractNoTxZone_first_run "No Transmit end " digits EmptyString);
      try assumption; [|exact I].
    repeat constructor. }
  subst after_start after_end.
  rewrite !controlUpdate_zones.
  change ("No Transmit start " ++ digits)
    with ("No Transmit" ++ (" start " ++ digits)) at 1 3 5 7.
  change ("No Transmit end " ++ digits)
    with ("No Transmit" ++ (" end " ++ digits)) at 1 3.
  rewrite !No_Transmit_prefix, He.
  change ("No Transmit" ++ (" start " ++ digits))
    with ("No Transmit start " ++ digits).
  change ("No Transmit" ++ (" end " ++ digits))
    with ("No Transmit end " ++ digits).
  rewrite Hs, Hend. fold k.
  split; [reflexivity|]. split; [reflexivity|].
  split; [apply array_get_set|].
  split; [intros j Hj; now apply array_get_set_ne|].
  apply array_set_idempotent.
Qed.

End ZoneClearing.

(** Zone 2 disabled on the initial state: entry 2 is [null], behind two
    holes. *)
Lemma controlUpdate_disabled_clears_the_zone_witness :
  let disabled := {| cv_id := None; cv_value := JNumber 0;
                     cv_enabled := false |} in
  noTransmitAngles
    (fst (sample_controlUpdate (Some "No Transmit start 2") disabled
            initial_state)) = [Hole; Hole; Null] /\
  noTransmitAngles
    (fst (sample_controlUpdate (Some "No Transmit end 2") disabled
            initial_state)) = [Hole; Hole; Null].
Proof.
  intros disabled.
  destruct (controlUpdate_disabled_clears_the_zone rs_call
              (JNumber 0, JNumber 0) (JBoolean false, JBoolean false)
              sample_parseFloat "2" disabled initial_state)
    as (Hs & He & _).
  - discriminate.
  - simpl. lia.
  - repeat constructor.
  - reflexivity.
  - split; [exact Hs|exact He].
Defined.

(* ================================================================== *)
(** ** Navico ranges below one nautical mile: theorems *)
(* ================================================================== *)


